(** * Email agent: the command lifecycle and the summary mapping

    A shallow embedding of the TypeScript sources

    - [src/models/Email.ts], [src/models/Command.ts], [src/models/Summary.ts]
    - [src/services/ai/ClaudeClient.ts], [CommandParser.ts], [EmailSummarizer.ts]
    - [src/services/gmail/GmailClient.ts], [GmailAuth.ts]
    - [src/handlers/CommandHandler.ts], [SummaryHandler.ts]
    - [src/utils/dateUtils.ts] ([getSummaryFileName]), [src/index.ts]

    Strings are Rocq strings; a JS [Map<string,string>] and a JS object used
    as a record of strings are finite maps [gmap string string]; an optional
    field ([x?: string], possibly [undefined]) is an [option]; asynchronous
    methods that call the mail provider, the language model or the file
    system are computations in a state-and-exception monad over the trace
    of the external calls made so far. The code that also writes files,
    prints to the console, or talks to the OAuth client and the label
    endpoints runs in a second monad, over that trace and the journal of
    those calls.

    Not modelled: the logger (its calls return nothing and are taken not to
    throw), and the white space outside the ASCII range in [trim] and
    [\s]. *)

From Stdlib Require Import Ascii String.
From stdpp Require Import base option list sorting strings pretty gmap
  fin_maps.

Local Open Scope string_scope.
Local Open Scope list_scope.

(** ** JavaScript string helpers *)

Module Js.

(** [s.repeat(n)]. *)
Fixpoint repeat (s : string) (n : nat) : string :=
  match n with
  | O => ""
  | S n' => s +:+ repeat s n'
  end.

(** [s.padStart(targetLength, padString)] (ECMA-262, StringPad with
    placement start): a string at least [targetLength] long is returned
    as it is, and so is any string when the filler is empty; otherwise
    the filler is repeated and truncated to the missing length. *)
Definition padStart (targetLength : nat) (padString s : string) : string :=
  let stringLength := String.length s in
  if (targetLength <=? stringLength)%nat then s
  else if String.eqb padString "" then s
  else
    let fillLen := (targetLength - stringLength)%nat in
    String.substring 0 fillLen (repeat padString fillLen) +:+ s.

(** [String(n)] for a non-negative integer [n]: its decimal numeral. *)
Definition String_of_nat (n : nat) : string := pretty n.

(** [s.startsWith(p)] and [s.endsWith(p)]. *)
Definition startsWith (p s : string) : bool := String.prefix p s.

Definition endsWith (p s : string) : bool :=
  String.prefix (String.rev p) (String.rev s).

(** [files.sort()] on strings: ascending in the order of the character
    codes. *)
Definition sort (l : list string) : list string := merge_sort String.le l.

(** [a || b] on optional strings: [undefined] and the empty string are
    falsy. *)
Definition or_else (a : option string) (b : string) : string :=
  match a with
  | Some s => if String.eqb s "" then b else s
  | None => b
  end.

(** Truthiness of an optional string ([!x] is its negation). *)
Definition truthy (a : option string) : bool :=
  match a with
  | Some s => negb (String.eqb s "")
  | None => false
  end.

(** An optional string inside a template literal. *)
Definition show_optional (a : option string) : string :=
  match a with
  | Some s => s
  | None => "undefined"
  end.

(** The double-quote character, and a text between two of them. *)
Definition dq : string := String (ascii_of_nat 34) "".
Definition quoted (s : string) : string := dq +:+ s +:+ dq.

(** [s.trim()], with the white space of the ASCII range (the class [\s]
    of a regular expression is read the same way below). *)
Fixpoint trimStart (s : string) : string :=
  match s with
  | "" => ""
  | String c s' => if Ascii.is_space c then trimStart s' else s
  end.

Definition trimEnd (s : string) : string :=
  String.rev (trimStart (String.rev s)).

Definition trim (s : string) : string := trimEnd (trimStart s).

(** [s.replace(/\n/g, r)]. *)
Fixpoint replace_newlines (r s : string) : string :=
  match s with
  | "" => ""
  | String c s' =>
      if Ascii.eqb c (ascii_of_nat 10) then r +:+ replace_newlines r s'
      else String c (replace_newlines r s')
  end.

(** The text of [s] before the first occurrence of [pat], when there is
    one. *)
Fixpoint before_first (pat s : string) : option string :=
  if String.prefix pat s then Some ""
  else
    match s with
    | "" => None
    | String c s' => String c <$> before_first pat s'
    end.

(** [s] without its first [n] characters. *)
Definition drop (n : nat) (s : string) : string :=
  String.substring n (String.length s - n) s.

End Js.

(** ** [src/models/Email.ts] *)

(** [generateReferenceId(index)]:
    [`EMAIL-${String(index + 1).padStart(3, '0')}`]. *)
Definition generateReferenceId (index : nat) : string :=
  "EMAIL-" +:+ Js.padStart 3 "0" (Js.String_of_nat (index + 1)).

(** The token the specification describes: the decimal numeral of the
    1-based position, preceded by the zeros needed to reach three digits. *)
Definition zero_padded_3 (n : nat) : string :=
  if (n <? 10)%nat then "00" +:+ pretty n
  else if (n <? 100)%nat then "0" +:+ pretty n
  else pretty n.

Definition spec_reference_token (i : nat) : string :=
  "EMAIL-" +:+ zero_padded_3 (i + 1).

(** ** Data model *)

(** A value thrown by JavaScript code: an [Error] object with its
    [message], or any other value ([error instanceof Error] is false). *)
Inductive Thrown : Type :=
  | JsError (message : string)
  | JsNonError.

(** A JS [Date]: a time value in milliseconds since the epoch, or the
    invalid date. *)
Inductive JsDate : Type :=
  | ValidDate (ms : Z)
  | InvalidDate.

Record EmailAddress : Type := mkEmailAddress {
  name : string;
  address : string
}.

Record Attachment : Type := mkAttachment {
  filename : string;
  mimeType : string;
  size_ : nat
}.

Record EmailBody : Type := mkEmailBody {
  plain : string;
  html : option string
}.

(** [interface Email]. The date is a valid [Date] ([parseDate] falls back
    to the current time), kept as its time value. *)
Record Email : Type := mkEmail {
  id : string;
  threadId : string;
  referenceId : string;
  from : EmailAddress;
  to : list EmailAddress;
  cc : option (list EmailAddress);
  subject : string;
  snippet : string;
  body : EmailBody;
  date : Z;
  labels : list string;
  attachments : list Attachment;
  isUnread : bool
}.

(** [src/models/Command.ts]: the nine command kinds with the fields each
    carries, over the shared base payload. *)
Inductive CommandKind : Type :=
  | Reply (content : string)
  | Forward (forwardTo : string) (note : option string)
  | Archive
  | Delete
  | MarkRead
  | MarkUnread
  | Star
  | Unstar
  | Label (labelName : string).

Record Command : Type := mkCommand {
  targetRef : string;
  targetGmailId : option string;
  kind : CommandKind
}.

(** [command.type], the discriminant as the string JavaScript holds. *)
Definition type_ (c : Command) : string :=
  match kind c with
  | Reply _ => "reply"
  | Forward _ _ => "forward"
  | Archive => "archive"
  | Delete => "delete"
  | MarkRead => "mark_read"
  | MarkUnread => "mark_unread"
  | Star => "star"
  | Unstar => "unstar"
  | Label _ => "label"
  end.

Record CommandResult : Type := mkCommandResult {
  command : Command;
  success : bool;
  error : option string;
  details : option string
}.

(** [commandTypeToLabel]. *)
Definition commandTypeToLabel (c : Command) : string :=
  match kind c with
  | Reply _ => "Replied to"
  | Forward _ _ => "Forwarded"
  | Archive => "Archived"
  | Delete => "Deleted"
  | MarkRead => "Marked as read"
  | MarkUnread => "Marked as unread"
  | Star => "Starred"
  | Unstar => "Unstarred"
  | Label _ => "Labeled"
  end.

(** [src/models/Summary.ts]. *)
Inductive Priority : Type := high | medium | low.

Record ActionItem : Type := mkActionItem {
  ai_referenceId : string;
  ai_priority : Priority;
  ai_description : string;
  ai_suggestedAction : string;
  ai_fromEmail : string;
  ai_subject : string
}.

Record InformationalItem : Type := mkInformationalItem {
  ii_referenceId : string;
  ii_description : string;
  ii_fromEmail : string
}.

Record Summary : Type := mkSummary {
  s_id : string;
  generatedAt : Z;
  periodStart : JsDate;
  periodEnd : Z;
  totalEmails : nat;
  unreadCount : nat;
  executiveSummary : string;
  actionItems : list ActionItem;
  informational : list InformationalItem;
  emailMappings : gmap string string
}.

Record StoredSummary : Type := mkStoredSummary {
  ss_id : string;
  ss_generatedAt : string;
  ss_emailMappings : gmap string string;
  ss_threadId : option string;
  ss_messageId : option string
}.

(** The value [loadStoredSummary] returns. *)
Record LoadedSummary : Type := mkLoadedSummary {
  ls_emailMappings : gmap string string;
  ls_threadId : option string;
  ls_messageId : option string
}.

(** The model's JSON answers, as the interfaces of [CommandParser.ts] and
    [EmailSummarizer.ts] type them. [type] is kept as the string the model
    sent: [JSON.parse ... as T] checks nothing, and [transformCommands] has
    a branch for a string outside the nine kinds. *)
Record ParsedCommand : Type := mkParsedCommand {
  p_type : string;
  p_targetRef : string;
  p_content : option string;
  p_forwardTo : option string;
  p_note : option string;
  p_labelName : option string
}.

Record ParseResponse : Type := mkParseResponse {
  pr_commands : list ParsedCommand;
  pr_unrecognized : list string
}.

Record SummaryResponseAction : Type := mkSummaryResponseAction {
  ra_referenceId : string;
  ra_priority : Priority;
  ra_description : string;
  ra_suggestedAction : string
}.

Record SummaryResponseInfo : Type := mkSummaryResponseInfo {
  ri_referenceId : string;
  ri_description : string
}.

Record SummaryResponse : Type := mkSummaryResponse {
  sr_executiveSummary : string;
  sr_actionItems : list SummaryResponseAction;
  sr_informational : list SummaryResponseInfo
}.

(** [src/config/index.ts], the fields the modelled code reads. *)
Record AgentConfig : Type := mkAgentConfig {
  emailLookbackHours : nat;
  maxEmailsPerRun : nat;
  enableCommandProcessing : bool;
  dryRun : bool
}.

Record Config : Type := mkConfig {
  anthropic_model : string;
  user_email : string;
  agent : AgentConfig;
  paths_summaryStorage : string
}.

(** ** The outside world

    What the modelled code calls and does not define: the mail provider
    (the REST calls behind the two listing methods and [getEmail], and the
    remaining [GmailClient] methods as the handlers call them), the
    language-model SDK, the file system, the clock and the UUID
    generator. *)

(** One entry of [users.messages.list]: [id] and [threadId] are optional
    in [gmail_v1.Schema$Message]. *)
Record MessageStub : Type := mkMessageStub {
  stub_id : option string;
  stub_threadId : option string
}.

(** The answer of [users.messages.get] with [format: 'full'], with its
    headers looked up and parsed and its MIME parts decoded (the header
    search, [parseEmailAddress], [extractBody], [extractAttachments] and
    [parseDate] of [parseMessage] are not modelled further). *)
Record MessageData : Type := mkMessageData {
  md_id : option string;
  md_threadId : option string;
  md_labelIds : option (list string);
  md_snippet : option string;
  md_from : EmailAddress;
  md_to : list EmailAddress;
  md_cc : list EmailAddress;
  md_subject : string;
  md_body : EmailBody;
  md_date : Z;
  md_attachments : list Attachment
}.

(** A content block of the model's answer. *)
Inductive ContentBlock : Type :=
  | TextBlock (text : string)
  | OtherBlock.

(** A sampling temperature in tenths ([3] is [0.3], [7] is [0.7]). *)
Definition Tenths : Type := nat.

Module Api.

Inductive Call : Type -> Type :=
  (* Gmail REST *)
  | messages_list (q : string) (maxResults : nat)
      : Call (option (list MessageStub))
  | messages_get (messageId : string) : Call MessageData
  (* GmailClient methods *)
  | sendEmail (to subject htmlBody : string) (plainBody : option string)
      : Call string
  | replyToEmail (originalMessageId threadId to subject htmlBody : string)
      : Call string
  | archiveEmail (messageId : string) : Call unit
  | deleteEmail (messageId : string) : Call unit
  | markAsRead (messageId : string) : Call unit
  | markAsUnread (messageId : string) : Call unit
  | starEmail (messageId : string) : Call unit
  | unstarEmail (messageId : string) : Call unit
  | addLabel (messageId labelName : string) : Call unit
  | getMessageContent (messageId : string) : Call string
  (* Anthropic SDK: client.messages.create *)
  | messages_create (model : string) (max_tokens : nat)
      (temperature : Tenths) (prompt : string) : Call (list ContentBlock)
  (* fs/promises: readdir(path), readFile(path, 'utf-8') *)
  | fs_readdir (path : string) : Call (list string)
  | fs_readFile (path : string) : Call string
  (* new Date(), uuidv4() *)
  | Date_now : Call Z
  | uuidv4 : Call string.

End Api.

(** An external call that was made. *)
Inductive Event : Type :=
  | Called {A : Type} (c : Api.Call A).

(** The calls that change the mailbox: sending, and every modification of
    a message. Listing and reading do not. *)
Definition state_changing (e : Event) : bool :=
  match e with
  | Called c =>
      match c with
      | Api.sendEmail _ _ _ _ | Api.replyToEmail _ _ _ _ _
      | Api.archiveEmail _ | Api.deleteEmail _
      | Api.markAsRead _ | Api.markAsUnread _
      | Api.starEmail _ | Api.unstarEmail _
      | Api.addLabel _ _ => true
      | _ => false
      end
  end.

(** The calls that reach the language model. *)
Definition model_call (e : Event) : bool :=
  match e with
  | Called c =>
      match c with
      | Api.messages_create _ _ _ _ => true
      | _ => false
      end
  end.

(** The world answers a call, knowing the calls made before it: with a
    value, or by throwing. *)
Record Oracle : Type := mkOracle {
  respond : forall A : Type, list Event -> Api.Call A -> Thrown + A
}.

(** Functions of the JavaScript runtime, of Node and of date-fns that the
    code applies and that are pure. [JSON.parse] is taken at the types it
    is used at; [None] is a [SyntaxError]. *)
Record Runtime : Type := mkRuntime {
  toISOString : Z -> string;
  formatDate : Z -> string;
  Date_parse : string -> JsDate;
  path_join : string -> string -> string;
  JSON_parse_ParseResponse : string -> option ParseResponse;
  JSON_parse_SummaryResponse : string -> option SummaryResponse;
  JSON_parse_StoredSummary : string -> option StoredSummary
}.

(** ** Computations with a trace and exceptions *)

Definition Trace : Type := list Event.

Definition M (A : Type) : Type := Trace -> (Thrown + A) * Trace.

Definition ret {A : Type} (a : A) : M A := fun w => (inr a, w).

Definition throw {A : Type} (e : Thrown) : M A := fun w => (inl e, w).

Definition bind {A B : Type} (m : M A) (k : A -> M B) : M B :=
  fun w =>
    match m w with
    | (inr a, w') => k a w'
    | (inl e, w') => (inl e, w')
    end.

(** [try { m } catch (error) { h error }]. *)
Definition try_catch {A : Type} (m : M A) (h : Thrown -> M A) : M A :=
  fun w =>
    match m w with
    | (inr a, w') => (inr a, w')
    | (inl e, w') => h e w'
    end.

(** Lifting of a pure computation that may throw. *)
Definition lift {A : Type} (r : Thrown + A) : M A := fun w => (r, w).

Declare Scope M_scope.
Delimit Scope M_scope with M.
Notation "x <- c ;; k" := (bind c (fun x => k))
  (at level 100, c at next level, right associativity) : M_scope.
Notation "c ;;; k" := (bind c (fun _ => k))
  (at level 100, right associativity) : M_scope.

(** [for (const x of l) { acc = body(acc, x) }]. *)
Fixpoint foldM {A B : Type} (body : B -> A -> M B) (acc : B) (l : list A)
  : M B :=
  match l with
  | [] => ret acc
  | x :: l' => bind (body acc x) (fun acc' => foldM body acc' l')
  end.

(** ** [src/models/Summary.ts] *)

(** [Object.fromEntries(iterable)] and [new Map(iterable)]: the entries
    are taken one after the other, a later one replacing an earlier one of
    the same key. [Object.entries(o)] and the iteration of a [Map] list the
    entries of the map. *)
Definition Object_fromEntries (entries : list (string * string))
  : gmap string string :=
  foldl (fun o kv => <[kv.1 := kv.2]> o) ∅ entries.

Definition Object_entries (o : gmap string string) : list (string * string) :=
  map_to_list o.

Definition Map_new (entries : list (string * string)) : gmap string string :=
  foldl (fun m kv => <[kv.1 := kv.2]> m) ∅ entries.

Definition Map_entries (m : gmap string string) : list (string * string) :=
  map_to_list m.

Section Models.

Variable rt : Runtime.

(** [summaryToStorable(summary, threadId?, messageId?)]: the two optional
    fields are set only when the argument is not [undefined]. *)
Definition summaryToStorable (summary : Summary)
    (threadId messageId : option string) : StoredSummary :=
  let result :=
    {| ss_id := s_id summary;
       ss_generatedAt := toISOString rt (generatedAt summary);
       ss_emailMappings :=
         Object_fromEntries (Map_entries (emailMappings summary));
       ss_threadId := None;
       ss_messageId := None |} in
  let result :=
    match threadId with
    | Some t =>
        {| ss_id := ss_id result;
           ss_generatedAt := ss_generatedAt result;
           ss_emailMappings := ss_emailMappings result;
           ss_threadId := Some t;
           ss_messageId := ss_messageId result |}
    | None => result
    end in
  match messageId with
  | Some m =>
      {| ss_id := ss_id result;
         ss_generatedAt := ss_generatedAt result;
         ss_emailMappings := ss_emailMappings result;
         ss_threadId := ss_threadId result;
         ss_messageId := Some m |}
  | None => result
  end.

End Models.

(** [loadStoredSummary(stored)]. *)
Definition loadStoredSummary (stored : StoredSummary) : LoadedSummary :=
  let result :=
    {| ls_emailMappings := Map_new (Object_entries (ss_emailMappings stored));
       ls_threadId := None;
       ls_messageId := None |} in
  let result :=
    match ss_threadId stored with
    | Some t =>
        {| ls_emailMappings := ls_emailMappings result;
           ls_threadId := Some t;
           ls_messageId := ls_messageId result |}
    | None => result
    end in
  match ss_messageId stored with
  | Some m =>
      {| ls_emailMappings := ls_emailMappings result;
         ls_threadId := ls_threadId result;
         ls_messageId := Some m |}
  | None => result
  end.

(** ** The agent *)

(** The options of [ClaudeClient.complete]. *)
Record CompleteOptions : Type := mkCompleteOptions {
  maxTokens : option nat;
  temperature : option Tenths
}.

(** The value [CommandParser.parseCommands] returns. *)
Record ParsedCommands : Type := mkParsedCommands {
  commands : list Command;
  unrecognized : list string
}.

(** [const SYSTEM_PROMPT] of [CommandParser.ts]. *)
Definition CommandParser_SYSTEM_PROMPT : string :=
  "You are a command parser for an email assistant.
Your job is to extract structured commands from natural language user input.

Available commands:
- reply: Reply to an email. Requires target reference and reply content.
- forward: Forward an email. Requires target reference, recipient email, and optional note.
- archive: Archive an email. Requires target reference.
- delete: Delete an email. Requires target reference.
- mark_read: Mark email as read. Requires target reference.
- mark_unread: Mark email as unread. Requires target reference.
- star: Star an email. Requires target reference.
- unstar: Remove star from email. Requires target reference.
- label: Add a label to an email. Requires target reference and label name.

Email references use the format EMAIL-XXX (e.g., EMAIL-001, EMAIL-015).

Parse the user's input and extract all valid commands. If something cannot be parsed as a command, add it to the " +:+
  Js.quoted "unrecognized" +:+ " array.

Always respond with valid JSON.".

(** [const SYSTEM_PROMPT] of [EmailSummarizer.ts]. *)
Definition EmailSummarizer_SYSTEM_PROMPT : string :=
  "You are an intelligent email assistant helping a busy professional manage their inbox efficiently.
Your task is to analyze emails and provide actionable summaries.

Guidelines:
- Be concise but informative
- Prioritize emails requiring immediate action
- Identify key deadlines and meetings
- Group related emails when relevant
- Ignore obvious spam or promotional emails unless specifically relevant
- For action items, provide clear, specific suggested actions

Always respond with valid JSON matching the specified format.".

(** *** [parseJson]: the text handed to [JSON.parse] *)

Definition fence : string := "```".

(** After an opening fence: an optional [json], white space, and the text
    up to the next fence. The optional parts are greedy, and giving one of
    them up never uncovers a closing fence (no character of [json] or of
    white space starts one), so the first attempt decides. *)
Definition fence_capture (rest : string) : option string :=
  let rest := if String.prefix "json" rest then Js.drop 4 rest else rest in
  Js.before_first fence (Js.trimStart rest).

(** Capture group 1 of the leftmost match of
    [/```(?:json)?\s*([\s\S]*?)```/] in [s]. *)
Fixpoint fenced (s : string) : option string :=
  match s with
  | "" => None
  | String _ s' =>
      match
        (if String.prefix fence s then fence_capture (Js.drop 3 s) else None)
      with
      | Some captured => Some captured
      | None => fenced s'
      end
  end.

(** [jsonMatch[1]?.trim() || response.trim()], where [jsonMatch] is the
    match or [[null, response]]. *)
Definition jsonStr_of (response : string) : string :=
  let group1 := default response (fenced response) in
  let trimmed := Js.trim group1 in
  if String.eqb trimmed "" then Js.trim response else trimmed.

(** *** [CommandParser.transformCommands] *)

(** The callback of [parsed.map]: one parsed command to a typed one, or the
    [Error] it throws. *)
Definition transformCommand (p : ParsedCommand) : Thrown + Command :=
  let base := p_targetRef p in
  let cmd k := inr (mkCommand base None k) in
  if String.eqb (p_type p) "reply" then
    cmd (Reply (Js.or_else (p_content p) ""))
  else if String.eqb (p_type p) "forward" then
    cmd (Forward (Js.or_else (p_forwardTo p) "") (p_note p))
  else if String.eqb (p_type p) "archive" then cmd Archive
  else if String.eqb (p_type p) "delete" then cmd Delete
  else if String.eqb (p_type p) "mark_read" then cmd MarkRead
  else if String.eqb (p_type p) "mark_unread" then cmd MarkUnread
  else if String.eqb (p_type p) "star" then cmd Star
  else if String.eqb (p_type p) "unstar" then cmd Unstar
  else if String.eqb (p_type p) "label" then
    cmd (Label (Js.or_else (p_labelName p) ""))
  else inl (JsError ("Unknown command type: " +:+ p_type p)).

(** [Array.prototype.map] with a callback that may throw: the elements are
    mapped from left to right and the first throw ends the call. *)
Fixpoint map_throwing {A B : Type} (f : A -> Thrown + B) (l : list A)
  : Thrown + list B :=
  match l with
  | [] => inr []
  | x :: l' =>
      match f x with
      | inl e => inl e
      | inr y =>
          match map_throwing f l' with
          | inl e => inl e
          | inr ys => inr (y :: ys)
          end
      end
  end.

Definition transformCommands (parsed : list ParsedCommand)
  : Thrown + list Command :=
  map_throwing transformCommand parsed.

(** *** [GmailClient.parseMessage] and the reply subject *)

Definition parseMessage (message : MessageData) (index : nat) : Email :=
  let labels := default [] (md_labelIds message) in
  {| id := Js.or_else (md_id message) "";
     threadId := Js.or_else (md_threadId message) "";
     referenceId := generateReferenceId index;
     from := md_from message;
     to := md_to message;
     cc := if (0 <? length (md_cc message))%nat then Some (md_cc message)
           else None;
     subject := md_subject message;
     snippet := Js.or_else (md_snippet message) "";
     body := md_body message;
     date := md_date message;
     labels := labels;
     attachments := md_attachments message;
     isUnread := bool_decide ("UNREAD" ∈ labels) |}.

(** The subject line [GmailClient.replyToEmail] writes:
    [subject.startsWith('Re:') ? subject : `Re: ${subject}`]. *)
Definition replyToEmail_subject (subject : string) : string :=
  if Js.startsWith "Re:" subject then subject else "Re: " +:+ subject.

(** *** [EmailSummarizer.createSummary] *)

(** [Math.min(...values)] as a date: the least value, and the invalid date
    ([Infinity]) for no value. *)
Definition Math_min (values : list Z) : JsDate :=
  match values with
  | [] => InvalidDate
  | v :: values' => ValidDate (foldl Z.min v values')
  end.

(** [emails.find((e) => e.referenceId === ref)]. *)
Definition find_email (emails : list Email) (ref : string) : option Email :=
  List.find (fun e => String.eqb (referenceId e) ref) emails.

(** [createSummary(emails, response)], with the two values it draws from
    outside, [uuidv4()] and [new Date()], as arguments. *)
Definition createSummary (emails : list Email) (response : SummaryResponse)
    (uuid : string) (now : Z) : Summary :=
  let emailMappings :=
    foldl (fun m email => <[referenceId email := id email]> m)
      (∅ : gmap string string) emails in
  let actionItems :=
    List.map
      (fun item =>
         let email := find_email emails (ra_referenceId item) in
         {| ai_referenceId := ra_referenceId item;
            ai_priority := ra_priority item;
            ai_description := ra_description item;
            ai_suggestedAction := ra_suggestedAction item;
            ai_fromEmail := Js.or_else ((fun e => address (from e)) <$> email) "";
            ai_subject := Js.or_else (subject <$> email) "" |})
      (sr_actionItems response) in
  let informational :=
    List.map
      (fun item =>
         let email := find_email emails (ri_referenceId item) in
         {| ii_referenceId := ri_referenceId item;
            ii_description := ri_description item;
            ii_fromEmail := Js.or_else ((fun e => address (from e)) <$> email) "" |})
      (sr_informational response) in
  let unreadCount := length (List.filter isUnread emails) in
  {| s_id := uuid;
     generatedAt := now;
     periodStart := Math_min (List.map date emails);
     periodEnd := now;
     totalEmails := length emails;
     unreadCount := unreadCount;
     executiveSummary := sr_executiveSummary response;
     actionItems := actionItems;
     informational := informational;
     emailMappings := emailMappings |}.

(** [createEmptySummary()]. *)
Definition createEmptySummary (uuid : string) (now : Z) : Summary :=
  {| s_id := uuid;
     generatedAt := now;
     periodStart := ValidDate now;
     periodEnd := now;
     totalEmails := 0;
     unreadCount := 0;
     executiveSummary := "No new emails to summarize.";
     actionItems := [];
     informational := [];
     emailMappings := ∅ |}.

(** [commands.map((cmd) => ({ ...cmd, targetGmailId: emailMappings.get(cmd.targetRef) }))]. *)
Definition resolve (emailMappings : gmap string string) (cmd : Command)
  : Command :=
  {| targetRef := targetRef cmd;
     targetGmailId := emailMappings !! targetRef cmd;
     kind := kind cmd |}.

Section Agent.

Variable rt : Runtime.
Variable world : Oracle.
Variable config : Config.

Local Open Scope M_scope.

(** An external call: the world answers from the calls made so far, and
    the call is recorded. *)
Definition call {A : Type} (c : Api.Call A) : M A :=
  fun w => (respond world A w c, (w ++ [Called c])%list).

(** *** [src/services/ai/ClaudeClient.ts] *)

(** [response.content.find((block) => block.type === 'text')]. *)
Definition find_text (content : list ContentBlock) : option string :=
  match List.find (fun b => match b with TextBlock _ => true | _ => false end)
          content with
  | Some (TextBlock text) => Some text
  | _ => None
  end.

Definition complete (prompt : string) (options : option CompleteOptions)
  : M string :=
  let maxTokens := default 4096%nat (options ≫= maxTokens) in
  let temperature := default 7%nat (options ≫= temperature) in
  try_catch
    (response <-
       call (Api.messages_create (anthropic_model config) maxTokens
               temperature prompt);;
     match find_text response with
     | Some text => ret text
     | None => throw (JsError "No text content in Claude response")
     end)
    (fun error => throw error).

(** [parseJson<T>(prompt, options)], with [JSON.parse ... as T] as its
    first argument. *)
Definition parseJson {T : Type} (JSON_parse : string -> option T)
    (prompt : string) (options_maxTokens : option nat) : M T :=
  response <-
    complete prompt (Some (mkCompleteOptions options_maxTokens (Some 3%nat)));;
  let jsonStr := jsonStr_of response in
  match JSON_parse jsonStr with
  | Some value => ret value
  | None => throw (JsError "Failed to parse JSON from Claude response")
  end.

(** *** [src/services/ai/CommandParser.ts] *)

Definition buildParsePrompt (userInput : string)
    (summaryContext : option string) : string :=
  let prompt :=
    CommandParser_SYSTEM_PROMPT +:+ "

User input to parse:
" +:+ Js.quoted "" +:+ Js.dq +:+ "
" +:+ userInput +:+ "
" +:+ Js.quoted "" +:+ Js.dq +:+ "
" in
  let prompt :=
    match summaryContext with
    | Some summaryContext =>
        if String.eqb summaryContext "" then prompt
        else
          prompt +:+
          "
Context from the summary email (for reference):
" +:+ summaryContext +:+ "
"
    | None => prompt
    end in
  prompt +:+
    "
Respond with JSON in this exact format:
{
  " +:+ Js.quoted "commands" +:+ ": [
    {
      " +:+ Js.quoted "type" +:+ ": " +:+ Js.quoted "reply" +:+ ",
      " +:+ Js.quoted "targetRef" +:+ ": " +:+ Js.quoted "EMAIL-001" +:+ ",
      " +:+ Js.quoted "content" +:+ ": " +:+
    Js.quoted "The reply message content" +:+ "
    },
    {
      " +:+ Js.quoted "type" +:+ ": " +:+ Js.quoted "forward" +:+ ",
      " +:+ Js.quoted "targetRef" +:+ ": " +:+ Js.quoted "EMAIL-002" +:+ ",
      " +:+ Js.quoted "forwardTo" +:+ ": " +:+
    Js.quoted "recipient@example.com" +:+ ",
      " +:+ Js.quoted "note" +:+ ": " +:+ Js.quoted "Optional note to include" +:+
    "
    },
    {
      " +:+ Js.quoted "type" +:+ ": " +:+ Js.quoted "archive" +:+ ",
      " +:+ Js.quoted "targetRef" +:+ ": " +:+ Js.quoted "EMAIL-003" +:+ "
    },
    {
      " +:+ Js.quoted "type" +:+ ": " +:+ Js.quoted "label" +:+ ",
      " +:+ Js.quoted "targetRef" +:+ ": " +:+ Js.quoted "EMAIL-004" +:+ ",
      " +:+ Js.quoted "labelName" +:+ ": " +:+ Js.quoted "Important" +:+ "
    }
  ],
  " +:+ Js.quoted "unrecognized" +:+ ": [
    " +:+ Js.quoted "Any text that couldn't be parsed as a command" +:+ "
  ]
}".

Definition parseCommands (userInput : string)
    (summaryContext : option string) : M ParsedCommands :=
  let prompt := buildParsePrompt userInput summaryContext in
  response <- parseJson (JSON_parse_ParseResponse rt) prompt None;;
  commands <- lift (transformCommands (pr_commands response));;
  ret {| commands := commands; unrecognized := pr_unrecognized response |}.

(** *** [src/services/gmail/GmailClient.ts] *)

Definition getEmail (messageId : string) (index : nat) : M Email :=
  response <- call (Api.messages_get messageId);;
  ret (parseMessage response index).

(** The loop of [listRecentEmails] and [listUnreadEmails]:
    [for (let i = 0; i < messages.length; i++)], entered at position [i]
    with the emails pushed so far. *)
Fixpoint fetchEmails (messages : list MessageStub) (i : nat)
    (emails : list Email) : M (list Email) :=
  match messages with
  | [] => ret emails
  | msg :: messages' =>
      if Js.truthy (stub_id msg) then
        email <- getEmail (default "" (stub_id msg)) i;;
        fetchEmails messages' (S i) (emails ++ [email])%list
      else fetchEmails messages' (S i) emails
  end.

Definition listRecentEmails (hoursBack : nat) : M (list Email) :=
  let query := "newer_than:" +:+ pretty hoursBack +:+ "h" in
  response <-
    call (Api.messages_list query (maxEmailsPerRun (agent config)));;
  let messages := default [] response in
  fetchEmails messages 0 [].

Definition listUnreadEmails : M (list Email) :=
  response <-
    call (Api.messages_list "is:unread" (maxEmailsPerRun (agent config)));;
  let messages := default [] response in
  fetchEmails messages 0 [].

(** [Math.floor(afterDate.getTime() / 1000)] inside the query. *)
Definition epoch_seconds (afterDate : JsDate) : string :=
  match afterDate with
  | ValidDate ms => pretty (ms `div` 1000)%Z
  | InvalidDate => "NaN"
  end.

Definition searchReplies (subject : string) (afterDate : JsDate)
  : M (list MessageStub) :=
  let query :=
    "in:sent subject:" +:+ Js.dq +:+ "Re: " +:+ subject +:+ Js.dq +:+
    " after:" +:+ epoch_seconds afterDate in
  response <- call (Api.messages_list query 10);;
  ret (default [] response).

(** *** [src/services/ai/EmailSummarizer.ts] *)

Definition buildSummaryPrompt (emails : list Email) : string :=
  let emailList :=
    String.concat (String (ascii_of_nat 10) "")
      (List.map
         (fun email =>
            let body := String.substring 0 1000 (plain (body email)) in
            let fromLine :=
              if String.eqb (name (from email)) "" then address (from email)
              else name (from email) +:+ " <" +:+ address (from email) +:+ ">" in
            let excerpt :=
              if String.eqb body "" then ""
              else
                "Body excerpt:
" +:+ body +:+ (if (1000 <=? String.length body)%nat then "..." else "") in
            "
[" +:+ referenceId email +:+ "]
From: " +:+ fromLine +:+ "
Subject: " +:+ subject email +:+ "
Date: " +:+ toISOString rt (date email) +:+ "
Preview: " +:+ snippet email +:+ "
" +:+ excerpt +:+ "
---")
         emails) in
  EmailSummarizer_SYSTEM_PROMPT +:+ "

Analyze these " +:+ pretty (length emails) +:+
  " emails and provide a structured summary.

For each email that requires action, create an action item with:
- referenceId: The email's ID (e.g., EMAIL-001)
- priority: " +:+ Js.quoted "high" +:+ " (urgent/deadline), " +:+
  Js.quoted "medium" +:+ " (important but not urgent), or " +:+
  Js.quoted "low" +:+ " (can wait)
- description: Brief description of what the email is about
- suggestedAction: Specific action the user should take

For informational emails (newsletters, notifications, etc.), create an informational item with:
- referenceId: The email's ID
- description: Brief description of the content

Emails to analyze:
" +:+ emailList +:+ "

Respond with JSON in this exact format:
{
  " +:+ Js.quoted "executiveSummary" +:+ ": " +:+
  Js.quoted "A 2-3 sentence overview of the inbox state and most important items" +:+
  ",
  " +:+ Js.quoted "actionItems" +:+ ": [
    {
      " +:+ Js.quoted "referenceId" +:+ ": " +:+ Js.quoted "EMAIL-001" +:+ ",
      " +:+ Js.quoted "priority" +:+ ": " +:+ Js.quoted "high" +:+ ",
      " +:+ Js.quoted "description" +:+ ": " +:+
  Js.quoted "Meeting request from John" +:+ ",
      " +:+ Js.quoted "suggestedAction" +:+ ": " +:+
  Js.quoted "Confirm attendance for tomorrow at 2pm" +:+ "
    }
  ],
  " +:+ Js.quoted "informational" +:+ ": [
    {
      " +:+ Js.quoted "referenceId" +:+ ": " +:+ Js.quoted "EMAIL-005" +:+ ",
      " +:+ Js.quoted "description" +:+ ": " +:+
  Js.quoted "Weekly newsletter from Tech News" +:+ "
    }
  ]
}".

Definition summarize (emails : list Email) : M Summary :=
  if (length emails =? 0)%nat then
    now <- call Api.Date_now;;
    uuid <- call Api.uuidv4;;
    ret (createEmptySummary uuid now)
  else
    let prompt := buildSummaryPrompt emails in
    response <- parseJson (JSON_parse_SummaryResponse rt) prompt None;;
    now <- call Api.Date_now;;
    uuid <- call Api.uuidv4;;
    ret (createSummary emails response uuid now).

(** *** [src/handlers/SummaryHandler.ts] *)

(** [loadLatestSummary()]: the greatest [*.json] name of the summary
    directory is read and parsed; [null] when there is none and on any
    failure (the [SyntaxError] of [JSON.parse] is caught with the rest,
    so a text that does not parse gives [null] as well). *)
Definition loadLatestSummary : M (option StoredSummary) :=
  let summaryDir := paths_summaryStorage config in
  try_catch
    (files <- call (Api.fs_readdir summaryDir);;
     let jsonFiles :=
       reverse (Js.sort (List.filter (Js.endsWith ".json") files)) in
     match jsonFiles with
     | [] => ret None
     | first :: _ =>
         let latestFile := path_join rt summaryDir first in
         content <- call (Api.fs_readFile latestFile);;
         ret (JSON_parse_StoredSummary rt content)
     end)
    (fun _ => ret None).

(** *** [src/handlers/CommandHandler.ts] *)

(** The [switch] of [executeCommand]: the mailbox calls of one command. *)
Definition perform (command : Command) (gmailId : string) : M unit :=
  match kind command with
  | Reply content =>
      original <- getEmail gmailId 0;;
      _ <- call (Api.replyToEmail gmailId (threadId original)
                   (address (from original)) (subject original)
                   ("<p>" +:+ Js.replace_newlines "<br/>" content +:+ "</p>"));;
      ret tt
  | Forward forwardTo note =>
      original <- getEmail gmailId 0;;
      let forwardBody :=
        "
            <p>" +:+ Js.or_else note "Forwarded message:" +:+ "</p>
            <hr/>
            <p><strong>From:</strong> " +:+ address (from original) +:+ "<br/>
            <strong>Subject:</strong> " +:+ subject original +:+ "<br/>
            <strong>Date:</strong> " +:+ toISOString rt (date original) +:+
        "</p>
            <div>" +:+
        Js.or_else (html (body original)) (plain (body original)) +:+
        "</div>
          " in
      _ <- call (Api.sendEmail forwardTo ("Fwd: " +:+ subject original)
                   forwardBody None);;
      ret tt
  | Archive => call (Api.archiveEmail gmailId)
  | Delete => call (Api.deleteEmail gmailId)
  | MarkRead => call (Api.markAsRead gmailId)
  | MarkUnread => call (Api.markAsUnread gmailId)
  | Star => call (Api.starEmail gmailId)
  | Unstar => call (Api.unstarEmail gmailId)
  | Label labelName => call (Api.addLabel gmailId labelName)
  end.

Definition executeCommand (command : Command) : M CommandResult :=
  let gmailId := targetGmailId command in
  if negb (Js.truthy gmailId) then
    ret {| command := command;
           success := false;
           error := Some ("Could not resolve " +:+ targetRef command +:+
                          " to a Gmail message ID");
           details := None |}
  else if dryRun (agent config) then
    ret {| command := command;
           success := true;
           error := None;
           details := Some "Dry run - no action taken" |}
  else
    try_catch
      (perform command (default "" gmailId);;;
       ret {| command := command; success := true;
              error := None; details := None |})
      (fun error =>
         let errorMessage :=
           match error with
           | JsError message => message
           | JsNonError => "Unknown error"
           end in
         ret {| command := command;
                success := false;
                error := Some errorMessage;
                details := None |}).

Definition executeCommands (commands : list Command)
  : M (list CommandResult) :=
  foldM
    (fun results command =>
       result <- executeCommand command;;
       ret (results ++ [result])%list)
    [] commands.

Definition sendConfirmationEmail (results : list CommandResult) : M unit :=
  let successful := List.filter success results in
  let failed := List.filter (fun r => negb (success r)) results in
  let successHtml :=
    if (0 <? length successful)%nat then
      String.concat ""
        (List.map
           (fun r =>
              "<li>✅ " +:+ commandTypeToLabel (command r) +:+ " " +:+
              targetRef (command r) +:+ "</li>")
           successful)
    else "<li>No successful actions</li>" in
  let failedHtml :=
    if (0 <? length failed)%nat then
      String.concat ""
        (List.map
           (fun r =>
              "<li>❌ " +:+ commandTypeToLabel (command r) +:+ " " +:+
              targetRef (command r) +:+ ": " +:+ Js.show_optional (error r) +:+
              "</li>")
           failed)
    else "" in
  now1 <- call Api.Date_now;;
  let failedSection :=
    if (0 <? length failed)%nat then
      "
  <h2 style=" +:+ Js.quoted "color: #dc3545;" +:+ ">Failed Actions (" +:+
      pretty (length failed) +:+ ")</h2>
  <ul>" +:+ failedHtml +:+ "</ul>
  "
    else "" in
  let htmlBody :=
    "
<!DOCTYPE html>
<html>
<head>
  <meta charset=" +:+ Js.quoted "utf-8" +:+ ">
</head>
<body style=" +:+
    Js.quoted "font-family: -apple-system, BlinkMacSystemFont, 'Segoe UI', Roboto, sans-serif; max-width: 600px; margin: 0 auto; padding: 20px;" +:+
    ">

  <h1 style=" +:+ Js.quoted "color: #333;" +:+
    ">✅ Agent Actions Completed</h1>

  <p style=" +:+ Js.quoted "color: #666;" +:+ ">" +:+ formatDate rt now1 +:+
    "</p>

  <h2 style=" +:+ Js.quoted "color: #28a745;" +:+ ">Completed Actions (" +:+
    pretty (length successful) +:+ ")</h2>
  <ul>" +:+ successHtml +:+ "</ul>

  " +:+ failedSection +:+ "

  <p style=" +:+ Js.quoted "font-size: 12px; color: #999; margin-top: 30px;" +:+
    ">
    Generated by Email Agent
  </p>

</body>
</html>" in
  now2 <- call Api.Date_now;;
  _ <- call (Api.sendEmail (user_email config)
               ("Agent Actions Completed - " +:+ formatDate rt now2)
               htmlBody None);;
  ret tt.

(** The body of [for (const reply of replies)], from the results
    gathered so far to the results after this reply. *)
Definition processReply (emailMappings : gmap string string)
    (allResults : list CommandResult) (reply : MessageStub)
  : M (list CommandResult) :=
  if negb (Js.truthy (stub_id reply)) then ret allResults
  else
    content <- call (Api.getMessageContent (default "" (stub_id reply)));;
    if String.eqb (Js.trim content) "" then ret allResults
    else
      parsed <- parseCommands content None;;
      let resolvedCommands :=
        List.map (resolve emailMappings) (commands parsed) in
      results <- executeCommands resolvedCommands;;
      ret (allResults ++ results)%list.

Definition processReplies (emailMappings : gmap string string)
    (replies : list MessageStub) : M (list CommandResult) :=
  foldM (processReply emailMappings) [] replies.

Definition processReplyCommands : M (list CommandResult) :=
  storedSummary <- loadLatestSummary;;
  match storedSummary with
  | None => ret []
  | Some storedSummary =>
      let emailMappings :=
        ls_emailMappings (loadStoredSummary storedSummary) in
      let summaryDate := Date_parse rt (ss_generatedAt storedSummary) in
      replies <- searchReplies "Daily Email Summary" summaryDate;;
      if (length replies =? 0)%nat then ret []
      else
        allResults <- processReplies emailMappings replies;;
        if (0 <? length allResults)%nat && negb (dryRun (agent config)) then
          sendConfirmationEmail allResults;;;
          ret allResults
        else ret allResults
  end.

End Agent.

(** ** [GmailClient.extractBody] and [extractAttachments]

    The payload of a message is a tree of MIME parts
    ([gmail_v1.Schema$MessagePart]); every field the code reads is
    optional. *)

Record MessagePartBody : Type := mkMessagePartBody {
  attachmentId : option string;
  data : option string;
  body_size : option nat
}.

#[local] Unset Elimination Schemes.

Inductive MessagePart : Type :=
  | mkMessagePart (part_mimeType : option string)
      (part_filename : option string) (part_body : option MessagePartBody)
      (part_parts : option (list MessagePart)).

#[local] Set Elimination Schemes.

Definition part_mimeType (part : MessagePart) : option string :=
  match part with mkMessagePart mimeType _ _ _ => mimeType end.

Definition part_filename (part : MessagePart) : option string :=
  match part with mkMessagePart _ filename _ _ => filename end.

Definition part_body (part : MessagePart) : option MessagePartBody :=
  match part with mkMessagePart _ _ body _ => body end.

Definition part_parts (part : MessagePart) : option (list MessagePart) :=
  match part with mkMessagePart _ _ _ parts => parts end.

(** [for (const x of l) { acc = step(x, acc) }], for the loops over the
    sub-parts. *)
Definition for_of {A S : Type} (step : A -> S -> S) (l : list A) (acc : S)
  : S :=
  List.fold_left (fun acc x => step x acc) l acc.

Module ExtractBody.

Section Decode.

(** [Buffer.from(data, 'base64').toString('utf-8')]. *)
Variable decode : string -> string.

(** The two variables the closure assigns, [plain] and [html]. *)
Definition State : Type := (string * option string)%type.

(** [extractFromPart(part)], as a function of the two variables. *)
Fixpoint extractFromPart (part : MessagePart) (st : State) : State :=
  match part with
  | mkMessagePart mimeType _ body parts =>
      let st :=
        if bool_decide (mimeType = Some "text/plain")
           && Js.truthy (body ≫= data)
        then (decode (default "" (body ≫= data)), st.2)
        else if bool_decide (mimeType = Some "text/html")
                && Js.truthy (body ≫= data)
        then (st.1, Some (decode (default "" (body ≫= data))))
        else st in
      match parts with
      | Some subParts => for_of extractFromPart subParts st
      | None => st
      end
  end.

Definition extractBody (payload : option MessagePart) : EmailBody :=
  let st : State := ("", None) in
  let st :=
    match payload with
    | Some payload =>
        let st :=
          if Js.truthy (part_body payload ≫= data) then
            let decoded :=
              decode (default "" (part_body payload ≫= data)) in
            if bool_decide (part_mimeType payload = Some "text/html")
            then (st.1, Some decoded)
            else (decoded, st.2)
          else st in
        match part_parts payload with
        | Some parts => for_of extractFromPart parts st
        | None => st
        end
    | None => st
    end in
  {| plain := st.1; html := st.2 |}.

End Decode.

End ExtractBody.

Module ExtractAttachments.

(** [extractFromPart(part)], as a function of the array it pushes
    to. *)
Fixpoint extractFromPart (part : MessagePart)
    (attachments : list Attachment) : list Attachment :=
  match part with
  | mkMessagePart mimeType filename body parts =>
      let attachments :=
        if Js.truthy filename && Js.truthy (body ≫= attachmentId) then
          attachments ++
          [{| filename := default "" filename;
              mimeType := Js.or_else mimeType "application/octet-stream";
              size_ := default 0 (body ≫= body_size) |}]
        else attachments in
      match parts with
      | Some subParts => for_of extractFromPart subParts attachments
      | None => attachments
      end
  end.

Definition extractAttachments (payload : option MessagePart)
  : list Attachment :=
  let attachments := [] in
  match payload ≫= part_parts with
  | Some parts => for_of extractFromPart parts attachments
  | None => attachments
  end.

End ExtractAttachments.

(** ** [src/models/Email.ts]: addresses *)

(** [formatEmailAddress(addr)]. *)
Definition formatEmailAddress (addr : EmailAddress) : string :=
  if negb (String.eqb (name addr) "") then
    name addr +:+ " <" +:+ address addr +:+ ">"
  else address addr.

(** Greedy matching with backtracking, in continuation style: a matcher
    hands the rest of the input to its continuation and, when the
    continuation fails, goes on to its next alternative. *)
Module Regex.

Section Matchers.

Context {T : Type}.

(** [c?]: with the character first, then without it. *)
Definition opt (c : ascii) (k : string -> option T) (s : string)
  : option T :=
  match s with
  | String c' s' =>
      if Ascii.eqb c' c then
        match k s' with
        | Some r => Some r
        | None => k s
        end
      else k s
  | "" => k s
  end.

(** A captured run of characters of a class, as long as possible: the
    longest run first, then the shorter ones; the continuation gets
    the text consumed and the rest. *)
Fixpoint star (class : ascii -> bool)
    (k : string -> string -> option T) (consumed s : string)
  : option T :=
  match s with
  | String c s' =>
      if class c then
        match star class k (consumed +:+ String c "") s' with
        | Some r => Some r
        | None => k consumed s
        end
      else k consumed s
  | "" => k consumed s
  end.

End Matchers.

End Regex.

(** The second half of the pattern: an optional [<], a run of one or
    more characters other than [>] (capture group 2), an optional [>],
    and the end of the input. *)
Definition address_tail (s : string) : option string :=
  Regex.opt "<"
    (Regex.star (fun c => negb (Ascii.eqb c ">"))
       (fun captured rest =>
          if String.eqb captured "" then None
          else
            Regex.opt ">"
              (fun rest => if String.eqb rest "" then Some captured else None)
              rest)
       "")
    s.

(** The match of the pattern of [parseEmailAddress] on [raw]. The pattern
    is anchored at both ends. It opens with an optional group: an optional
    double quote, a run of characters other than a double quote (capture
    group 1), an optional double quote, and one white space character;
    the second half follows. The result holds the capture groups 1 and 2,
    group 1 being [undefined] when the optional group took no part. *)
Definition address_match (raw : string) : option (option string * string) :=
  match
    Regex.opt (ascii_of_nat 34)
      (Regex.star (fun c => negb (Ascii.eqb c (ascii_of_nat 34)))
         (fun captured rest =>
            Regex.opt (ascii_of_nat 34)
              (fun rest =>
                 match rest with
                 | String c rest' =>
                     if Ascii.is_space c then
                       pair (Some captured) <$> address_tail rest'
                     else None
                 | "" => None
                 end)
              rest)
         "")
      raw
  with
  | Some m => Some m
  | None => pair None <$> address_tail raw
  end.

(** [parseEmailAddress(raw)]. *)
Definition parseEmailAddress (raw : string) : EmailAddress :=
  match address_match raw with
  | Some (group1, group2) =>
      {| name := Js.or_else (Js.trim <$> group1) "";
         address := Js.or_else (Some (Js.trim group2)) raw |}
  | None => {| name := ""; address := raw |}
  end.

(** [s.split(sep)] for a separator of one character: the pieces between
    the separators, [[""]] for the empty string. *)
Fixpoint String_split_from (sep : ascii) (piece s : string) : list string :=
  match s with
  | "" => [piece]
  | String c s' =>
      if Ascii.eqb c sep then piece :: String_split_from sep "" s'
      else String_split_from sep (piece +:+ String c "") s'
  end.

Definition String_split (sep : ascii) (s : string) : list string :=
  String_split_from sep "" s.

(** The address lists of [parseMessage]:
    [raw.split(',').map((addr) => parseEmailAddress(addr.trim()))
        .filter((addr) => addr.address)]
    for [To], and the same for a [Cc] header that is not empty. *)
Definition parseMessage_to (toRaw : string) : list EmailAddress :=
  List.filter (fun addr => negb (String.eqb (address addr) ""))
    (List.map (fun addr => parseEmailAddress (Js.trim addr))
       (String_split "," toRaw)).

Definition parseMessage_cc (ccRaw : string) : list EmailAddress :=
  if negb (String.eqb ccRaw "") then parseMessage_to ccRaw else [].

(** ** The rest of a run: the summary email, its storage, the tokens

    Besides the calls of [Api], the code modelled from here on writes to
    the file system and to the console, talks to the OAuth client and
    manages the labels of the mailbox. *)

(** [Credentials] of google-auth-library: every field may be missing. *)
Record Credentials : Type := mkCredentials {
  access_token : option string;
  refresh_token : option string;
  expiry_date : option Z;
  token_type : option string;
  scope : option string
}.

(** [interface StoredTokens] of [GmailAuth.ts]. *)
Record StoredTokens : Type := mkStoredTokens {
  st_access_token : string;
  st_refresh_token : string;
  st_expiry_date : Z;
  st_token_type : string;
  st_scope : string
}.

(** [gmail_v1.Schema$Label], the two fields [addLabel] reads. *)
Record LabelData : Type := mkLabelData {
  label_id : option string;
  label_name : option string
}.

Module Host.

Inductive Call : Type -> Type :=
  (* fs/promises: mkdir(path, { recursive: true }), writeFile(path, data) *)
  | fs_mkdir (path : string) : Call unit
  | fs_writeFile (path data : string) : Call unit
  (* console.log *)
  | console_log (text : string) : Call unit
  (* OAuth2Client: setCredentials, refreshAccessToken, getToken *)
  | setCredentials (tokens : Credentials) : Call unit
  | oauth_refreshAccessToken : Call Credentials
  | oauth_getToken (code : string) : Call Credentials
  (* Gmail REST: users.labels.list, users.labels.create,
     users.messages.modify *)
  | labels_list : Call (option (list LabelData))
  | labels_create (name : string) : Call LabelData
  | messages_modify (id : string) (addLabelIds removeLabelIds : list string)
      : Call unit.

(** A call of the host that was made. *)
Inductive Event : Type :=
  | Did {A : Type} (c : Call A).

(** The host answers a call knowing the calls made before it, those of
    [Api] and its own. *)
Record Oracle : Type := mkOracle {
  respond : forall A : Type, Trace -> list Event -> Call A -> Thrown + A
}.

End Host.

(** Further functions of the runtime that are pure: of date-fns, of
    [path], [JSON.stringify] at the two types it is used at, and
    [JSON.parse] of the token file, whose result is read field by field
    without any check ([None] is a [SyntaxError], or a value whose fields
    cannot be read). *)
Record HostRuntime : Type := mkHostRuntime {
  formatDateShort : Z -> string;
  path_dirname : string -> string;
  JSON_stringify_StoredSummary : StoredSummary -> string;
  JSON_stringify_StoredTokens : StoredTokens -> string;
  JSON_parse_tokens : string -> option Credentials;
  toLowerCase : string -> string
}.

(** Computations over the two journals: the trace of the [Api] calls
    and the calls of the host. *)
Definition Journal : Type := (Trace * list Host.Event)%type.

Definition H (A : Type) : Type := Journal -> (Thrown + A) * Journal.

Definition hret {A : Type} (a : A) : H A := fun j => (inr a, j).

Definition hthrow {A : Type} (e : Thrown) : H A := fun j => (inl e, j).

Definition hbind {A B : Type} (m : H A) (k : A -> H B) : H B :=
  fun j =>
    match m j with
    | (inr a, j') => k a j'
    | (inl e, j') => (inl e, j')
    end.

Definition htry_catch {A : Type} (m : H A) (h : Thrown -> H A) : H A :=
  fun j =>
    match m j with
    | (inr a, j') => (inr a, j')
    | (inl e, j') => h e j'
    end.

(** A computation that only makes calls of [Api]. *)
Definition mail {A : Type} (m : M A) : H A :=
  fun j =>
    match m j.1 with
    | (r, w') => (r, (w', j.2))
    end.

Declare Scope H_scope.
Delimit Scope H_scope with H.
Notation "x <- c ;; k" := (hbind c (fun x => k))
  (at level 100, c at next level, right associativity) : H_scope.
Notation "c ;;; k" := (hbind c (fun _ => k))
  (at level 100, right associativity) : H_scope.

Definition toUpperCase_Priority (p : Priority) : string :=
  match p with
  | high => "HIGH"
  | medium => "MEDIUM"
  | low => "LOW"
  end.

Section Handlers.

Variable rt : Runtime.
Variable hrt : HostRuntime.
Variable world : Oracle.
Variable host : Host.Oracle.
Variable config : Config.

(** A call of the host: it is answered and recorded. *)
Definition host_call {A : Type} (c : Host.Call A) : H A :=
  fun j => (Host.respond host A j.1 j.2 c, (j.1, (j.2 ++ [Host.Did c])%list)).

(** *** [src/handlers/SummaryHandler.ts] *)

Definition formatSummaryEmailHtml (summary : Summary) : M string :=
  let actionItemsHtml :=
    if (0 <? length (actionItems summary))%nat then
      String.concat ""
        (List.map
           (fun item =>
              let priorityColor :=
                match ai_priority item with
                | high => "#dc3545"
                | medium => "#ffc107"
                | low => "#28a745"
                end in
              "
            <tr>
              <td style=" +:+
              Js.quoted "padding: 12px; border-bottom: 1px solid #eee;" +:+
              ">
                <strong style=" +:+ Js.dq +:+ "color: " +:+ priorityColor +:+
              ";" +:+ Js.dq +:+ ">[" +:+ ai_referenceId item +:+ "]</strong>
                <span style=" +:+
              Js.quoted "color: #666; font-size: 12px; margin-left: 8px;" +:+
              ">" +:+ toUpperCase_Priority (ai_priority item) +:+ "</span>
                <br/>
                <span style=" +:+ Js.quoted "color: #333;" +:+ ">" +:+
              ai_description item +:+ "</span>
                <br/>
                <span style=" +:+ Js.quoted "color: #666; font-size: 13px;" +:+
              ">From: " +:+ ai_fromEmail item +:+ "</span>
                <br/>
                <span style=" +:+ Js.quoted "color: #0066cc; font-size: 13px;" +:+
              ">→ " +:+ ai_suggestedAction item +:+ "</span>
              </td>
            </tr>")
           (actionItems summary))
    else
      "<tr><td style=" +:+ Js.dq +:+ "padding: 12px; color: #666;" +:+ Js.dq +:+ ">No action items</td></tr>" in
  let informationalHtml :=
    if (0 <? length (informational summary))%nat then
      String.concat ""
        (List.map
           (fun item =>
              "
            <li style=" +:+ Js.quoted "margin-bottom: 8px; color: #666;" +:+
              ">
              <strong>[" +:+ ii_referenceId item +:+ "]</strong> " +:+
              ii_description item +:+ "
              <br/>
              <span style=" +:+ Js.quoted "font-size: 12px;" +:+ ">From: " +:+
              ii_fromEmail item +:+ "</span>
            </li>")
           (informational summary))
    else
      "<li style=" +:+ Js.dq +:+ "color: #666;" +:+ Js.dq +:+ ">No informational emails</li>" in
  (now <- call world Api.Date_now;;
   ret (
     "
<!DOCTYPE html>
<html>
<head>
  <meta charset=" +:+ Js.quoted "utf-8" +:+ ">
  <meta name=" +:+ Js.quoted "viewport" +:+ " content=" +:+
     Js.quoted "width=device-width, initial-scale=1.0" +:+ ">
</head>
<body style=" +:+
     Js.quoted "font-family: -apple-system, BlinkMacSystemFont, 'Segoe UI', Roboto, sans-serif; max-width: 600px; margin: 0 auto; padding: 20px; color: #333;" +:+
     ">

  <h1 style=" +:+
     Js.quoted "color: #333; border-bottom: 2px solid #0066cc; padding-bottom: 10px;" +:+
     ">
    📧 Daily Email Summary
  </h1>

  <p style=" +:+ Js.quoted "font-size: 14px; color: #666;" +:+ ">
    " +:+ formatDate rt now +:+ " • " +:+ pretty (totalEmails summary) +:+
     " emails (" +:+ pretty (unreadCount summary) +:+ " unread)
  </p>

  <div style=" +:+
     Js.quoted "background: #f8f9fa; padding: 15px; border-radius: 8px; margin: 20px 0;" +:+
     ">
    <h3 style=" +:+ Js.quoted "margin-top: 0; color: #333;" +:+
     ">Executive Summary</h3>
    <p style=" +:+ Js.quoted "margin-bottom: 0; color: #555;" +:+ ">" +:+
     executiveSummary summary +:+ "</p>
  </div>

  <h2 style=" +:+ Js.quoted "color: #dc3545;" +:+ ">⚡ Action Required</h2>
  <table style=" +:+ Js.quoted "width: 100%; border-collapse: collapse;" +:+
     ">
    " +:+ actionItemsHtml +:+ "
  </table>

  <h2 style=" +:+ Js.quoted "color: #28a745; margin-top: 30px;" +:+
     ">📌 Informational</h2>
  <ul style=" +:+ Js.quoted "padding-left: 20px;" +:+ ">
    " +:+ informationalHtml +:+ "
  </ul>

  <div style=" +:+
     Js.quoted "background: #e7f3ff; padding: 20px; border-radius: 8px; margin-top: 30px;" +:+
     ">
    <h3 style=" +:+ Js.quoted "margin-top: 0; color: #0066cc;" +:+
     ">💡 How to Respond</h3>
    <p style=" +:+ Js.quoted "margin-bottom: 10px;" +:+
     ">Reply to this email with commands like:</p>
    <ul style=" +:+ Js.quoted "margin: 0; padding-left: 20px;" +:+ ">
      <li><code>Reply to EMAIL-001: I'll be available at 2pm tomorrow</code></li>
      <li><code>Archive EMAIL-003</code></li>
      <li><code>Forward EMAIL-002 to john@example.com</code></li>
      <li><code>Star EMAIL-004</code></li>
      <li><code>Mark EMAIL-005 as read</code></li>
    </ul>
  </div>

  <p style=" +:+
     Js.quoted "font-size: 12px; color: #999; margin-top: 30px; text-align: center;" +:+
     ">
    Generated by Email Agent • Summary ID: " +:+ s_id summary +:+ "
  </p>

</body>
</html>"))%M.

Definition formatSummaryEmailPlain (summary : Summary) : M string :=
  let actionItems :=
    if (0 <? length (actionItems summary))%nat then
      String.concat (String (ascii_of_nat 10) (String (ascii_of_nat 10) ""))
        (List.map
           (fun item =>
              "[" +:+ ai_referenceId item +:+ "] (" +:+
              toUpperCase_Priority (ai_priority item) +:+ ")
  " +:+ ai_description item +:+ "
  From: " +:+ ai_fromEmail item +:+ "
  → " +:+ ai_suggestedAction item)
           (actionItems summary))
    else "No action items" in
  let informational :=
    if (0 <? length (informational summary))%nat then
      String.concat (String (ascii_of_nat 10) "")
        (List.map
           (fun item =>
              "• [" +:+ ii_referenceId item +:+ "] " +:+ ii_description item +:+
              " (from: " +:+ ii_fromEmail item +:+ ")")
           (informational summary))
    else "No informational emails" in
  (now <- call world Api.Date_now;;
   ret (Js.trim (
     "
DAILY EMAIL SUMMARY
" +:+ formatDate rt now +:+ " • " +:+ pretty (totalEmails summary) +:+
     " emails (" +:+ pretty (unreadCount summary) +:+ " unread)

EXECUTIVE SUMMARY
" +:+ executiveSummary summary +:+ "

ACTION REQUIRED
" +:+ actionItems +:+ "

INFORMATIONAL
" +:+ informational +:+ "

HOW TO RESPOND
Reply to this email with commands like:
- Reply to EMAIL-001: I'll be available at 2pm tomorrow
- Archive EMAIL-003
- Forward EMAIL-002 to john@example.com
- Star EMAIL-004
- Mark EMAIL-005 as read

---
Generated by Email Agent • Summary ID: " +:+ s_id summary +:+ "
")))%M.

(** [getSummaryFileName()], with its default argument [new Date()]. *)
Definition getSummaryFileName : M string :=
  (date <- call world Api.Date_now;;
   ret (formatDateShort hrt date +:+ ".json"))%M.

Local Open Scope H_scope.

Definition storeSummary (summary : Summary) (messageId : string) : H unit :=
  let summaryDir := paths_summaryStorage config in
  host_call (Host.fs_mkdir summaryDir);;;
  filename <- mail getSummaryFileName;;
  let filepath := path_join rt summaryDir filename in
  let storable := summaryToStorable rt summary None (Some messageId) in
  host_call
    (Host.fs_writeFile filepath (JSON_stringify_StoredSummary hrt storable)).

Definition generateAndSendSummary : H (option (Summary * string)) :=
  emails <-
    mail (listRecentEmails world config (emailLookbackHours (agent config)));;
  if (length emails =? 0)%nat then hret None
  else
    summary <- mail (summarize rt world config emails);;
    if dryRun (agent config) then
      host_call
        (Host.console_log
           (String (ascii_of_nat 10) "=== SUMMARY PREVIEW ===" +:+
            String (ascii_of_nat 10) ""));;;
      preview <- mail (formatSummaryEmailHtml summary);;
      host_call (Host.console_log preview);;;
      hret (Some (summary, "dry-run"))
    else
      now <- mail (call world Api.Date_now);;
      let subject := "Daily Email Summary - " +:+ formatDate rt now in
      htmlBody <- mail (formatSummaryEmailHtml summary);;
      plainBody <- mail (formatSummaryEmailPlain summary);;
      messageId <-
        mail (call world
                (Api.sendEmail (user_email config) subject htmlBody
                   (Some plainBody)));;
      storeSummary summary messageId;;;
      hret (Some (summary, messageId)).

(** *** [src/services/gmail/GmailAuth.ts] *)

(** [this.tokenPath], set by the constructor from
    [config.paths.tokenStorage]. *)
Variable tokenPath : string.

Definition SCOPES : list string :=
  ["https://www.googleapis.com/auth/gmail.readonly";
   "https://www.googleapis.com/auth/gmail.send";
   "https://www.googleapis.com/auth/gmail.modify"].

(** [x || 0] on an optional number. *)
Definition or_zero (x : option Z) : Z := default 0%Z x.

Definition saveTokens (tokens : Credentials) : H unit :=
  let dir := path_dirname hrt tokenPath in
  host_call (Host.fs_mkdir dir);;;
  let storedTokens :=
    {| st_access_token := Js.or_else (access_token tokens) "";
       st_refresh_token := Js.or_else (refresh_token tokens) "";
       st_expiry_date := or_zero (expiry_date tokens);
       st_token_type := Js.or_else (token_type tokens) "Bearer";
       st_scope := Js.or_else (scope tokens) (String.concat " " SCOPES) |} in
  host_call
    (Host.fs_writeFile tokenPath
       (JSON_stringify_StoredTokens hrt storedTokens)).

Definition loadTokens : H (option Credentials) :=
  htry_catch
    (content <- mail (call world (Api.fs_readFile tokenPath));;
     match JSON_parse_tokens hrt content with
     | Some tokens => hret (Some tokens)
     | None => hthrow (JsError "SyntaxError")
     end)
    (fun _ => hret None).

Definition refreshAccessToken : H unit :=
  credentials <- host_call Host.oauth_refreshAccessToken;;
  host_call (Host.setCredentials credentials);;;
  saveTokens credentials.

Definition exchangeCodeForTokens (code : string) : H Credentials :=
  tokens <- host_call (Host.oauth_getToken code);;
  host_call (Host.setCredentials tokens);;;
  saveTokens tokens;;;
  hret tokens.

Definition initialize : H bool :=
  tokens <- loadTokens;;
  match tokens with
  | None => hret false
  | Some tokens =>
      host_call (Host.setCredentials tokens);;;
      let expiryDate := expiry_date tokens in
      now <- mail (call world Api.Date_now);;
      let fiveMinutes := (5 * 60 * 1000)%Z in
      (if negb (Z.eqb (or_zero expiryDate) 0)
          && (or_zero expiryDate - now <? fiveMinutes)%Z
       then refreshAccessToken
       else hret tt);;;
      hret true
  end.

Definition hasValidTokens : H bool :=
  tokens <- loadTokens;;
  hret match tokens with
       | Some tokens => Js.truthy (refresh_token tokens)
       | None => false
       end.

(** *** [GmailClient.addLabel] *)

Definition addLabel (messageId labelName : string) : H unit :=
  labelsResponse <- host_call Host.labels_list;;
  let labels := default [] labelsResponse in
  let label :=
    List.find
      (fun l =>
         match label_name l with
         | Some name =>
             String.eqb (toLowerCase hrt name) (toLowerCase hrt labelName)
         | None => false
         end)
      labels in
  label <-
    match label with
    | Some l => hret l
    | None => host_call (Host.labels_create labelName)
    end;;
  if Js.truthy (label_id label) then
    host_call
      (Host.messages_modify messageId [default "" (label_id label)] [])
  else hret tt.

(** *** [src/index.ts] *)



End Handlers.

(** ** Concrete worlds

    A small mailbox and a scripted language model, on which the statements
    below are run. *)

Module Demo.

Definition generated_at : string := "2026-01-15T08:00:00.000Z".

(** The answer of the model to [Archive EMAIL-003], as JSON text. *)
Definition archive_json : string :=
  "{" +:+ Js.quoted "commands" +:+ ":[{" +:+ Js.quoted "type" +:+ ":" +:+
  Js.quoted "archive" +:+ "," +:+ Js.quoted "targetRef" +:+ ":" +:+
  Js.quoted "EMAIL-003" +:+ "}]," +:+ Js.quoted "unrecognized" +:+ ":[]}".

(** The answer of the model to a batch of emails, as JSON text. *)
Definition summary_json : string :=
  "{" +:+ Js.quoted "executiveSummary" +:+ ":" +:+ Js.quoted "Quiet day." +:+
  "," +:+ Js.quoted "actionItems" +:+ ":[]," +:+
  Js.quoted "informational" +:+ ":[]}".

(** The summary stored on the day of the run, and the text of its
    file. *)
Definition stored : StoredSummary :=
  {| ss_id := "summary-1";
     ss_generatedAt := generated_at;
     ss_emailMappings := {[ "EMAIL-003" := "18c2f9a1b2" ]};
     ss_threadId := None;
     ss_messageId := Some "sent-1" |}.

Definition stored_json : string :=
  "{" +:+ Js.quoted "id" +:+ ":" +:+ Js.quoted "summary-1" +:+ "," +:+
  Js.quoted "generatedAt" +:+ ":" +:+ Js.quoted generated_at +:+ "," +:+
  Js.quoted "emailMappings" +:+ ":{" +:+ Js.quoted "EMAIL-003" +:+ ":" +:+
  Js.quoted "18c2f9a1b2" +:+ "}," +:+ Js.quoted "messageId" +:+ ":" +:+
  Js.quoted "sent-1" +:+ "}".

Definition rt : Runtime :=
  {| toISOString := fun _ => generated_at;
     formatDate := fun _ => "January 15, 2026";
     Date_parse := fun s =>
       if String.eqb s generated_at then ValidDate 1768464000000
       else InvalidDate;
     path_join := fun dir file => dir +:+ "/" +:+ file;
     JSON_parse_StoredSummary := fun s =>
       if String.eqb s stored_json then Some stored else None;
     JSON_parse_ParseResponse := fun s =>
       if String.eqb s archive_json then
         Some {| pr_commands :=
                   [mkParsedCommand "archive" "EMAIL-003" None None None None];
                 pr_unrecognized := [] |}
       else None;
     JSON_parse_SummaryResponse := fun s =>
       if String.eqb s summary_json then
         Some {| sr_executiveSummary := "Quiet day.";
                 sr_actionItems := [];
                 sr_informational := [] |}
       else None |}.

Definition config (dry : bool) : Config :=
  {| anthropic_model := "claude-sonnet-4-20250514";
     user_email := "me@example.com";
     agent := {| emailLookbackHours := 24;
                 maxEmailsPerRun := 50;
                 enableCommandProcessing := true;
                 dryRun := dry |};
     paths_summaryStorage := "/data/summaries" |}.

Definition stub (i : string) : MessageStub :=
  {| stub_id := Some i; stub_threadId := Some "thread-1" |}.

(** The message the mailbox holds under every id, with the given
    subject. *)
Definition message (i subject : string) : MessageData :=
  {| md_id := Some i;
     md_threadId := Some "thread-7";
     md_labelIds := Some ["INBOX"; "UNREAD"];
     md_snippet := Some "Numbers attached";
     md_from := mkEmailAddress "Ann" "ann@example.com";
     md_to := [mkEmailAddress "" "me@example.com"];
     md_cc := [];
     md_subject := subject;
     md_body := mkEmailBody "Numbers attached." None;
     md_date := 1768460000000;
     md_attachments := [] |}.

(** The text of a reply, by its id. *)
Definition content_of (i : string) : string :=
  if String.eqb i "reply-1" then "Please tidy up my inbox somehow"
  else "Archive EMAIL-003".

(** What the model says to a prompt. *)
Definition model_answer (prompt : string) : list ContentBlock :=
  if String.eqb prompt (buildParsePrompt "Archive EMAIL-003" None) then
    [TextBlock ("```json" +:+ archive_json +:+ "```")]
  else if String.prefix EmailSummarizer_SYSTEM_PROMPT prompt then
    [TextBlock summary_json]
  else [TextBlock "I am not sure what you would like me to do."].

(** A world whose mailbox lists the first [maxResults] entries of
    [listing], holds every message with the subject [subject], and fails
    every change of the message [broken] with an [Error]; its summary
    directory holds the summaries of two days and a stray file. *)
Definition respond (listing : list MessageStub) (subject broken : string)
    (A : Type) (w : Trace) (c : Api.Call A) : Thrown + A :=
  let change (i : string) : Thrown + unit :=
    if String.eqb i broken then
      inl (JsError "Requested entity was not found.")
    else inr tt in
  match c in Api.Call T return Thrown + T with
  | Api.messages_list _ maxResults => inr (Some (take maxResults listing))
  | Api.messages_get i => inr (message i subject)
  | Api.sendEmail _ _ _ _ => inr "sent-2"
  | Api.replyToEmail _ _ _ _ _ => inr "sent-3"
  | Api.archiveEmail i => change i
  | Api.deleteEmail i => change i
  | Api.markAsRead i => change i
  | Api.markAsUnread i => change i
  | Api.starEmail i => change i
  | Api.unstarEmail i => change i
  | Api.addLabel i _ => change i
  | Api.getMessageContent i => inr (content_of i)
  | Api.messages_create _ _ _ prompt => inr (model_answer prompt)
  | Api.fs_readdir _ =>
      inr ["2026-01-14.json"; "notes.txt"; "2026-01-15.json"]
  | Api.fs_readFile path =>
      if String.eqb path "/data/summaries/2026-01-15.json" then
        inr stored_json
      else inl (JsError "ENOENT: no such file or directory")
  | Api.Date_now => inr 1768470000000%Z
  | Api.uuidv4 => inr "5b2c0d0e-0000-4000-8000-000000000001"
  end.

Definition world (listing : list MessageStub) (subject broken : string)
  : Oracle :=
  mkOracle (respond listing subject broken).

(** Twelve replies waiting in the mailbox. *)
Definition twelve : list MessageStub :=
  (fun n => stub ("late-" +:+ pretty n)) <$> seq 0 12.

(** A listing of three entries, the second without an id, and the batch
    fetched from it. *)
Definition inbox : list MessageStub :=
  [stub "a"; mkMessageStub None None; stub "c"].

Definition batch : list Email :=
  [parseMessage (message "a" "Report") 0;
   parseMessage (message "c" "Report") 2].

Definition response : SummaryResponse :=
  {| sr_executiveSummary := "One request needs an answer.";
     sr_actionItems :=
       [mkSummaryResponseAction "EMAIL-003" high "Report" "Answer Ann"];
     sr_informational := [] |}.

End Demo.

(** ** Worlds in which something fails *)

Module Faulty.

(** The world [Demo.world listing subject ""], except that the summary
    directory does not exist when [no_dir] is set, and that fetching the
    message [unreadable] fails. *)
Definition respond (no_dir : bool) (unreadable : string)
    (listing : list MessageStub) (subject : string)
    (A : Type) (w : Trace) (c : Api.Call A) : Thrown + A :=
  match c in Api.Call T return Thrown + T with
  | Api.fs_readdir path =>
      if no_dir then
        inl (JsError "ENOENT: no such file or directory, scandir")
      else Demo.respond listing subject "" _ w (Api.fs_readdir path)
  | Api.messages_get i =>
      if String.eqb i unreadable then
        inl (JsError "Requested entity was not found.")
      else Demo.respond listing subject "" _ w (Api.messages_get i)
  | c' => Demo.respond listing subject "" _ w c'
  end.

Definition world (no_dir : bool) (unreadable : string)
    (listing : list MessageStub) (subject : string) : Oracle :=
  mkOracle (respond no_dir unreadable listing subject).

End Faulty.

(** ** A concrete host *)

Module HostDemo.

Definition tokenPath : string := "/data/tokens.json".

(** The tokens on file: they expire at the given time. *)
Definition tokens (expiry : option Z) : Credentials :=
  {| access_token := Some "ya29.old";
     refresh_token := Some "1//refresh";
     expiry_date := expiry;
     token_type := Some "Bearer";
     scope := Some "https://www.googleapis.com/auth/gmail.modify" |}.

(** What the token endpoint hands out: a new access token, no refresh
    token, no scope. *)
Definition fresh : Credentials :=
  {| access_token := Some "ya29.new";
     refresh_token := None;
     expiry_date := Some 1768473600000%Z;
     token_type := None;
     scope := None |}.

Definition tokens_json : string := "{tokens}".

(** ASCII letters to lower case. *)
Fixpoint lower (s : string) : string :=
  match s with
  | "" => ""
  | String c s' =>
      let n := nat_of_ascii c in
      String (if (65 <=? n)%nat && (n <=? 90)%nat
              then ascii_of_nat (n + 32) else c)
        (lower s')
  end.

Definition hrt (expiry : option Z) : HostRuntime :=
  {| formatDateShort := fun _ => "2026-01-15";
     path_dirname := fun _ => "/data";
     JSON_stringify_StoredSummary := fun s =>
       "{summary " +:+ ss_id s +:+ " sent as " +:+
       Js.show_optional (ss_messageId s) +:+ "}";
     JSON_stringify_StoredTokens := fun t =>
       "{tokens " +:+ st_access_token t +:+ " " +:+ st_token_type t +:+ "}";
     JSON_parse_tokens := fun s =>
       if String.eqb s tokens_json then Some (tokens expiry) else None;
     toLowerCase := lower |}.

(** A mail world like [Demo.world listing subject ""], in which the
    token file can be read. *)
Definition respond (listing : list MessageStub) (subject : string)
    (A : Type) (w : Trace) (c : Api.Call A) : Thrown + A :=
  match c in Api.Call T return Thrown + T with
  | Api.fs_readFile path =>
      if String.eqb path tokenPath then inr tokens_json
      else Demo.respond listing subject "" _ w (Api.fs_readFile path)
  | c' => Demo.respond listing subject "" _ w c'
  end.

Definition world (listing : list MessageStub) (subject : string)
  : Oracle :=
  mkOracle (respond listing subject).

(** The labels of the mailbox. *)
Definition labels : list LabelData :=
  [mkLabelData (Some "INBOX") (Some "INBOX");
   mkLabelData (Some "Label_7") (Some "Important")].

(** A host on which every call succeeds. *)
Definition host_respond (A : Type) (w : Trace) (d : list Host.Event)
    (c : Host.Call A) : Thrown + A :=
  match c in Host.Call T return Thrown + T with
  | Host.fs_mkdir _ => inr tt
  | Host.fs_writeFile _ _ => inr tt
  | Host.console_log _ => inr tt
  | Host.setCredentials _ => inr tt
  | Host.oauth_refreshAccessToken => inr fresh
  | Host.oauth_getToken _ => inr fresh
  | Host.labels_list => inr (Some labels)
  | Host.labels_create name => inr (mkLabelData (Some "Label_9") (Some name))
  | Host.messages_modify _ _ _ => inr tt
  end.

Definition host : Host.Oracle := Host.mkOracle host_respond.

(** The same mail world, in which nothing can be sent. *)
Definition respond_unsendable (listing : list MessageStub)
    (subject : string) (A : Type) (w : Trace) (c : Api.Call A)
  : Thrown + A :=
  match c in Api.Call T return Thrown + T with
  | Api.sendEmail _ _ _ _ => inl (JsError "Daily sending limit exceeded")
  | c' => respond listing subject _ w c'
  end.

Definition unsendable (listing : list MessageStub) (subject : string)
  : Oracle :=
  mkOracle (respond_unsendable listing subject).

(** A run of the summary generation, outside dry-run, on a mailbox of
    three entries. *)
Definition generated
  : (Thrown + option (Summary * string)) * Journal :=
  generateAndSendSummary Demo.rt (hrt None)
    (Demo.world Demo.inbox "Report" "") host (Demo.config false) ([], []).

End HostDemo.

(** ** Notions used in the statements *)

(** The value a padded numeral of three digits denotes. *)
Definition digit_value (c : ascii) : nat := nat_of_ascii c - 48.

Definition value_3 (s : string) : nat :=
  match s with
  | String a (String b (String c "")) =>
      100 * digit_value a + 10 * digit_value b + digit_value c
  | _ => 0
  end.

(** How many calls of a trace are of a given kind: those that reach the
    language model, those that change the mailbox. *)
Definition count_calls (which : Event -> bool) (t : Trace) : nat :=
  length (List.filter which t).

Definition model_calls (t : Trace) : nat := count_calls model_call t.

Definition changes (t : Trace) : nat := count_calls state_changing t.

(** [makes which n m]: whatever [m] does, it only appends calls to the
    trace, and at most [n] of them are of the kind [which]. *)
Definition makes {A : Type} (which : Event -> bool) (n : nat) (m : M A)
  : Prop :=
  forall w r w', m w = (r, w') ->
    exists t, w' = w ++ t /\ count_calls which t <= n.

(** The replies whose text was fetched, in the order of the calls. *)
Definition content_read (e : Event) : option string :=
  match e with
  | Called c =>
      match c with
      | Api.getMessageContent messageId => Some messageId
      | _ => None
      end
  end.

(** The subject of an outgoing message, for the calls that send one
    through [sendEmail]. *)
Definition outgoing_subject (e : Event) : option string :=
  match e with
  | Called c =>
      match c with
      | Api.sendEmail _ subject _ _ => Some subject
      | _ => None
      end
  end.

(** The provider's contract for [users.messages.list]: a page holds at
    most [maxResults] messages. *)
Definition honours_maxResults (world : Oracle) : Prop :=
  forall w q maxResults messages,
    respond world _ w (Api.messages_list q maxResults) = inr (Some messages) ->
    length messages <= maxResults.

(** The emails pushed before position [i] carry distinct tokens, each
    the token of a position below [i]. *)
Definition tokens_below (i : nat) (emails : list Email) : Prop :=
  NoDup (referenceId <$> emails) /\
  Forall (fun e => exists j, j < i /\ referenceId e = generateReferenceId j)
    emails.

(** The nine command kinds, as the strings the model sends. *)
Definition known_types : list string :=
  ["reply"; "forward"; "archive"; "delete"; "mark_read"; "mark_unread";
   "star"; "unstar"; "label"].

(** What the transformation makes of one parsed command: the token is
    kept, no provider id is attached yet, the kind is the one named, and
    [content], [forwardTo] and [labelName] are the empty string when
    missing, while [note] is handed on as it came. *)
Definition transforms_to (p : ParsedCommand) (c : Command) : Prop :=
  targetRef c = p_targetRef p /\
  targetGmailId c = None /\
  type_ c = p_type p /\
  match kind c with
  | Reply content => content = default "" (p_content p)
  | Forward forwardTo note =>
      forwardTo = default "" (p_forwardTo p) /\ note = p_note p
  | Label labelName => labelName = default "" (p_labelName p)
  | _ => True
  end.

(** The four results [executeCommand] can give for a command: its
    reference was not resolved; dry-run; the mailbox operation threw [e];
    it returned. *)
Definition unresolved_result (command : Command) : CommandResult :=
  {| command := command;
     success := false;
     error := Some ("Could not resolve " +:+ targetRef command +:+
                    " to a Gmail message ID");
     details := None |}.

Definition dry_run_result (command : Command) : CommandResult :=
  {| command := command;
     success := true;
     error := None;
     details := Some "Dry run - no action taken" |}.

Definition failed_result (command : Command) (e : Thrown) : CommandResult :=
  {| command := command;
     success := false;
     error := Some match e with
                   | JsError message => message
                   | JsNonError => "Unknown error"
                   end;
     details := None |}.

Definition succeeded_result (command : Command) : CommandResult :=
  {| command := command; success := true; error := None; details := None |}.

Section Executes.

Variable rt : Runtime.
Variable world : Oracle.
Variable config : Config.

(** Results of a sequence of commands run one after the other, each
    starting from the trace its predecessor left. *)
Inductive executes : list Command -> Trace -> list CommandResult -> Trace
                     -> Prop :=
  | executes_nil w : executes [] w [] w
  | executes_cons c cs w r w1 rs w2 :
      executeCommand rt world config c w = (inr r, w1) ->
      executes cs w1 rs w2 ->
      executes (c :: cs) w (r :: rs) w2.

End Executes.

(** The entries of a listing that are fetched: those with an id, each
    with its position in the listing, positions counted from [i]. *)
Definition fetchable (i : nat) (messages : list MessageStub)
  : list (nat * string) :=
  omap
    (fun p : nat * MessageStub =>
       if Js.truthy (stub_id p.2) then Some (p.1, default "" (stub_id p.2))
       else None)
    (imap (fun j msg => (i + j, msg)) messages).

(** A text without a backtick, so without a code fence. *)
Fixpoint no_backtick (s : string) : bool :=
  match s with
  | "" => true
  | String c s' => negb (Ascii.eqb c "`") && no_backtick s'
  end.

(** The parts below a part, in document order: each sub-part, followed
    by the parts below it. *)
Fixpoint subparts (part : MessagePart) : list MessagePart :=
  match part with
  | mkMessagePart _ _ _ parts =>
      match parts with
      | Some subParts => List.flat_map (fun p => p :: subparts p) subParts
      | None => []
      end
  end.

(** The attachment a part stands for: a part with a file name and an
    attachment id. *)
Definition attachment_of (part : MessagePart) : option Attachment :=
  if Js.truthy (part_filename part)
     && Js.truthy (part_body part ≫= attachmentId)
  then
    Some {| filename := default "" (part_filename part);
            mimeType :=
              Js.or_else (part_mimeType part) "application/octet-stream";
            size_ := default 0 (part_body part ≫= body_size) |}
  else None.

(** The text a part below the payload gives for [plain] and for [html]:
    that of a [text/plain], of a [text/html] part with data. *)
Definition text_of (decode : string -> string) (mime : string)
    (part : MessagePart) : option string :=
  if bool_decide (part_mimeType part = Some mime)
     && Js.truthy (part_body part ≫= data)
  then Some (decode (default "" (part_body part ≫= data)))
  else None.

(** The text the payload itself gives: with data, [html] when it is
    [text/html] and [plain] in every other case. *)
Definition payload_text (decode : string -> string) (want_html : bool)
    (payload : MessagePart) : option string :=
  if Js.truthy (part_body payload ≫= data)
     && Bool.eqb want_html
          (bool_decide (part_mimeType payload = Some "text/html"))
  then Some (decode (default "" (part_body payload ≫= data)))
  else None.

(** What the two variables of [extractBody] hold after texts were
    assigned to them one after the other: the last text, and what they
    held before when there was none. *)
Definition assigned (st : ExtractBody.State) (plains htmls : list string)
  : ExtractBody.State :=
  (default st.1 (last plains),
   match last htmls with Some h => Some h | None => st.2 end).

(** Every character of a text is of a class. *)
Fixpoint all_chars (class : ascii -> bool) (s : string) : bool :=
  match s with
  | "" => true
  | String c s' => class c && all_chars class s'
  end.

(** The characters an address is written with here: no white space, no
    angle bracket and no double quote. *)
Definition address_char (c : ascii) : bool :=
  negb (Ascii.is_space c) && negb (Ascii.eqb c "<")
  && negb (Ascii.eqb c ">") && negb (Ascii.eqb c (ascii_of_nat 34)).

Definition plain_address (s : string) : bool :=
  negb (String.eqb s "") && all_chars address_char s.

Definition not_quote (c : ascii) : bool :=
  negb (Ascii.eqb c (ascii_of_nat 34)).

(** The characters that cannot open the white space of the optional
    group: neither white space nor a double quote. *)
Definition solid_char (c : ascii) : bool :=
  negb (Ascii.is_space c) && not_quote c.

(** The continuation of the run of capture group 1: an optional double
    quote, one white space character, and the second half. *)
Definition after_name (captured rest : string)
  : option (option string * string) :=
  Regex.opt (ascii_of_nat 34)
    (fun rest =>
       match rest with
       | String c rest' =>
           if Ascii.is_space c then
             pair (Some captured) <$> address_tail rest'
           else None
       | "" => None
       end)
    rest.


(** The files written by calls of the host, and the calls that are not
    writes of the console. *)
Definition written (e : Host.Event) : option (string * string) :=
  match e with
  | Host.Did c =>
      match c with
      | Host.fs_writeFile path data => Some (path, data)
      | _ => None
      end
  end.


(** [keeps which allowed m]: whatever [m] does, it only appends to the
    two journals; none of the [Api] calls it makes is of the kind
    [which], and every call of the host it makes is [allowed]. *)
Definition keeps {A : Type} (which : Event -> bool)
    (allowed : Host.Event -> bool) (m : H A) : Prop :=
  forall j r j', m j = (r, j') ->
    exists t u,
      j' = (j.1 ++ t, j.2 ++ u) /\
      count_calls which t = 0 /\
      forallb allowed u = true.

(** The labels created and the modifications of messages, in the order of
    the calls. *)
Definition created (e : Host.Event) : option string :=
  match e with
  | Host.Did c =>
      match c with
      | Host.labels_create name => Some name
      | _ => None
      end
  end.

Definition modified (e : Host.Event)
  : option (string * list string * list string) :=
  match e with
  | Host.Did c =>
      match c with
      | Host.messages_modify id addLabelIds removeLabelIds =>
          Some (id, addLabelIds, removeLabelIds)
      | _ => None
      end
  end.


(** The call of the token endpoint. *)
Definition is_refresh (e : Host.Event) : bool :=
  match e with
  | Host.Did c =>
      match c with
      | Host.oauth_refreshAccessToken => true
      | _ => false
      end
  end.

(** What [saveTokens] writes for given credentials, and what reading it
    back gives: every field is there. *)
Definition stored_form (tokens : Credentials) : StoredTokens :=
  {| st_access_token := Js.or_else (access_token tokens) "";
     st_refresh_token := Js.or_else (refresh_token tokens) "";
     st_expiry_date := or_zero (expiry_date tokens);
     st_token_type := Js.or_else (token_type tokens) "Bearer";
     st_scope := Js.or_else (scope tokens) (String.concat " " SCOPES) |}.

Definition read_back (stored : StoredTokens) : Credentials :=
  {| access_token := Some (st_access_token stored);
     refresh_token := Some (st_refresh_token stored);
     expiry_date := Some (st_expiry_date stored);
     token_type := Some (st_token_type stored);
     scope := Some (st_scope stored) |}.

(** The condition under which [initialize] refreshes the access token:
    the expiry time is known, is not 0, and is less than five minutes
    after [now]. *)
Definition refresh_due (tokens : Credentials) (now : Z) : Prop :=
  exists expiry,
    expiry_date tokens = Some expiry /\ expiry <> 0%Z /\
    (expiry - now < 300000)%Z.

(** The name of a label matches the one asked for, letter case apart. *)
Definition label_matches (hrt : HostRuntime) (labelName : string)
    (l : LabelData) : bool :=
  match label_name l with
  | Some name => String.eqb (toLowerCase hrt name) (toLowerCase hrt labelName)
  | None => false
  end.

(** A runtime that writes the tokens field by field, and reads back one
    text: what it writes for the credentials [saved]. *)
Module SavedDemo.

Definition render (t : StoredTokens) : string :=
  "{access_token: " +:+ st_access_token t +:+
  ", refresh_token: " +:+ st_refresh_token t +:+
  ", expiry_date: " +:+ pretty (st_expiry_date t) +:+
  ", token_type: " +:+ st_token_type t +:+
  ", scope: " +:+ st_scope t +:+ "}".

Definition hrt (saved : Credentials) : HostRuntime :=
  {| formatDateShort := fun _ => "2026-01-15";
     path_dirname := fun _ => "/data";
     JSON_stringify_StoredSummary :=
       JSON_stringify_StoredSummary (HostDemo.hrt None);
     JSON_stringify_StoredTokens := render;
     JSON_parse_tokens := fun s =>
       if String.eqb s (render (stored_form saved))
       then Some (read_back (stored_form saved)) else None;
     toLowerCase := HostDemo.lower |}.

(** The token file holds what was written for [saved]. *)
Definition respond (saved : Credentials) (A : Type) (w : Trace)
    (c : Api.Call A) : Thrown + A :=
  match c in Api.Call T return Thrown + T with
  | Api.fs_readFile path =>
      if String.eqb path HostDemo.tokenPath
      then inr (render (stored_form saved))
      else Demo.respond [] "Report" "" _ w (Api.fs_readFile path)
  | c' => Demo.respond [] "Report" "" _ w c'
  end.

Definition world (saved : Credentials) : Oracle :=
  mkOracle (respond saved).

End SavedDemo.

(** * Properties *)

(** ** Reference tokens *)

Section Decimal.

(** A numeral never gets shorter while digits are put in front of it. *)
Lemma pretty_N_go_length (x : N) (s : string) :
  String.length s <= String.length (pretty_N_go x s).
Proof.
  revert s. induction (N.lt_wf_0 x) as [x _ IH]. intros s.
  destruct (decide (x = 0%N)) as [->|Hx].
  - by rewrite pretty_N_go_0.
  - rewrite pretty_N_go_step by lia.
    etrans; [|apply IH; apply N.div_lt; lia]. simpl. lia.
Qed.

(** A number of at least [10^k] has more than [k] digits. *)
Lemma pretty_N_go_digits (k : nat) (x : N) (s : string) :
  (10 ^ N.of_nat k <= x)%N ->
  String.length s + S k <= String.length (pretty_N_go x s).
Proof.
  revert x s. induction k as [|k IH]; intros x s Hx.
  - rewrite pretty_N_go_step by (simpl in Hx; lia).
    etrans; [|apply pretty_N_go_length]. simpl. lia.
  - assert (10 * 10 ^ N.of_nat k <= x)%N as Hx'.
    { rewrite Nat2N.inj_succ, N.pow_succ_r' in Hx. done. }
    assert (10 ^ N.of_nat k <> 0)%N by (apply N.pow_nonzero; lia).
    rewrite pretty_N_go_step by lia.
    etrans; [|apply IH].
    + simpl. lia.
    + apply N.div_le_lower_bound; lia.
Qed.

Lemma pretty_nat_digits (k n : nat) :
  10 ^ k <= n -> S k <= String.length (pretty n).
Proof.
  intros Hn. unfold pretty, pretty_nat, pretty, pretty_N.
  assert (10 ^ N.of_nat k <= N.of_nat n)%N as HN.
  { assert (N.of_nat (10 ^ k) = 10 ^ N.of_nat k)%N as <-
      by (by rewrite Nat2N.inj_pow).
    lia. }
  assert (10 ^ N.of_nat k <> 0)%N by (apply N.pow_nonzero; lia).
  case_decide; [lia|].
  apply (pretty_N_go_digits k _ ""). done.
Qed.

End Decimal.

(** A property checked on every number below a bound holds below it. *)
Lemma forallb_below (P : nat -> bool) (k : nat) :
  forallb P (seq 0 k) = true -> forall n, n < k -> P n = true.
Proof.
  intros H n Hn. rewrite forallb_forall in H. apply H.
  apply in_seq. lia.
Qed.

(** [padStart(3, '0')] writes what the specification calls zero-padding to
    three digits. *)
Lemma padStart_zero_padded_3 (n : nat) :
  Js.padStart 3 "0" (Js.String_of_nat n) = zero_padded_3 n.
Proof.
  destruct (decide (n < 100)) as [Hlt|Hge].
  - apply String.eqb_eq. revert n Hlt.
    apply (forallb_below
             (fun n => String.eqb (Js.padStart 3 "0" (Js.String_of_nat n))
                         (zero_padded_3 n)) 100).
    vm_compute. reflexivity.
  - assert (3 <= String.length (pretty n)) as Hlen.
    { apply (pretty_nat_digits 2). simpl. lia. }
    unfold Js.padStart, Js.String_of_nat, zero_padded_3.
    destruct (Nat.leb_spec 3 (String.length (pretty n))); [|lia].
    destruct (Nat.ltb_spec n 10); [lia|].
    destruct (Nat.ltb_spec n 100); [lia|]. reflexivity.
Qed.

Lemma zero_padded_3_value (n : nat) :
  n < 1000 -> value_3 (zero_padded_3 n) = n.
Proof.
  intros Hn. apply Nat.eqb_eq. revert n Hn.
  apply (forallb_below (fun n => Nat.eqb (value_3 (zero_padded_3 n)) n) 1000).
  vm_compute. reflexivity.
Qed.

Lemma zero_padded_3_length (n : nat) :
  n < 1000 -> String.length (zero_padded_3 n) = 3.
Proof.
  intros Hn. apply Nat.eqb_eq. revert n Hn.
  apply (forallb_below
           (fun n => Nat.eqb (String.length (zero_padded_3 n)) 3) 1000).
  vm_compute. reflexivity.
Qed.

Lemma zero_padded_3_big (n : nat) :
  1000 <= n ->
  zero_padded_3 n = pretty n /\ 4 <= String.length (zero_padded_3 n).
Proof.
  intros Hn. unfold zero_padded_3.
  destruct (Nat.ltb_spec n 10); [lia|].
  destruct (Nat.ltb_spec n 100); [lia|].
  split; [done|]. apply (pretty_nat_digits 3). simpl. lia.
Qed.

Lemma zero_padded_3_inj (n m : nat) :
  zero_padded_3 n = zero_padded_3 m -> n = m.
Proof.
  intros Heq.
  destruct (decide (n < 1000)) as [Hn|Hn], (decide (m < 1000)) as [Hm|Hm].
  - rewrite <- (zero_padded_3_value n), <- (zero_padded_3_value m) by done.
    by rewrite Heq.
  - pose proof (zero_padded_3_length n Hn).
    destruct (zero_padded_3_big m) as [_ ?]; [lia|].
    rewrite Heq in *. lia.
  - pose proof (zero_padded_3_length m Hm).
    destruct (zero_padded_3_big n) as [_ ?]; [lia|].
    rewrite Heq in *. lia.
  - destruct (zero_padded_3_big n) as [En _]; [lia|].
    destruct (zero_padded_3_big m) as [Em _]; [lia|].
    rewrite En, Em in Heq. by apply (inj pretty) in Heq.
Qed.

Lemma generateReferenceId_padded (i : nat) :
  generateReferenceId i = "EMAIL-" +:+ zero_padded_3 (i + 1).
Proof.
  unfold generateReferenceId. by rewrite padStart_zero_padded_3.
Qed.

(** Two positions never share a token. *)
Lemma generateReferenceId_inj (i j : nat) :
  generateReferenceId i = generateReferenceId j -> i = j.
Proof.
  rewrite !generateReferenceId_padded.
  intros H%(inj (String.app "EMAIL-"))%zero_padded_3_inj. lia.
Qed.

(** Up to position 998 a token has nine characters, and its last three
    are the digits of [i + 1]. *)
Lemma generateReferenceId_digits (i : nat) :
  i < 999 ->
  exists digits,
    generateReferenceId i = "EMAIL-" +:+ digits /\
    String.length digits = 3 /\ value_3 digits = i + 1.
Proof.
  intros Hi. exists (zero_padded_3 (i + 1)). split; [|split].
  - apply generateReferenceId_padded.
  - apply zero_padded_3_length. lia.
  - apply zero_padded_3_value. lia.
Qed.

(** C9. For every 0-based batch position [i], [generateReferenceId i] is
    the string [EMAIL-] followed by [i + 1] zero-padded to three digits:
    two zeros before one digit, one zero before two digits, and the
    numeral itself from three digits on. Being a function of [i] alone,
    the token is the same on every call; position 0 yields [EMAIL-001]. *)
Theorem reference_token_format (i : nat) :
  generateReferenceId i = spec_reference_token i /\
  generateReferenceId 0 = "EMAIL-001".
Proof.
  split; [|reflexivity]. apply generateReferenceId_padded.
Qed.

(** ** Computations *)

Section Computations.

Context {A B : Type}.

Lemma bind_returns (m : M A) (k : A -> M B) w a w1 :
  m w = (inr a, w1) -> bind m k w = k a w1.
Proof. unfold bind. by intros ->. Qed.

Lemma bind_throws (m : M A) (k : A -> M B) w e w1 :
  m w = (inl e, w1) -> bind m k w = (inl e, w1).
Proof. unfold bind. by intros ->. Qed.

(** A sequence that returns went through both of its parts. *)
Lemma bind_inr_inv (m : M A) (k : A -> M B) w b w2 :
  bind m k w = (inr b, w2) ->
  exists a w1, m w = (inr a, w1) /\ k a w1 = (inr b, w2).
Proof.
  unfold bind. destruct (m w) as [[e|a] w1]; [done|]. eauto.
Qed.

End Computations.

Section Loops.

Context {A B : Type}.

Lemma foldM_app (body : B -> A -> M B) (l1 l2 : list A) acc w :
  foldM body acc (l1 ++ l2) w
  = bind (foldM body acc l1) (fun acc' => foldM body acc' l2) w.
Proof.
  revert acc w. induction l1 as [|x l1 IH]; intros acc w; [reflexivity|].
  simpl. unfold bind.
  destruct (body acc x w) as [[e|acc'] w1]; [reflexivity|].
  rewrite IH. reflexivity.
Qed.

(** A loop whose body throws at some element throws there: the elements
    after it are never reached. *)
Lemma foldM_abort (body : B -> A -> M B) (l1 l2 : list A) x acc w acc1 w1
    e w2 :
  foldM body acc l1 w = (inr acc1, w1) ->
  body acc1 x w1 = (inl e, w2) ->
  foldM body acc (l1 ++ x :: l2) w = (inl e, w2).
Proof.
  intros H1 H2. rewrite foldM_app, (bind_returns _ _ _ _ _ H1). simpl.
  by rewrite (bind_throws _ _ _ _ _ H2).
Qed.

End Loops.

(** The rules of [makes], for any kind of call that is counted. *)
Section Makes.

Variable which : Event -> bool.

Context {A B : Type}.

Lemma count_calls_app t1 t2 :
  count_calls which (t1 ++ t2) = count_calls which t1 + count_calls which t2.
Proof. unfold count_calls. by rewrite List.filter_app, length_app. Qed.

Lemma makes_ret (a : A) : makes which 0 (ret a).
Proof.
  intros w r w' [= <- <-]. exists []. by rewrite app_nil_r.
Qed.

Lemma makes_throw (e : Thrown) : makes which 0 (@throw A e).
Proof.
  intros w r w' [= <- <-]. exists []. by rewrite app_nil_r.
Qed.

Lemma makes_lift (r : Thrown + A) : makes which 0 (lift r).
Proof.
  intros w r' w' [= <- <-]. exists []. by rewrite app_nil_r.
Qed.

Lemma makes_weaken n n' (m : M A) :
  n <= n' -> makes which n m -> makes which n' m.
Proof.
  intros Hle Hm w r w' Hrun.
  destruct (Hm w r w' Hrun) as (t & -> & Ht). exists t. split; [done|lia].
Qed.

(** In a sequence, the second part is only asked about the values the
    first part can return. *)
Lemma makes_bind_returned n1 n2 (m : M A) (k : A -> M B) :
  makes which n1 m ->
  (forall a w w1, m w = (inr a, w1) -> makes which n2 (k a)) ->
  makes which (n1 + n2) (bind m k).
Proof.
  intros Hm Hk w r w' Hrun. unfold bind in Hrun.
  destruct (m w) as [[e|a] w1] eqn:Em.
  - destruct (Hm _ _ _ Em) as (t & -> & Ht). simplify_eq.
    exists t. split; [done|lia].
  - destruct (Hm _ _ _ Em) as (t1 & -> & Ht1).
    destruct (Hk a _ _ Em _ _ _ Hrun) as (t2 & -> & Ht2).
    exists (t1 ++ t2). rewrite count_calls_app, app_assoc.
    split; [done|lia].
Qed.

Lemma makes_bind n1 n2 (m : M A) (k : A -> M B) :
  makes which n1 m -> (forall a, makes which n2 (k a)) ->
  makes which (n1 + n2) (bind m k).
Proof. intros Hm Hk. apply makes_bind_returned; [done|]. by intros. Qed.

Lemma makes_try_catch n1 n2 (m : M A) (h : Thrown -> M A) :
  makes which n1 m -> (forall e, makes which n2 (h e)) ->
  makes which (n1 + n2) (try_catch m h).
Proof.
  intros Hm Hh w r w' Hrun. unfold try_catch in Hrun.
  destruct (m w) as [[e|a] w1] eqn:Em.
  - destruct (Hm _ _ _ Em) as (t1 & -> & Ht1).
    destruct (Hh e _ _ _ Hrun) as (t2 & -> & Ht2).
    exists (t1 ++ t2). rewrite count_calls_app, app_assoc.
    split; [done|lia].
  - destruct (Hm _ _ _ Em) as (t & -> & Ht). simplify_eq.
    exists t. split; [done|lia].
Qed.

End Makes.

Lemma makes_foldM {A B : Type} (which : Event -> bool) n
    (body : B -> A -> M B) (l : list A) acc :
  (forall acc x, makes which n (body acc x)) ->
  makes which (length l * n) (foldM body acc l).
Proof.
  intros Hbody. revert acc.
  induction l as [|x l IH]; intros acc; simpl.
  - apply makes_ret.
  - apply makes_bind; [apply Hbody|]. intros acc'. apply IH.
Qed.

(** A computation that makes none of the counted calls, written for
    goals with a bound to spare. *)
Lemma makes_none {A : Type} (which : Event -> bool) n (m : M A) :
  makes which 0 m -> makes which n m.
Proof. apply makes_weaken. lia. Qed.

(** A sequence whose second part, or a handler that, makes no counted
    call. *)
Lemma makes_bind_quiet {A B : Type} (which : Event -> bool) n (m : M A)
    (k : A -> M B) :
  makes which n m -> (forall a, makes which 0 (k a)) ->
  makes which n (bind m k).
Proof.
  intros Hm Hk. eapply makes_weaken; [|by apply (makes_bind which n 0)]. lia.
Qed.

Lemma makes_try_catch_quiet {A : Type} (which : Event -> bool) n (m : M A)
    (h : Thrown -> M A) :
  makes which n m -> (forall e, makes which 0 (h e)) ->
  makes which n (try_catch m h).
Proof.
  intros Hm Hh.
  eapply makes_weaken; [|by apply (makes_try_catch which n 0)]. lia.
Qed.

(** ** Stored summaries and the summary mapping *)

Section Entries.

(** Taking entries one after the other builds the map of the entries,
    the last entry of a key winning. *)
Lemma foldl_insert_list_to_map (entries : list (string * string)) :
  foldl (fun (o : gmap string string) kv => <[kv.1 := kv.2]> o) ∅ entries
  = list_to_map (reverse entries).
Proof.
  induction entries as [|[k v] entries IH] using rev_ind; [done|].
  by rewrite foldl_app, reverse_snoc, list_to_map_cons, <- IH.
Qed.

Lemma Object_fromEntries_entries (m : gmap string string) :
  Object_fromEntries (Map_entries m) = m.
Proof.
  unfold Object_fromEntries, Map_entries.
  rewrite foldl_insert_list_to_map.
  rewrite <- (list_to_map_to_list m) at 2.
  apply list_to_map_proper.
  - rewrite fmap_reverse, reverse_Permutation.
    apply NoDup_fst_map_to_list.
  - apply reverse_Permutation.
Qed.

Lemma Map_new_entries (o : gmap string string) :
  Map_new (Object_entries o) = o.
Proof. apply Object_fromEntries_entries. Qed.

(** The mapping [createSummary] fills, as a map built from a list. *)
Lemma createSummary_mappings emails response uuid now :
  emailMappings (createSummary emails response uuid now)
  = list_to_map (reverse ((fun e => (referenceId e, id e)) <$> emails)).
Proof.
  unfold createSummary; simpl.
  rewrite <- foldl_insert_list_to_map.
  generalize (∅ : gmap string string).
  induction emails as [|e emails IH]; intros acc; [done|]. simpl. apply IH.
Qed.

(** When the tokens of the batch are distinct, the mapping holds one
    entry per message and nothing else. *)
Lemma createSummary_mappings_distinct emails response uuid now :
  NoDup (referenceId <$> emails) ->
  size (emailMappings (createSummary emails response uuid now))
    = length emails /\
  (forall e, e ∈ emails ->
     emailMappings (createSummary emails response uuid now)
       !! referenceId e = Some (id e)) /\
  (forall k v,
     emailMappings (createSummary emails response uuid now) !! k = Some v ->
     exists e, e ∈ emails /\ referenceId e = k /\ id e = v).
Proof.
  intros Hnd. rewrite createSummary_mappings.
  set (pairs := reverse ((fun e => (referenceId e, id e)) <$> emails)).
  assert (NoDup pairs.*1) as Hnd'.
  { unfold pairs.
    by rewrite fmap_reverse, <- list_fmap_compose, reverse_Permutation. }
  split; [|split].
  - rewrite map_size_list_to_map by done.
    unfold pairs. by rewrite length_reverse, length_fmap.
  - intros e He. apply elem_of_list_to_map; [done|].
    unfold pairs. rewrite elem_of_reverse.
    apply (list_elem_of_fmap_2 (fun e => (referenceId e, id e))), He.
  - intros k v Hkv. apply elem_of_list_to_map in Hkv; [|done].
    unfold pairs in Hkv. rewrite elem_of_reverse in Hkv.
    apply list_elem_of_fmap in Hkv as (e & [= -> ->] & He). eauto.
Qed.

End Entries.

(** C8. A [Summary] turned into a [StoredSummary] and loaded back gives a
    mapping with the key/value pairs of the summary's [emailMappings], and
    the optional [threadId] and [messageId] come back as they were given:
    absent when absent, the same value when supplied. *)
Theorem stored_summary_round_trip (rt : Runtime) (summary : Summary)
    (threadId messageId : option string) :
  ls_emailMappings
    (loadStoredSummary (summaryToStorable rt summary threadId messageId))
    = emailMappings summary /\
  (forall k v,
     (k, v) ∈ Map_entries
       (ls_emailMappings
          (loadStoredSummary (summaryToStorable rt summary threadId messageId)))
     <-> (k, v) ∈ Map_entries (emailMappings summary)) /\
  ls_threadId
    (loadStoredSummary (summaryToStorable rt summary threadId messageId))
    = threadId /\
  ls_messageId
    (loadStoredSummary (summaryToStorable rt summary threadId messageId))
    = messageId /\
  ss_threadId (summaryToStorable rt summary threadId messageId) = threadId /\
  ss_messageId (summaryToStorable rt summary threadId messageId) = messageId.
Proof.
  assert (ls_emailMappings
            (loadStoredSummary
               (summaryToStorable rt summary threadId messageId))
          = emailMappings summary) as Hmap.
  { unfold loadStoredSummary, summaryToStorable.
    destruct threadId, messageId; simpl;
      by rewrite Object_fromEntries_entries, Map_new_entries. }
  split; [done|]. split; [by rewrite Hmap|].
  unfold loadStoredSummary, summaryToStorable.
  by destruct threadId, messageId.
Qed.

(** ** Fetched batches *)

Section Fetch.

Variable world : Oracle.

Lemma tokens_below_nil : tokens_below 0 [].
Proof. split; constructor. Qed.

Lemma tokens_below_skip i emails :
  tokens_below i emails -> tokens_below (S i) emails.
Proof.
  intros [Hnd Hall]. split; [done|].
  eapply Forall_impl; [exact Hall|]. intros e (j & ? & ?). exists j.
  split; [lia|done].
Qed.

Lemma tokens_below_push i emails email :
  referenceId email = generateReferenceId i ->
  tokens_below i emails -> tokens_below (S i) (emails ++ [email]).
Proof.
  intros Hi [Hnd Hall]. split.
  - rewrite fmap_app. apply NoDup_app. split; [done|]. split.
    + intros ref Href ->%list_elem_of_singleton.
      apply list_elem_of_fmap in Href as (e & Hre & He).
      rewrite Forall_forall in Hall.
      destruct (Hall e He) as (j & Hj & Hej).
      rewrite Hi, Hej in Hre.
      apply generateReferenceId_inj in Hre. lia.
    + apply NoDup_singleton.
  - apply Forall_app. split.
    + apply (tokens_below_skip i emails). by split.
    + constructor; [|constructor]. exists i. split; [lia|done].
Qed.

Lemma getEmail_token messageId i w email w' :
  getEmail world messageId i w = (inr email, w') ->
  referenceId email = generateReferenceId i.
Proof.
  unfold getEmail. intros (data & w1 & _ & [= <- _])%bind_inr_inv. done.
Qed.

Lemma fetchEmails_tokens messages i emails w result w' :
  tokens_below i emails ->
  fetchEmails world messages i emails w = (inr result, w') ->
  exists n, tokens_below n result.
Proof.
  revert i emails w.
  induction messages as [|msg messages IH]; intros i emails w Hinv; simpl.
  - intros [= <- _]. eauto.
  - destruct (Js.truthy (stub_id msg)).
    + intros (email & w1 & Hget & Hrest)%bind_inr_inv.
      apply (IH _ _ _ (tokens_below_push _ _ _
                         (getEmail_token _ _ _ _ _ Hget) Hinv) Hrest).
    + apply IH. by apply tokens_below_skip.
Qed.

Variable config : Config.

(** The batch [listRecentEmails] returns carries distinct tokens. *)
Lemma listRecentEmails_distinct hoursBack w emails w' :
  listRecentEmails world config hoursBack w = (inr emails, w') ->
  NoDup (referenceId <$> emails).
Proof.
  unfold listRecentEmails.
  intros (response & w1 & _ & Hfetch)%bind_inr_inv.
  destruct (fetchEmails_tokens _ _ _ _ _ _ tokens_below_nil Hfetch)
    as (n & Hnd & _).
  done.
Qed.

Lemma listUnreadEmails_distinct w emails w' :
  listUnreadEmails world config w = (inr emails, w') ->
  NoDup (referenceId <$> emails).
Proof.
  unfold listUnreadEmails.
  intros (response & w1 & _ & Hfetch)%bind_inr_inv.
  destruct (fetchEmails_tokens _ _ _ _ _ _ tokens_below_nil Hfetch)
    as (n & Hnd & _).
  done.
Qed.

End Fetch.

(** C7. For a batch of [N] messages fetched by [listRecentEmails], the
    summary [createSummary] builds from it maps exactly [N] tokens: each
    message's token to that message's provider id, and no other key,
    whatever items the model's response contains. *)
Theorem summary_mapping_complete (world : Oracle) (config : Config)
    (hoursBack : nat) (w : Trace) (emails : list Email) (w' : Trace)
    (response : SummaryResponse) (uuid : string) (now : Z) :
  listRecentEmails world config hoursBack w = (inr emails, w') ->
  size (emailMappings (createSummary emails response uuid now))
    = length emails /\
  (forall e, e ∈ emails ->
     emailMappings (createSummary emails response uuid now) !! referenceId e
       = Some (id e)) /\
  (forall k v,
     emailMappings (createSummary emails response uuid now) !! k = Some v ->
     exists e, e ∈ emails /\ referenceId e = k /\ id e = v).
Proof.
  intros Hfetch. apply createSummary_mappings_distinct.
  by eapply listRecentEmails_distinct.
Qed.

(** The same through [summarize]: the summary of a fetched batch, empty or
    not, maps one token per message. *)
Lemma summarize_mapping_complete (rt : Runtime) (world : Oracle)
    (config : Config) (hoursBack : nat) (w : Trace) (emails : list Email)
    (w1 : Trace) (summary : Summary) (w2 : Trace) :
  listRecentEmails world config hoursBack w = (inr emails, w1) ->
  summarize rt world config emails w1 = (inr summary, w2) ->
  size (emailMappings summary) = length emails /\
  (forall e, e ∈ emails ->
     emailMappings summary !! referenceId e = Some (id e)).
Proof.
  intros Hfetch%listRecentEmails_distinct. unfold summarize.
  destruct emails as [|e0 emails]; simpl.
  - intros (now & w3 & _ & (uuid & w4 & _ & [= <- _])%bind_inr_inv)%bind_inr_inv.
    split; [done|]. by intros e ?%elem_of_nil.
  - intros (response & w3 & _ & (now & w4 & _ &
              (uuid & w5 & _ & [= <- _])%bind_inr_inv)%bind_inr_inv)%bind_inr_inv.
    destruct (createSummary_mappings_distinct (e0 :: emails) response uuid now
                Hfetch) as (Hsize & Hget & _).
    done.
Qed.

(** ** The command interpreter *)

Lemma or_else_empty (a : option string) : Js.or_else a "" = default "" a.
Proof.
  destruct a as [s|]; [|done]. simpl.
  destruct (String.eqb_spec s ""); by subst.
Qed.

Lemma transformCommand_known (p : ParsedCommand) :
  p_type p ∈ known_types ->
  exists c, transformCommand p = inr c /\ transforms_to p c.
Proof.
  intros Hin. unfold known_types in Hin.
  repeat (apply elem_of_cons in Hin as [Hin|Hin]);
    [..|by apply elem_of_nil in Hin];
    unfold transformCommand, transforms_to; rewrite Hin; simpl;
    eexists; (split; [reflexivity|]); simpl;
    rewrite ?or_else_empty; done.
Qed.

Lemma transformCommand_unknown (p : ParsedCommand) :
  p_type p ∉ known_types ->
  transformCommand p = inl (JsError ("Unknown command type: " +:+ p_type p)).
Proof.
  intros Hnot. unfold transformCommand.
  repeat match goal with
  | |- context [String.eqb (p_type p) ?s] =>
      destruct (String.eqb_spec (p_type p) s) as [Heq|_];
        [exfalso; apply Hnot; rewrite Heq; by apply (bool_decide_unpack _)|]
  end.
  done.
Qed.

(** C4, as the code has it. Parsed commands whose types are all among the
    nine kinds are transformed one by one, in order and without failure:
    a missing [content], [forwardTo] or [labelName] becomes the empty
    string, and [note] is passed on unchanged, so that a missing note stays
    absent. A command whose type is none of the nine makes the
    transformation throw [Unknown command type: <type>], and with it the
    parsing of that reply. *)
Theorem transformCommands_spec (parsed : list ParsedCommand) :
  (Forall (fun p => p_type p ∈ known_types) parsed ->
   exists cmds,
     transformCommands parsed = inr cmds /\
     Forall2 transforms_to parsed cmds) /\
  (forall before p after,
     parsed = before ++ p :: after ->
     Forall (fun p => p_type p ∈ known_types) before ->
     p_type p ∉ known_types ->
     transformCommands parsed
       = inl (JsError ("Unknown command type: " +:+ p_type p))).
Proof.
  split.
  - induction 1 as [|p parsed Hp _ (cmds & Hcmds & Hall)].
    + exists []. split; [done|constructor].
    + destruct (transformCommand_known p Hp) as (c & Hc & Hpc).
      exists (c :: cmds). unfold transformCommands in *. simpl.
      rewrite Hc, Hcmds. split; [done|by constructor].
  - intros before p after -> Hbefore Hp. unfold transformCommands.
    induction Hbefore as [|q before Hq _ IH]; simpl.
    + by rewrite (transformCommand_unknown p Hp).
    + destruct (transformCommand_known q Hq) as (c & -> & _).
      by rewrite IH.
Qed.

(** The input of the model's answer that shows the difference: a forward
    command without a note. Its note is absent after the transformation,
    not the empty string. *)
Lemma transformCommands_note_stays_absent :
  transformCommands
    [mkParsedCommand "forward" "EMAIL-002" None (Some "john@example.com")
       None None]
  = inr [mkCommand "EMAIL-002" None (Forward "john@example.com" None)] /\
  Forward "john@example.com" None <> Forward "john@example.com" (Some "").
Proof. split; [reflexivity|discriminate]. Qed.

(** The transformation at work on a reply without content and on an
    unknown kind after a known one. *)
Lemma transformCommands_spec_witness :
  (exists cmds,
     transformCommands
       [mkParsedCommand "reply" "EMAIL-001" None None None None;
        mkParsedCommand "label" "EMAIL-004" None None None (Some "Important")]
       = inr cmds /\
     Forall2 transforms_to
       [mkParsedCommand "reply" "EMAIL-001" None None None None;
        mkParsedCommand "label" "EMAIL-004" None None None (Some "Important")]
       cmds) /\
  transformCommands
    [mkParsedCommand "star" "EMAIL-001" None None None None;
     mkParsedCommand "snooze" "EMAIL-002" None None None None;
     mkParsedCommand "archive" "EMAIL-003" None None None None]
  = inl (JsError "Unknown command type: snooze").
Proof.
  split.
  - apply (proj1 (transformCommands_spec _)). repeat constructor.
  - apply (proj2 (transformCommands_spec _)
             [mkParsedCommand "star" "EMAIL-001" None None None None]
             (mkParsedCommand "snooze" "EMAIL-002" None None None None)
             [mkParsedCommand "archive" "EMAIL-003" None None None None]).
    + reflexivity.
    + repeat constructor.
    + by apply (bool_decide_unpack _).
Defined.

(** ** The executor *)

Section Executor.

Variable rt : Runtime.
Variable world : Oracle.
Variable config : Config.

Local Abbreviation executes := (executes rt world config).

Lemma executeCommand_unresolved cmd w :
  Js.truthy (targetGmailId cmd) = false ->
  executeCommand rt world config cmd w
  = (inr (unresolved_result cmd), w).
Proof. intros H. unfold executeCommand. by rewrite H. Qed.

Lemma executeCommand_dry_run cmd w :
  Js.truthy (targetGmailId cmd) = true ->
  dryRun (agent config) = true ->
  executeCommand rt world config cmd w
  = (inr (dry_run_result cmd), w).
Proof. intros H1 H2. unfold executeCommand. by rewrite H1, H2. Qed.

(** Outside dry-run, a resolved command gives the outcome of its mailbox
    operation: success when it returns, failure with the message of the
    error when it throws. *)
Lemma executeCommand_performed cmd gmailId w :
  targetGmailId cmd = Some gmailId ->
  gmailId <> "" ->
  dryRun (agent config) = false ->
  executeCommand rt world config cmd w
  = match perform rt world cmd gmailId w with
    | (inr _, w') => (inr (succeeded_result cmd), w')
    | (inl e, w') => (inr (failed_result cmd e), w')
    end.
Proof.
  intros Hid Hne Hdry. unfold executeCommand. rewrite Hid, Hdry. simpl.
  destruct (String.eqb_spec gmailId ""); [done|]. simpl.
  unfold try_catch, bind.
  destruct (perform rt world cmd gmailId w) as [[e|[]] w'];
    [|done].
  by destruct e.
Qed.

(** Executing one command always returns a result, and the result is
    about that command. *)
Lemma executeCommand_returns cmd w :
  exists r w',
    executeCommand rt world config cmd w = (inr r, w') /\
    command r = cmd.
Proof.
  destruct (Js.truthy (targetGmailId cmd)) eqn:Hid.
  - destruct (dryRun (agent config)) eqn:Hdry.
    + rewrite executeCommand_dry_run by done. eauto.
    + destruct (targetGmailId cmd) as [gmailId|] eqn:Hsome; [|done].
      rewrite (executeCommand_performed cmd gmailId) by
        (try done; intros ->; done).
      destruct (perform rt world cmd gmailId w) as [[e|u] w']; eauto.
  - rewrite executeCommand_unresolved by done. eauto.
Qed.

Lemma executes_total commands w :
  exists results w', executes commands w results w'.
Proof.
  revert w. induction commands as [|c commands IH]; intros w.
  - exists [], w. constructor.
  - destruct (executeCommand_returns c w) as (r & w1 & Hr & _).
    destruct (IH w1) as (rs & w2 & Hex).
    exists (r :: rs), w2. by econstructor.
Qed.

(** The loop of [executeCommands], entered with the results pushed so
    far, pushes the results of the remaining commands. *)
Lemma executes_loop commands w results w' acc :
  executes commands w results w' ->
  foldM
    (fun results command =>
       bind (executeCommand rt world config command)
         (fun result => ret (results ++ [result])))
    acc commands w
  = (inr (acc ++ results), w').
Proof.
  intros Hex. revert acc.
  induction Hex as [|c cs w r w1 rs w2 Hr _ IH]; intros acc; simpl.
  - by rewrite app_nil_r.
  - unfold bind at 1. unfold bind at 1. rewrite Hr. simpl.
    rewrite IH. by rewrite <- app_assoc.
Qed.

Lemma executes_run commands w results w' :
  executes commands w results w' ->
  executeCommands rt world config commands w = (inr results, w').
Proof. intros Hex. apply (executes_loop _ _ _ _ [] Hex). Qed.

Lemma executes_length commands w results w' :
  executes commands w results w' ->
  length results = length commands /\ command <$> results = commands.
Proof.
  induction 1 as [|c cs w r w1 rs w2 Hr _ [IH1 IH2]]; [done|].
  destruct (executeCommand_returns c w) as (r' & w1' & Hr' & Hc).
  rewrite Hr in Hr'. injection Hr' as <- <-.
  split; [simpl; lia|]. rewrite fmap_cons. congruence.
Qed.

(** The result at position [j] is the result of running command [j] on
    its own, from the trace the commands before it left. *)
Lemma executes_lookup commands w results w' j c :
  executes commands w results w' ->
  commands !! j = Some c ->
  exists r wj wj',
    results !! j = Some r /\
    executes (take j commands) w (take j results) wj /\
    executeCommand rt world config c wj = (inr r, wj').
Proof.
  intros Hex. revert j.
  induction Hex as [|c0 cs w r w1 rs w2 Hr _ IH]; intros j; [done|].
  destruct j as [|j]; simpl.
  - intros [= ->]. exists r, w, w1. repeat split; [constructor|done].
  - intros Hj. destruct (IH j Hj) as (r' & wj & wj' & ? & ? & ?).
    exists r', wj, wj'. repeat split; [done| |done]. by econstructor.
Qed.

(** What a forward command sends, outside dry-run: the original is
    fetched, and a message goes out whose subject is the original
    subject behind [Fwd: ], whatever the original subject is. *)
Lemma executeCommand_forward ref gmailId forwardTo note w data :
  gmailId <> "" ->
  dryRun (agent config) = false ->
  respond world _ w (Api.messages_get gmailId) = inr data ->
  omap outgoing_subject
    (drop (length w)
       (snd (executeCommand rt world config
               (mkCommand ref (Some gmailId) (Forward forwardTo note)) w)))
  = ["Fwd: " +:+ md_subject data].
Proof.
  intros Hne Hdry Hget.
  rewrite (executeCommand_performed _ gmailId) by done.
  unfold perform, getEmail, bind, call, ret. simpl. rewrite Hget.
  match goal with
  | |- context [respond world string ?t ?c] =>
      destruct (respond world string t c)
  end; simpl; by rewrite <- app_assoc, drop_app_length.
Qed.

End Executor.

(** C6. A command whose token is not a key of the loaded mapping gets no
    provider id at resolution, and executing it returns (it does not
    throw) a result with [success = false] and an error message that names
    the token; no call is made. *)
Theorem unresolved_reference_fails (rt : Runtime) (world : Oracle)
    (config : Config) (emailMappings : gmap string string) (cmd : Command)
    (w : Trace) :
  emailMappings !! targetRef cmd = None ->
  executeCommand rt world config (resolve emailMappings cmd) w
  = (inr {| command := resolve emailMappings cmd;
            success := false;
            error := Some ("Could not resolve " +:+ targetRef cmd +:+
                           " to a Gmail message ID");
            details := None |},
     w).
Proof.
  intros Hmiss. rewrite executeCommand_unresolved; [done|].
  unfold resolve; simpl. by rewrite Hmiss.
Qed.

Lemma unresolved_reference_fails_witness :
  ss_emailMappings Demo.stored !! "EMAIL-009" = None /\
  executeCommand Demo.rt (Demo.world [] "Report" "") (Demo.config false)
    (resolve (ss_emailMappings Demo.stored)
       (mkCommand "EMAIL-009" None Delete)) []
  = (inr {| command := mkCommand "EMAIL-009" None Delete;
            success := false;
            error := Some "Could not resolve EMAIL-009 to a Gmail message ID";
            details := None |},
     []).
Proof.
  split; [reflexivity|].
  exact (unresolved_reference_fails Demo.rt (Demo.world [] "Report" "")
           (Demo.config false) (ss_emailMappings Demo.stored)
           (mkCommand "EMAIL-009" None Delete) [] eq_refl).
Defined.

(** C3, as the code has it. In dry-run mode, executing a command of any
    kind makes no call at all, so none that changes the mailbox; a command
    with a resolved provider id gets [success = true] and the detail
    [Dry run - no action taken], and an unresolved command gets the failure
    of an unresolved reference, as it does outside dry-run. *)
Theorem dry_run_executes_nothing (rt : Runtime) (world : Oracle)
    (config : Config) (cmd : Command) (w : Trace) :
  dryRun (agent config) = true ->
  executeCommand rt world config cmd w
  = (inr (if Js.truthy (targetGmailId cmd) then dry_run_result cmd
          else unresolved_result cmd),
     w) /\
  makes state_changing 0 (executeCommand rt world config cmd).
Proof.
  intros Hdry. split.
  - destruct (Js.truthy (targetGmailId cmd)) eqn:Hid.
    + by apply executeCommand_dry_run.
    + by apply executeCommand_unresolved.
  - unfold executeCommand. rewrite Hdry.
    destruct (negb (Js.truthy (targetGmailId cmd))); apply makes_ret.
Qed.

Lemma dry_run_executes_nothing_witness :
  dryRun (agent (Demo.config true)) = true /\
  executeCommand Demo.rt (Demo.world [] "Report" "") (Demo.config true)
    (mkCommand "EMAIL-003" (Some "18c2f9a1b2") Delete) []
  = (inr {| command := mkCommand "EMAIL-003" (Some "18c2f9a1b2") Delete;
            success := true;
            error := None;
            details := Some "Dry run - no action taken" |},
     []).
Proof.
  split; [reflexivity|].
  exact (proj1
           (dry_run_executes_nothing Demo.rt (Demo.world [] "Report" "")
              (Demo.config true)
              (mkCommand "EMAIL-003" (Some "18c2f9a1b2") Delete) [] eq_refl)).
Defined.

(** In dry-run mode a command that was not resolved does not succeed: the
    check for a provider id comes before the dry-run check. *)
Lemma dry_run_unresolved_fails :
  dryRun (agent (Demo.config true)) = true /\
  executeCommand Demo.rt (Demo.world [] "Report" "") (Demo.config true)
    (resolve (ss_emailMappings Demo.stored)
       (mkCommand "EMAIL-009" None Archive)) []
  = (inr {| command := mkCommand "EMAIL-009" None Archive;
            success := false;
            error := Some "Could not resolve EMAIL-009 to a Gmail message ID";
            details := None |},
     []).
Proof. split; reflexivity. Qed.

(** C5. Executing [K] commands always returns, with exactly [K] results in
    the order of the commands. Result [j] is the result of executing
    command [j] from the trace the commands before it left; when the
    mailbox operation of command [j] throws an [Error], result [j] has
    [success = false] and carries the error's message, and the commands
    after it are executed all the same. *)
Theorem executeCommands_never_aborts (rt : Runtime) (world : Oracle)
    (config : Config) (commands : list Command) (w : Trace) :
  exists results w',
    executeCommands rt world config commands w = (inr results, w') /\
    length results = length commands /\
    command <$> results = commands /\
    (forall j c, commands !! j = Some c ->
       exists r wj wj',
         results !! j = Some r /\
         executeCommands rt world config (take j commands) w
           = (inr (take j results), wj) /\
         executeCommand rt world config c wj = (inr r, wj') /\
         (forall gmailId message w2,
            dryRun (agent config) = false ->
            targetGmailId c = Some gmailId ->
            gmailId <> "" ->
            perform rt world c gmailId wj = (inl (JsError message), w2) ->
            success r = false /\ error r = Some message /\ wj' = w2)).
Proof.
  destruct (executes_total rt world config commands w) as (results & w' & Hex).
  exists results, w'.
  destruct (executes_length _ _ _ _ _ _ _ Hex) as [Hlen Hcmd].
  split; [by apply executes_run|]. split; [done|]. split; [done|].
  intros j c Hj.
  destruct (executes_lookup _ _ _ _ _ _ _ _ _ Hex Hj)
    as (r & wj & wj' & Hr & Hpre & Hrun).
  exists r, wj, wj'. split; [done|]. split; [by apply executes_run|].
  split; [done|].
  intros gmailId message w2 Hdry Hid Hne Hthrow.
  rewrite (executeCommand_performed _ _ _ _ gmailId) in Hrun by done.
  rewrite Hthrow in Hrun. by injection Hrun as <- <-.
Qed.

(** A batch of four whose second command fails at the mailbox and whose
    third was never resolved: four results, two of them failures. *)
Example executeCommands_batch :
  fst (executeCommands Demo.rt (Demo.world [] "Report" "m2")
         (Demo.config false)
         [mkCommand "EMAIL-001" (Some "m1") Star;
          mkCommand "EMAIL-002" (Some "m2") Archive;
          mkCommand "EMAIL-003" None Delete;
          mkCommand "EMAIL-004" (Some "m4") (Label "x")] [])
  = inr
      [succeeded_result (mkCommand "EMAIL-001" (Some "m1") Star);
       failed_result (mkCommand "EMAIL-002" (Some "m2") Archive)
         (JsError "Requested entity was not found.");
       unresolved_result (mkCommand "EMAIL-003" None Delete);
       succeeded_result (mkCommand "EMAIL-004" (Some "m4") (Label "x"))].
Proof. reflexivity. Qed.

(** C2, on the code. Forwarding a message whose subject already starts
    with [Fwd:] sends it under the subject [Fwd: Fwd: Report]: the prefix
    is put in front without a look at the subject, while the reply path
    leaves a subject that starts with [Re:] as it is. *)
Theorem forward_prefixes_prefixed_subject :
  Js.startsWith "Fwd:" "Fwd: Report" = true /\
  omap outgoing_subject
    (snd (executeCommand Demo.rt (Demo.world [] "Fwd: Report" "")
            (Demo.config false)
            (mkCommand "EMAIL-003" (Some "18c2f9a1b2")
               (Forward "john@example.com" None)) []))
  = ["Fwd: Fwd: Report"] /\
  replyToEmail_subject "Re: Report" = "Re: Report".
Proof. repeat split; reflexivity. Qed.

(** ** Reply-command intake *)

Section Intake.

Variable rt : Runtime.
Variable world : Oracle.
Variable config : Config.

Lemma makes_call {A : Type} which (c : Api.Call A) :
  makes which (if which (Called c) then 1 else 0) (call world c).
Proof.
  intros w r w' Hrun. unfold call in Hrun. injection Hrun as <- <-.
  exists [Called c]. split; [done|].
  unfold count_calls.
  change (List.filter which [Called c])
    with (if which (Called c) then [Called c] else []).
  by destruct (which (Called c)).
Qed.

(** *** Calls that reach the model *)

Lemma makes_getEmail which messageId index :
  makes which (if which (Called (Api.messages_get messageId)) then 1 else 0)
    (getEmail world messageId index).
Proof.
  apply makes_bind_quiet; [apply makes_call|]. intros. apply makes_ret.
Qed.

Lemma makes_perform cmd gmailId :
  makes model_call 0 (perform rt world cmd gmailId).
Proof.
  unfold perform. destruct (kind cmd).
  - apply (makes_bind _ 0 0); [apply (makes_getEmail model_call)|].
    intros original.
    apply (makes_bind _ 0 0);
      [apply (makes_call model_call (Api.replyToEmail _ _ _ _ _))|].
    intros. apply makes_ret.
  - apply (makes_bind _ 0 0); [apply (makes_getEmail model_call)|].
    intros original.
    apply (makes_bind _ 0 0);
      [apply (makes_call model_call (Api.sendEmail _ _ _ _))|].
    intros. apply makes_ret.
  - apply (makes_call model_call (Api.archiveEmail _)).
  - apply (makes_call model_call (Api.deleteEmail _)).
  - apply (makes_call model_call (Api.markAsRead _)).
  - apply (makes_call model_call (Api.markAsUnread _)).
  - apply (makes_call model_call (Api.starEmail _)).
  - apply (makes_call model_call (Api.unstarEmail _)).
  - apply (makes_call model_call (Api.addLabel _ _)).
Qed.

Lemma makes_executeCommand cmd :
  makes model_call 0 (executeCommand rt world config cmd).
Proof.
  unfold executeCommand.
  destruct (negb (Js.truthy (targetGmailId cmd))); [apply makes_ret|].
  destruct (dryRun (agent config)); [apply makes_ret|].
  apply (makes_try_catch _ 0 0).
  - apply (makes_bind _ 0 0); [apply makes_perform|]. intros.
    apply makes_ret.
  - intros. apply makes_ret.
Qed.

(** A batch of commands makes no counted call when no single command
    makes one. *)
Lemma makes_executeCommands which commands :
  (forall cmd, makes which 0 (executeCommand rt world config cmd)) ->
  makes which 0 (executeCommands rt world config commands).
Proof.
  intros Hone. eapply makes_weaken; [|apply (makes_foldM _ 0)].
  - lia.
  - intros acc cmd. apply (makes_bind _ 0 0); [apply Hone|].
    intros. apply makes_ret.
Qed.

(** Parsing a reply is one call, to the model. *)
Lemma makes_complete which prompt options :
  makes which
    (if which (Called (Api.messages_create (anthropic_model config)
                         (default 4096 (options ≫= maxTokens))
                         (default 7 (options ≫= temperature)) prompt))
     then 1 else 0)
    (complete world config prompt options).
Proof.
  unfold complete.
  apply makes_try_catch_quiet; [|intros; apply makes_throw].
  apply makes_bind_quiet; [apply makes_call|].
  intros response.
  destruct (find_text response); [apply makes_ret|apply makes_throw].
Qed.

Lemma makes_parseCommands which userInput summaryContext :
  makes which
    (if which (Called (Api.messages_create (anthropic_model config) 4096 3
                         (buildParsePrompt userInput summaryContext)))
     then 1 else 0)
    (parseCommands rt world config userInput summaryContext).
Proof.
  unfold parseCommands, parseJson.
  apply makes_bind_quiet.
  - apply makes_bind_quiet; [apply makes_complete|].
    intros response. cbv beta zeta.
    destruct (JSON_parse_ParseResponse rt (jsonStr_of response));
      [apply makes_ret|apply makes_throw].
  - intros response.
    apply (makes_bind _ 0 0); [apply makes_lift|]. intros. apply makes_ret.
Qed.

(** One reply, at most one answer asked of the model. *)
Lemma makes_processReply emailMappings allResults reply :
  makes model_call 1
    (processReply rt world config emailMappings allResults reply).
Proof.
  unfold processReply.
  destruct (negb (Js.truthy (stub_id reply)));
    [apply makes_none, makes_ret|].
  apply (makes_bind _ 0 1);
    [apply (makes_call model_call (Api.getMessageContent _))|].
  intros content.
  destruct (String.eqb (Js.trim content) "");
    [apply makes_none, makes_ret|].
  apply (makes_bind _ 1 0); [apply (makes_parseCommands model_call)|].
  intros parsed.
  apply (makes_bind _ 0 0);
    [apply makes_executeCommands, makes_executeCommand|].
  intros. apply makes_ret.
Qed.

Lemma makes_processReplies emailMappings replies :
  makes model_call (length replies)
    (processReplies rt world config emailMappings replies).
Proof.
  eapply makes_weaken; [|apply (makes_foldM _ 1)].
  - lia.
  - intros. apply makes_processReply.
Qed.

Lemma makes_sendConfirmationEmail results :
  makes model_call 0 (sendConfirmationEmail rt world config results).
Proof.
  unfold sendConfirmationEmail.
  apply (makes_bind _ 0 0); [apply (makes_call model_call Api.Date_now)|].
  intros now1.
  apply (makes_bind _ 0 0); [apply (makes_call model_call Api.Date_now)|].
  intros now2.
  apply (makes_bind _ 0 0); [apply (makes_call model_call (Api.sendEmail _ _ _ _))|].
  intros. apply makes_ret.
Qed.

(** [searchReplies] asks the provider for at most ten messages, once. *)
Lemma searchReplies_request subject afterDate w r w' :
  searchReplies world subject afterDate w = (r, w') ->
  exists q, w' = w ++ [Called (Api.messages_list q 10)].
Proof.
  unfold searchReplies, bind, call, ret.
  destruct (respond world _ w _) as [e|response]; intros [= _ <-]; eauto.
Qed.

Lemma searchReplies_length subject afterDate w replies w' :
  honours_maxResults world ->
  searchReplies world subject afterDate w = (inr replies, w') ->
  length replies <= 10.
Proof.
  intros Hmax. unfold searchReplies, bind, call, ret.
  destruct (respond world _ w _) as [e|[messages|]] eqn:Hlist;
    intros [= <- _]; simpl; [|lia].
  by apply Hmax in Hlist.
Qed.

Lemma makes_searchReplies which subject afterDate :
  (forall q, which (Called (Api.messages_list q 10)) = false) ->
  makes which 0 (searchReplies world subject afterDate).
Proof.
  intros Hlist. apply (makes_bind _ 0 0).
  - eapply makes_weaken; [|apply (makes_call which (Api.messages_list _ _))].
    by rewrite Hlist.
  - intros. apply makes_ret.
Qed.

(** Loading the latest summary only reads the file system. *)
Lemma makes_loadLatestSummary which :
  (forall path, which (Called (Api.fs_readdir path)) = false) ->
  (forall path, which (Called (Api.fs_readFile path)) = false) ->
  makes which 0 (loadLatestSummary rt world config).
Proof.
  intros Hdir Hfile. unfold loadLatestSummary.
  apply (makes_try_catch _ 0 0); [|intros; apply makes_ret].
  apply (makes_bind _ 0 0).
  - eapply makes_weaken; [|apply (makes_call which (Api.fs_readdir _))].
    by rewrite Hdir.
  - intros files. cbv zeta.
    destruct (reverse _) as [|first rest]; [apply makes_ret|].
    apply (makes_bind _ 0 0); [|intros; apply makes_ret].
    eapply makes_weaken; [|apply (makes_call which (Api.fs_readFile _))].
    by rewrite Hfile.
Qed.

Lemma makes_processReplyCommands :
  honours_maxResults world ->
  makes model_call 10 (processReplyCommands rt world config).
Proof.
  intros Hmax. unfold processReplyCommands.
  apply (makes_bind _ 0 10); [by apply makes_loadLatestSummary|].
  intros [storedSummary|]; [|apply makes_none, makes_ret].
  apply (makes_bind_returned _ 0 10); [by apply makes_searchReplies|].
  intros replies w w1 Hsearch%(searchReplies_length _ _ _ _ _ Hmax).
  destruct (length replies =? 0)%nat; [apply makes_none, makes_ret|].
  apply (makes_bind _ 10 0).
  - eapply makes_weaken; [|apply makes_processReplies]. done.
  - intros allResults. destruct (_ && _); [|apply makes_ret].
    apply (makes_bind _ 0 0); [apply makes_sendConfirmationEmail|].
    intros. apply makes_ret.
Qed.

(** The results a pass returns are the results of the replies the
    search returned, and nothing else. *)
Lemma processReplyCommands_results w results w' :
  honours_maxResults world ->
  processReplyCommands rt world config w = (inr results, w') ->
  results = [] \/
  exists stored replies w1 w2,
    length replies <= 10 /\
    processReplies rt world config
      (ls_emailMappings (loadStoredSummary stored)) replies w1
    = (inr results, w2).
Proof.
  intros Hmax. unfold processReplyCommands.
  intros ([stored|] & w0 & _ & Hrest)%bind_inr_inv;
    [|injection Hrest as <- _; by left].
  apply bind_inr_inv in Hrest as (replies & w1 & Hsearch & Hrest).
  destruct (length replies =? 0)%nat;
    [injection Hrest as <- _; by left|].
  apply bind_inr_inv in Hrest as (allResults & w2 & Hloop & Hrest).
  right. exists stored, replies, w1, w2.
  split; [by eapply searchReplies_length|].
  destruct (_ && _).
  - apply bind_inr_inv in Hrest as (u & w3 & _ & [= <- _]). done.
  - injection Hrest as <- _. done.
Qed.

(** *** Calls that change the mailbox, in dry-run mode *)

Section DryRun.

Hypothesis Hdry : dryRun (agent config) = true.

Lemma dry_executeCommand cmd :
  makes state_changing 0 (executeCommand rt world config cmd).
Proof.
  unfold executeCommand. rewrite Hdry.
  destruct (negb (Js.truthy (targetGmailId cmd))); apply makes_ret.
Qed.

Lemma dry_processReply emailMappings allResults reply :
  makes state_changing 0
    (processReply rt world config emailMappings allResults reply).
Proof.
  unfold processReply.
  destruct (negb (Js.truthy (stub_id reply))); [apply makes_ret|].
  apply (makes_bind _ 0 0);
    [apply (makes_call state_changing (Api.getMessageContent _))|].
  intros content.
  destruct (String.eqb (Js.trim content) ""); [apply makes_ret|].
  apply (makes_bind _ 0 0);
    [apply (makes_parseCommands state_changing)|].
  intros parsed.
  apply (makes_bind _ 0 0);
    [apply makes_executeCommands, dry_executeCommand|].
  intros. apply makes_ret.
Qed.

(** In dry-run mode a whole command-intake pass changes nothing in the
    mailbox: commands are not carried out and no confirmation is
    sent. *)
Lemma dry_processReplyCommands :
  makes state_changing 0 (processReplyCommands rt world config).
Proof.
  unfold processReplyCommands. rewrite Hdry.
  apply (makes_bind _ 0 0); [by apply makes_loadLatestSummary|].
  intros [storedSummary|]; [|apply makes_ret].
  apply (makes_bind _ 0 0); [by apply makes_searchReplies|].
  intros replies.
  destruct (length replies =? 0)%nat; [apply makes_ret|].
  apply (makes_bind _ 0 0).
  - eapply makes_weaken; [|apply (makes_foldM _ 0)]; [lia|].
    intros. apply dry_processReply.
  - intros allResults. rewrite andb_false_r. apply makes_ret.
Qed.

End DryRun.

(** A reply with an id and a text, for which the model's answer is not
    JSON: its processing throws at the parse, right after the model was
    called. *)
Lemma processReply_json_failure emailMappings allResults reply rid content
    blocks text w :
  stub_id reply = Some rid ->
  rid <> "" ->
  respond world _ w (Api.getMessageContent rid) = inr content ->
  Js.trim content <> "" ->
  respond world _ (w ++ [Called (Api.getMessageContent rid)])
    (Api.messages_create (anthropic_model config) 4096 3
       (buildParsePrompt content None)) = inr blocks ->
  find_text blocks = Some text ->
  JSON_parse_ParseResponse rt (jsonStr_of text) = None ->
  processReply rt world config emailMappings allResults reply w
  = (inl (JsError "Failed to parse JSON from Claude response"),
     w ++ [Called (Api.getMessageContent rid);
           Called (Api.messages_create (anthropic_model config) 4096 3
                     (buildParsePrompt content None))]).
Proof.
  intros Hid Hne Hcontent Htrim Hmodel Htext Hjson.
  unfold processReply. rewrite Hid. simpl.
  destruct (String.eqb_spec rid ""); [done|]. simpl.
  unfold bind at 1. unfold call at 1. rewrite Hcontent.
  destruct (String.eqb_spec (Js.trim content) ""); [done|].
  unfold parseCommands, parseJson, complete, try_catch, bind, call, throw,
    ret. simpl.
  rewrite Hmodel, Htext, Hjson. by rewrite <- app_assoc.
Qed.

End Intake.

(** C1, as the code has it. Replies are processed one after the other
    and nothing catches a failure of the parse: when the model's answer for
    a reply is not JSON, the whole command-intake pass throws
    [Failed to parse JSON from Claude response] and returns no Command
    Results. The replies before it have been processed, and the trace ends
    with the model call that failed: the replies after it are neither read,
    parsed nor executed. *)
Theorem json_failure_aborts_pass (rt : Runtime) (world : Oracle)
    (config : Config) (w0 w0' : Trace) (stored : StoredSummary)
    (before : list MessageStub) (reply : MessageStub)
    (after : list MessageStub) (w1 : Trace) (done : list CommandResult)
    (w2 : Trace) (rid content : string) (blocks : list ContentBlock)
    (text : string) :
  loadLatestSummary rt world config w0 = (inr (Some stored), w0') ->
  searchReplies world "Daily Email Summary"
    (Date_parse rt (ss_generatedAt stored)) w0'
  = (inr (before ++ reply :: after), w1) ->
  processReplies rt world config
    (ls_emailMappings (loadStoredSummary stored)) before w1
  = (inr done, w2) ->
  stub_id reply = Some rid ->
  rid <> "" ->
  respond world _ w2 (Api.getMessageContent rid) = inr content ->
  Js.trim content <> "" ->
  respond world _ (w2 ++ [Called (Api.getMessageContent rid)])
    (Api.messages_create (anthropic_model config) 4096 3
       (buildParsePrompt content None)) = inr blocks ->
  find_text blocks = Some text ->
  JSON_parse_ParseResponse rt (jsonStr_of text) = None ->
  processReplyCommands rt world config w0
  = (inl (JsError "Failed to parse JSON from Claude response"),
     w2 ++ [Called (Api.getMessageContent rid);
            Called (Api.messages_create (anthropic_model config) 4096 3
                      (buildParsePrompt content None))]).
Proof.
  intros Hload Hsearch Hbefore Hid Hne Hcontent Htrim Hmodel Htext Hjson.
  unfold processReplyCommands.
  rewrite (bind_returns _ _ _ _ _ Hload).
  rewrite (bind_returns _ _ _ _ _ Hsearch).
  rewrite length_app. simpl.
  replace (length before + S (length after) =? 0)%nat with false
    by (symmetry; apply Nat.eqb_neq; lia).
  apply bind_throws. unfold processReplies.
  eapply foldM_abort; [exact Hbefore|].
  by eapply processReply_json_failure.
Qed.

(** Three replies to the latest stored summary, the second of which the
    model cannot read: the first is executed, the pass throws, the third
    is never looked at. *)
Lemma json_failure_aborts_pass_witness :
  processReplyCommands Demo.rt
    (Demo.world [Demo.stub "reply-0"; Demo.stub "reply-1"; Demo.stub "reply-2"]
       "Report" "")
    (Demo.config false) []
  = (inl (JsError "Failed to parse JSON from Claude response"),
     [Called (Api.fs_readdir "/data/summaries");
      Called (Api.fs_readFile "/data/summaries/2026-01-15.json");
      Called (Api.messages_list
                ("in:sent subject:" +:+ Js.quoted "Re: Daily Email Summary" +:+
                 " after:1768464000") 10);
      Called (Api.getMessageContent "reply-0");
      Called (Api.messages_create "claude-sonnet-4-20250514" 4096 3
                (buildParsePrompt "Archive EMAIL-003" None));
      Called (Api.archiveEmail "18c2f9a1b2")]
     ++ [Called (Api.getMessageContent "reply-1");
         Called (Api.messages_create "claude-sonnet-4-20250514" 4096 3
                   (buildParsePrompt "Please tidy up my inbox somehow" None))]).
Proof.
  apply (json_failure_aborts_pass Demo.rt _ (Demo.config false) []
           [Called (Api.fs_readdir "/data/summaries");
            Called (Api.fs_readFile "/data/summaries/2026-01-15.json")]
           Demo.stored [Demo.stub "reply-0"] (Demo.stub "reply-1")
           [Demo.stub "reply-2"]
           [Called (Api.fs_readdir "/data/summaries");
            Called (Api.fs_readFile "/data/summaries/2026-01-15.json");
            Called (Api.messages_list
                      ("in:sent subject:" +:+
                       Js.quoted "Re: Daily Email Summary" +:+
                       " after:1768464000") 10)]
           [succeeded_result
              (mkCommand "EMAIL-003" (Some "18c2f9a1b2") Archive)]
           _ "reply-1" "Please tidy up my inbox somehow"
           [TextBlock "I am not sure what you would like me to do."]
           "I am not sure what you would like me to do.");
    try (vm_compute; reflexivity); vm_compute; discriminate.
Defined.

(** Two replies, the first of which the model cannot read. The pass
    throws and returns nothing, and the second reply is never fetched,
    although on its own it gives one Command Result. *)
Lemma parse_failure_loses_later_replies :
  fst (processReplyCommands Demo.rt
         (Demo.world [Demo.stub "reply-1"; Demo.stub "reply-2"] "Report" "")
         (Demo.config false) [])
  = inl (JsError "Failed to parse JSON from Claude response") /\
  omap content_read
    (snd (processReplyCommands Demo.rt
            (Demo.world [Demo.stub "reply-1"; Demo.stub "reply-2"] "Report" "")
            (Demo.config false) []))
  = ["reply-1"] /\
  fst (processReplyCommands Demo.rt
         (Demo.world [Demo.stub "reply-2"] "Report" "")
         (Demo.config false) [])
  = inr [succeeded_result
           (mkCommand "EMAIL-003" (Some "18c2f9a1b2") Archive)].
Proof. repeat split; vm_compute; reflexivity. Qed.

(** C10. The reply search asks the provider for at most ten messages
    ([maxResults: 10]) and follows no further page. With a provider that
    keeps to [maxResults], it returns at most ten replies; a
    command-intake pass then asks the model to parse at most ten replies,
    and the results it returns are those of at most ten replies, however
    many replies the mailbox holds. *)
Theorem reply_search_bounded (rt : Runtime) (world : Oracle)
    (config : Config) :
  honours_maxResults world ->
  (forall subject afterDate w r w',
     searchReplies world subject afterDate w = (r, w') ->
     exists q, w' = w ++ [Called (Api.messages_list q 10)]) /\
  (forall subject afterDate w replies w',
     searchReplies world subject afterDate w = (inr replies, w') ->
     length replies <= 10) /\
  (forall w r w',
     processReplyCommands rt world config w = (r, w') ->
     exists t, w' = w ++ t /\ model_calls t <= 10) /\
  (forall w results w',
     processReplyCommands rt world config w = (inr results, w') ->
     results = [] \/
     exists stored replies w1 w2,
       length replies <= 10 /\
       processReplies rt world config
         (ls_emailMappings (loadStoredSummary stored)) replies w1
       = (inr results, w2)).
Proof.
  intros Hmax. split; [|split; [|split]].
  - intros subject afterDate w r w'. apply searchReplies_request.
  - intros subject afterDate w replies w'. by apply searchReplies_length.
  - by apply makes_processReplyCommands.
  - intros w results w'. by apply processReplyCommands_results.
Qed.

(** ** Runs on the concrete worlds *)

Lemma Demo_honours_maxResults listing subject broken :
  honours_maxResults (Demo.world listing subject broken).
Proof.
  intros w q maxResults messages [= <-]. rewrite length_take. lia.
Qed.

(** Twelve replies in the mailbox: ten are listed, and the model is asked
    ten times. *)
Lemma reply_search_bounded_witness :
  honours_maxResults (Demo.world Demo.twelve "Report" "") /\
  length Demo.twelve = 12 /\
  (exists t,
     snd (processReplyCommands Demo.rt (Demo.world Demo.twelve "Report" "")
            (Demo.config false) [])
     = [] ++ t /\
     model_calls t <= 10).
Proof.
  split; [apply Demo_honours_maxResults|]. split; [reflexivity|].
  destruct (reply_search_bounded Demo.rt (Demo.world Demo.twelve "Report" "")
              (Demo.config false) (Demo_honours_maxResults _ _ _))
    as (_ & _ & Hpass & _).
  apply (Hpass []
           (fst (processReplyCommands Demo.rt
                   (Demo.world Demo.twelve "Report" "")
                   (Demo.config false) []))).
  apply surjective_pairing.
Defined.

Example reply_search_twelve :
  model_calls
    (snd (processReplyCommands Demo.rt (Demo.world Demo.twelve "Report" "")
            (Demo.config false) []))
  = 10 /\
  match fst (processReplyCommands Demo.rt
               (Demo.world Demo.twelve "Report" "")
               (Demo.config false) []) with
  | inr results => length results
  | inl _ => 0
  end = 10.
Proof. split; vm_compute; reflexivity. Qed.

(** A fetched batch of two (the entry without an id is skipped, its
    position is not reused) and a response that names one of them. *)
Lemma summary_mapping_complete_witness :
  listRecentEmails (Demo.world Demo.inbox "Report" "") (Demo.config false)
    24 []
  = (inr Demo.batch,
     [Called (Api.messages_list "newer_than:24h" 50);
      Called (Api.messages_get "a"); Called (Api.messages_get "c")]) /\
  (size (emailMappings
           (createSummary Demo.batch Demo.response "summary-2" 1768470000000))
   = length Demo.batch /\
   (forall e, e ∈ Demo.batch ->
      emailMappings
        (createSummary Demo.batch Demo.response "summary-2" 1768470000000)
        !! referenceId e = Some (id e)) /\
   (forall k v,
      emailMappings
        (createSummary Demo.batch Demo.response "summary-2" 1768470000000)
        !! k = Some v ->
      exists e, e ∈ Demo.batch /\ referenceId e = k /\ id e = v)).
Proof.
  assert (listRecentEmails (Demo.world Demo.inbox "Report" "")
            (Demo.config false) 24 []
          = (inr Demo.batch,
             [Called (Api.messages_list "newer_than:24h" 50);
              Called (Api.messages_get "a"); Called (Api.messages_get "c")]))
    as Hfetch by (vm_compute; reflexivity).
  split; [exact Hfetch|].
  exact (summary_mapping_complete _ _ _ _ _ _ Demo.response "summary-2"
           1768470000000 Hfetch).
Defined.

Example createSummary_demo :
  (fun m : gmap string string =>
     (m !! "EMAIL-001", m !! "EMAIL-002", m !! "EMAIL-003"))
    (emailMappings
       (createSummary Demo.batch Demo.response "summary-2" 1768470000000))
  = (Some "a", None, Some "c") /\
  ai_fromEmail <$>
    actionItems
      (createSummary Demo.batch Demo.response "summary-2" 1768470000000)
  = ["ann@example.com"].
Proof. split; vm_compute; reflexivity. Qed.

(** ** The latest stored summary *)

(** The greatest element of a list of names heads its sorted list,
    reversed. *)
Lemma sort_reverse_head (l : list string) (top : string) :
  top ∈ l ->
  Forall (fun f => String.le f top) l ->
  exists rest, reverse (Js.sort l) = top :: rest.
Proof.
  intros Hin Hmax. unfold Js.sort.
  pose proof (StronglySorted_merge_sort String.le l) as Hsorted.
  pose proof (merge_sort_Permutation String.le l) as Hperm.
  destruct (merge_sort String.le l) as [|x s] using rev_ind.
  - rewrite <- Hperm in Hin. by apply elem_of_nil in Hin.
  - clear IHs. rewrite reverse_snoc. exists (reverse s). f_equal.
    assert (String.le x top) as Hx.
    { rewrite Forall_forall in Hmax. apply Hmax. rewrite <- Hperm.
      apply elem_of_app. right. by apply list_elem_of_singleton. }
    assert (String.le top x) as Htop.
    { rewrite <- Hperm in Hin. apply elem_of_app in Hin as [Hin|Hin].
      - eapply StronglySorted_app_1_elem_of; [exact Hsorted|done|].
        by apply list_elem_of_singleton.
      - apply list_elem_of_singleton in Hin as ->. done. }
    by apply (anti_symm String.le).
Qed.

(** X1. [loadLatestSummary] never throws: whatever the file system answers
    (a missing directory, an unreadable file, a text that is not JSON), it
    returns, with a stored summary or with [null]. *)
Theorem loadLatestSummary_never_throws (rt : Runtime) (world : Oracle)
    (config : Config) (w : Trace) :
  exists stored w',
    loadLatestSummary rt world config w = (inr stored, w').
Proof.
  unfold loadLatestSummary, try_catch, bind, call, ret.
  destruct (respond world _ w _) as [e|files]; [eauto|].
  cbv zeta. destruct (reverse _) as [|first rest]; [eauto|].
  destruct (respond world _ _ _) as [e|content]; eauto.
Qed.

(** X2. Of the names in the summary directory, [loadLatestSummary] reads
    exactly one file: the one whose name ends in [.json] and is the
    greatest of those in the order of the character codes (with files
    named by date, the latest day). What it returns is the parse of that
    file's text, and [null] when the file cannot be read. *)
Theorem loadLatestSummary_reads_latest (rt : Runtime) (world : Oracle)
    (config : Config) (w : Trace) (files : list string) (latest : string) :
  respond world _ w (Api.fs_readdir (paths_summaryStorage config))
  = inr files ->
  latest ∈ files ->
  Js.endsWith ".json" latest = true ->
  Forall (fun f => Js.endsWith ".json" f = true -> String.le f latest)
    files ->
  loadLatestSummary rt world config w
  = (inr match
           respond world _
             (w ++ [Called (Api.fs_readdir (paths_summaryStorage config))])
             (Api.fs_readFile
                (path_join rt (paths_summaryStorage config) latest))
         with
         | inr content => JSON_parse_StoredSummary rt content
         | inl _ => None
         end,
     w ++ [Called (Api.fs_readdir (paths_summaryStorage config));
           Called (Api.fs_readFile
                     (path_join rt (paths_summaryStorage config) latest))]).
Proof.
  intros Hdir Hin Hjson Hmax.
  destruct (sort_reverse_head
              (List.filter (Js.endsWith ".json") files) latest)
    as [rest Hsorted].
  - apply list_elem_of_In, List.filter_In. split; [|done].
    by apply list_elem_of_In.
  - apply Forall_forall. intros f [Hf Hfjson]%list_elem_of_In%List.filter_In.
    rewrite Forall_forall in Hmax. apply Hmax; [|done].
    by apply list_elem_of_In.
  - unfold loadLatestSummary, try_catch, bind, call, ret.
    rewrite Hdir. cbv zeta. rewrite Hsorted.
    destruct (respond world string _ _) as [e|content];
      by rewrite <- app_assoc.
Qed.

(** The latest of the two summaries of the demonstration directory is the
    one read. *)
Lemma loadLatestSummary_reads_latest_witness :
  loadLatestSummary Demo.rt (Demo.world [] "Report" "") (Demo.config false) []
  = (inr (Some Demo.stored),
     [Called (Api.fs_readdir "/data/summaries");
      Called (Api.fs_readFile "/data/summaries/2026-01-15.json")]).
Proof.
  apply (loadLatestSummary_reads_latest Demo.rt (Demo.world [] "Report" "")
           (Demo.config false) []
           ["2026-01-14.json"; "notes.txt"; "2026-01-15.json"]
           "2026-01-15.json").
  - reflexivity.
  - by apply (bool_decide_unpack _).
  - reflexivity.
  - repeat constructor; vm_compute; done.
Defined.

(** X3. When the summary directory cannot be listed (before the first
    summary was stored, say) or holds no name ending in [.json], a
    command-intake pass returns no results and does not throw: it has
    listed the directory and done nothing else, so the mailbox was not
    searched and the model not asked. *)
Theorem no_stored_summary_no_pass (rt : Runtime) (world : Oracle)
    (config : Config) (w : Trace) :
  match respond world _ w (Api.fs_readdir (paths_summaryStorage config)) with
  | inl _ => True
  | inr files => Forall (fun f => Js.endsWith ".json" f = false) files
  end ->
  processReplyCommands rt world config w
  = (inr [], w ++ [Called (Api.fs_readdir (paths_summaryStorage config))]).
Proof.
  intros Hdir.
  assert (loadLatestSummary rt world config w
          = (inr None,
             w ++ [Called (Api.fs_readdir (paths_summaryStorage config))]))
    as Hload.
  { unfold loadLatestSummary, try_catch, bind, call, ret.
    destruct (respond world _ w _) as [e|files]; [done|].
    cbv zeta.
    replace (List.filter (Js.endsWith ".json") files) with (@nil string);
      [done|].
    symmetry. induction Hdir as [|f files Hf _ IH]; [done|].
    simpl. by rewrite Hf. }
  unfold processReplyCommands. by rewrite (bind_returns _ _ _ _ _ Hload).
Qed.

(** A first run: the directory does not exist yet. *)
Lemma no_stored_summary_no_pass_witness :
  processReplyCommands Demo.rt
    (Faulty.world true "" [Demo.stub "reply-0"] "Report")
    (Demo.config false) []
  = (inr [], [Called (Api.fs_readdir "/data/summaries")]).
Proof.
  apply (no_stored_summary_no_pass Demo.rt
           (Faulty.world true "" [Demo.stub "reply-0"] "Report")
           (Demo.config false) []).
  exact I.
Defined.

(** ** What executing commands does to the mailbox *)

Section Changes.

Variable rt : Runtime.
Variable world : Oracle.
Variable config : Config.

Lemma changes_perform cmd gmailId :
  makes state_changing 1 (perform rt world cmd gmailId).
Proof.
  unfold perform. destruct (kind cmd).
  - apply (makes_bind _ 0 1); [apply (makes_getEmail world state_changing)|].
    intros original.
    apply (makes_bind _ 1 0);
      [apply (makes_call world state_changing (Api.replyToEmail _ _ _ _ _))|].
    intros. apply makes_ret.
  - apply (makes_bind _ 0 1); [apply (makes_getEmail world state_changing)|].
    intros original.
    apply (makes_bind _ 1 0);
      [apply (makes_call world state_changing (Api.sendEmail _ _ _ _))|].
    intros. apply makes_ret.
  - apply (makes_call world state_changing (Api.archiveEmail _)).
  - apply (makes_call world state_changing (Api.deleteEmail _)).
  - apply (makes_call world state_changing (Api.markAsRead _)).
  - apply (makes_call world state_changing (Api.markAsUnread _)).
  - apply (makes_call world state_changing (Api.starEmail _)).
  - apply (makes_call world state_changing (Api.unstarEmail _)).
  - apply (makes_call world state_changing (Api.addLabel _ _)).
Qed.

Lemma changes_executeCommand cmd :
  makes state_changing 1 (executeCommand rt world config cmd).
Proof.
  unfold executeCommand.
  destruct (negb (Js.truthy (targetGmailId cmd)));
    [apply makes_none, makes_ret|].
  destruct (dryRun (agent config)); [apply makes_none, makes_ret|].
  apply (makes_try_catch _ 1 0).
  - apply (makes_bind _ 1 0); [apply changes_perform|]. intros.
    apply makes_ret.
  - intros. apply makes_ret.
Qed.

Lemma changes_executeCommands commands :
  makes state_changing (length commands)
    (executeCommands rt world config commands).
Proof.
  eapply makes_weaken; [|apply (makes_foldM _ 1)].
  - lia.
  - intros acc cmd. apply (makes_bind _ 1 0); [apply changes_executeCommand|].
    intros. apply makes_ret.
Qed.

(** A batch that returned has changed the mailbox at most once per
    result. *)
Lemma executeCommands_accounted commands w results w' :
  executeCommands rt world config commands w = (inr results, w') ->
  exists t, w' = w ++ t /\ changes t <= length results.
Proof.
  intros Hrun.
  destruct (executes_total rt world config commands w)
    as (results0 & w0 & Hex).
  pose proof (executes_run _ _ _ _ _ _ _ Hex) as Hrun0.
  rewrite Hrun in Hrun0. injection Hrun0 as <- <-.
  destruct (executes_length _ _ _ _ _ _ _ Hex) as [-> _].
  apply (changes_executeCommands commands _ _ _ Hrun).
Qed.

Lemma processReply_accounted emailMappings acc reply w results w' :
  processReply rt world config emailMappings acc reply w
  = (inr results, w') ->
  exists t, w' = w ++ t /\ changes t + length acc <= length results.
Proof.
  unfold processReply.
  destruct (negb (Js.truthy (stub_id reply))).
  { intros [= <- <-]. exists []. rewrite app_nil_r. by split. }
  intros (content & w1 & Hread & Hrest)%bind_inr_inv.
  destruct (makes_call world state_changing _ _ _ _ Hread)
    as (t1 & -> & Ht1).
  destruct (String.eqb (Js.trim content) "").
  { injection Hrest as <- <-. exists t1. split; [done|].
    unfold changes. simpl in Ht1. lia. }
  apply bind_inr_inv in Hrest as (parsed & w2 & Hparse & Hrest).
  destruct (makes_parseCommands rt world config state_changing _ _ _ _ _
              Hparse) as (t2 & -> & Ht2).
  apply bind_inr_inv in Hrest as (res & w3 & Hexec & [= <- <-]).
  destruct (executeCommands_accounted _ _ _ _ Hexec) as (t3 & -> & Ht3).
  exists (t1 ++ t2 ++ t3). split; [by rewrite !app_assoc|].
  unfold changes in *. rewrite !count_calls_app, length_app.
  simpl in Ht1, Ht2. lia.
Qed.

Lemma processReplies_accounted emailMappings replies acc w results w' :
  foldM (processReply rt world config emailMappings) acc replies w
  = (inr results, w') ->
  exists t, w' = w ++ t /\ changes t + length acc <= length results.
Proof.
  revert acc w. induction replies as [|reply replies IH]; intros acc w.
  - intros [= <- <-]. exists []. rewrite app_nil_r. by split.
  - simpl. intros (acc1 & w1 & Hone & Hrest)%bind_inr_inv.
    destruct (processReply_accounted _ _ _ _ _ _ Hone) as (t1 & -> & Ht1).
    destruct (IH _ _ Hrest) as (t2 & -> & Ht2).
    exists (t1 ++ t2). split; [by rewrite app_assoc|].
    unfold changes in *. rewrite count_calls_app. lia.
Qed.

Lemma changes_sendConfirmationEmail results :
  makes state_changing 1 (sendConfirmationEmail rt world config results).
Proof.
  unfold sendConfirmationEmail.
  apply (makes_bind _ 0 1);
    [apply (makes_call world state_changing Api.Date_now)|].
  intros now1.
  apply (makes_bind _ 0 1);
    [apply (makes_call world state_changing Api.Date_now)|].
  intros now2.
  apply (makes_bind _ 1 0);
    [apply (makes_call world state_changing (Api.sendEmail _ _ _ _))|].
  intros. apply makes_ret.
Qed.

(** What [sendConfirmationEmail] leaves on the trace when it returns. *)
Lemma sendConfirmationEmail_sent results w u w' :
  sendConfirmationEmail rt world config results w = (inr u, w') ->
  exists w0 now htmlBody,
    w' = w0 ++ [Called (Api.sendEmail (user_email config)
                          ("Agent Actions Completed - " +:+
                           formatDate rt now)
                          htmlBody None)].
Proof.
  unfold sendConfirmationEmail.
  intros (now1 & w1 & _ & Hrest)%bind_inr_inv.
  apply bind_inr_inv in Hrest as (now2 & w2 & _ & Hrest).
  apply bind_inr_inv in Hrest as (sent & w3 & Hsend & [= _ <-]).
  unfold call in Hsend. injection Hsend as _ <-. eauto.
Qed.

End Changes.

(** X4. A command is executed with at most one call that changes the
    mailbox, in any mode and whatever the mailbox answers; a batch of
    commands with at most one such call per command. *)
Theorem executeCommand_one_change (rt : Runtime) (world : Oracle)
    (config : Config) (w : Trace) :
  (forall cmd, exists t,
     snd (executeCommand rt world config cmd w) = w ++ t /\
     changes t <= 1) /\
  (forall commands, exists t,
     snd (executeCommands rt world config commands w) = w ++ t /\
     changes t <= length commands).
Proof.
  split.
  - intros cmd.
    apply (changes_executeCommand rt world config cmd w
             (fst (executeCommand rt world config cmd w))).
    apply surjective_pairing.
  - intros commands.
    apply (changes_executeCommands rt world config commands w
             (fst (executeCommands rt world config commands w))).
    apply surjective_pairing.
Qed.

(** X5. A reply or a forward first fetches the original message. When
    that fetch fails, nothing is sent: the command gets a failure result
    with the message of the error, and the fetch is the only call made. *)
Theorem original_unavailable_nothing_sent (rt : Runtime) (world : Oracle)
    (config : Config) (cmd : Command) (gmailId : string) (w : Trace)
    (e : Thrown) :
  match kind cmd with Reply _ | Forward _ _ => True | _ => False end ->
  targetGmailId cmd = Some gmailId ->
  gmailId <> "" ->
  dryRun (agent config) = false ->
  respond world _ w (Api.messages_get gmailId) = inl e ->
  executeCommand rt world config cmd w
  = (inr (failed_result cmd e), w ++ [Called (Api.messages_get gmailId)]).
Proof.
  intros Hkind Hid Hne Hdry Hget.
  rewrite (executeCommand_performed _ _ _ _ gmailId) by done.
  unfold perform, getEmail, bind, call.
  destruct (kind cmd); try done; by rewrite Hget.
Qed.

Lemma original_unavailable_nothing_sent_witness :
  executeCommand Demo.rt (Faulty.world false "gone" [] "Report")
    (Demo.config false)
    (mkCommand "EMAIL-002" (Some "gone") (Reply "Thanks, see you then")) []
  = (inr (failed_result
            (mkCommand "EMAIL-002" (Some "gone")
               (Reply "Thanks, see you then"))
            (JsError "Requested entity was not found.")),
     [Called (Api.messages_get "gone")]).
Proof.
  apply (original_unavailable_nothing_sent Demo.rt
           (Faulty.world false "gone" [] "Report") (Demo.config false)
           (mkCommand "EMAIL-002" (Some "gone")
              (Reply "Thanks, see you then"))
           "gone" [] (JsError "Requested entity was not found."));
    [exact I|reflexivity|discriminate|reflexivity|reflexivity].
Defined.

(** X6. In dry-run mode a whole command-intake pass changes nothing in the
    mailbox, whether it returns or throws: replies are read and parsed,
    but no command is carried out and no confirmation is sent. *)
Theorem dry_run_pass_changes_nothing (rt : Runtime) (world : Oracle)
    (config : Config) (w : Trace) :
  dryRun (agent config) = true ->
  exists t,
    snd (processReplyCommands rt world config w) = w ++ t /\
    changes t = 0.
Proof.
  intros Hdry.
  destruct (dry_processReplyCommands rt world config Hdry w
              (fst (processReplyCommands rt world config w))
              (snd (processReplyCommands rt world config w)))
    as (t & Ht & Hcount); [apply surjective_pairing|].
  exists t. split; [done|]. unfold changes. lia.
Qed.

Lemma dry_run_pass_changes_nothing_witness :
  exists t,
    snd (processReplyCommands Demo.rt
           (Demo.world [Demo.stub "reply-0"] "Report" "")
           (Demo.config true) [])
    = [] ++ t /\
    changes t = 0.
Proof.
  apply (dry_run_pass_changes_nothing Demo.rt
           (Demo.world [Demo.stub "reply-0"] "Report" "")
           (Demo.config true) []).
  reflexivity.
Defined.

(** X7. Every change a returned pass made to the mailbox is accounted
    for by its results: at most one change per Command Result, and one
    more for the confirmation email. A pass that returns no result has
    changed nothing. *)
Theorem pass_changes_accounted (rt : Runtime) (world : Oracle)
    (config : Config) (w : Trace) (results : list CommandResult)
    (w' : Trace) :
  processReplyCommands rt world config w = (inr results, w') ->
  exists t,
    w' = w ++ t /\
    changes t <= match results with
                 | [] => 0
                 | _ :: _ => S (length results)
                 end.
Proof.
  unfold processReplyCommands.
  intros (stored & w0 & Hload & Hrest)%bind_inr_inv.
  destruct (makes_loadLatestSummary rt world config state_changing
              (fun _ => eq_refl) (fun _ => eq_refl) _ _ _ Hload)
    as (t0 & -> & Ht0).
  destruct stored as [stored|];
    [|injection Hrest as <- <-; exists t0; split; [done|exact Ht0]].
  apply bind_inr_inv in Hrest as (replies & w1 & Hsearch & Hrest).
  destruct (makes_searchReplies world state_changing _ _
              (fun _ => eq_refl) _ _ _ Hsearch) as (t1 & -> & Ht1).
  destruct (length replies =? 0)%nat.
  { injection Hrest as <- <-. exists (t0 ++ t1).
    split; [by rewrite app_assoc|].
    unfold changes. rewrite count_calls_app. lia. }
  apply bind_inr_inv in Hrest as (allResults & w2 & Hloop & Hrest).
  destruct (processReplies_accounted _ _ _ _ _ _ _ _ _ Hloop)
    as (t2 & -> & Ht2).
  unfold changes in *. simpl in Ht2.
  destruct allResults as [|r0 allResults]; simpl in Hrest.
  { injection Hrest as <- <-. exists (t0 ++ t1 ++ t2).
    split; [by rewrite !app_assoc|].
    rewrite !count_calls_app. simpl in Ht2. lia. }
  destruct (negb (dryRun (agent config))).
  - apply bind_inr_inv in Hrest as (u & w3 & Hsend & [= <- <-]).
    destruct (changes_sendConfirmationEmail _ _ _ _ _ _ _ Hsend)
      as (t3 & -> & Ht3).
    exists (t0 ++ t1 ++ t2 ++ t3). split; [by rewrite !app_assoc|].
    rewrite !count_calls_app. simpl in *. lia.
  - injection Hrest as <- <-. exists (t0 ++ t1 ++ t2).
    split; [by rewrite !app_assoc|].
    rewrite !count_calls_app. simpl in *. lia.
Qed.

(** One reply that archives one message: one result, two changes (the
    archiving and the confirmation). *)
Lemma pass_changes_accounted_witness :
  exists t,
    snd (processReplyCommands Demo.rt
           (Demo.world [Demo.stub "reply-0"] "Report" "")
           (Demo.config false) [])
    = [] ++ t /\
    changes t <= 2.
Proof.
  apply (pass_changes_accounted Demo.rt
           (Demo.world [Demo.stub "reply-0"] "Report" "")
           (Demo.config false) []
           [succeeded_result
              (mkCommand "EMAIL-003" (Some "18c2f9a1b2") Archive)]).
  vm_compute. reflexivity.
Defined.

(** X8. Outside dry-run, a pass that returns at least one result has
    ended by sending the confirmation email, to the user's own address
    and under the subject [Agent Actions Completed - <date>]. *)
Theorem pass_ends_with_confirmation (rt : Runtime) (world : Oracle)
    (config : Config) (w : Trace) (results : list CommandResult)
    (w' : Trace) :
  dryRun (agent config) = false ->
  processReplyCommands rt world config w = (inr results, w') ->
  results <> [] ->
  exists w0 now htmlBody,
    w' = w0 ++ [Called (Api.sendEmail (user_email config)
                          ("Agent Actions Completed - " +:+ formatDate rt now)
                          htmlBody None)].
Proof.
  intros Hdry Hrun Hne. unfold processReplyCommands in Hrun.
  rewrite Hdry in Hrun.
  apply bind_inr_inv in Hrun as ([stored|] & w0 & _ & Hrest);
    [|by injection Hrest as <- _].
  apply bind_inr_inv in Hrest as (replies & w1 & _ & Hrest).
  destruct (length replies =? 0)%nat; [by injection Hrest as <- _|].
  apply bind_inr_inv in Hrest as (allResults & w2 & _ & Hrest).
  destruct allResults as [|r0 allResults]; simpl in Hrest;
    [by injection Hrest as <- _|].
  apply bind_inr_inv in Hrest as (u & w3 & Hsend & [= _ <-]).
  by eapply sendConfirmationEmail_sent.
Qed.

Lemma pass_ends_with_confirmation_witness :
  exists w0 now htmlBody,
    snd (processReplyCommands Demo.rt
           (Demo.world [Demo.stub "reply-0"] "Report" "")
           (Demo.config false) [])
    = w0 ++ [Called (Api.sendEmail "me@example.com"
                       ("Agent Actions Completed - " +:+
                        formatDate Demo.rt now)
                       htmlBody None)].
Proof.
  apply (pass_ends_with_confirmation Demo.rt
           (Demo.world [Demo.stub "reply-0"] "Report" "")
           (Demo.config false) []
           [succeeded_result
              (mkCommand "EMAIL-003" (Some "18c2f9a1b2") Archive)]);
    [reflexivity|vm_compute; reflexivity|discriminate].
Defined.

(** ** Fetching and summarising *)

Section Fetched.

Variable world : Oracle.

Lemma fetchable_cons i msg messages :
  fetchable i (msg :: messages)
  = (if Js.truthy (stub_id msg) then [(i, default "" (stub_id msg))]
     else []) ++ fetchable (S i) messages.
Proof.
  unfold fetchable. rewrite imap_cons. simpl. rewrite Nat.add_0_r.
  rewrite (imap_ext _ (fun j msg => (S i + j, msg)))
    by (intros; simpl; f_equal; lia).
  by destruct (Js.truthy (stub_id msg)).
Qed.

(** The loop fetches the entries that have an id, in the order of the
    listing, and numbers each by its position in the listing. *)
Lemma fetchEmails_fetchable messages i emails w result w' :
  fetchEmails world messages i emails w = (inr result, w') ->
  referenceId <$> result
  = (referenceId <$> emails)
    ++ ((fun p => generateReferenceId p.1) <$> fetchable i messages) /\
  w' = w ++ ((fun p => Called (Api.messages_get p.2))
               <$> fetchable i messages).
Proof.
  revert i emails w.
  induction messages as [|msg messages IH]; intros i emails w; simpl.
  - intros [= <- <-]. by rewrite !app_nil_r.
  - rewrite fetchable_cons. destruct (Js.truthy (stub_id msg)).
    + intros (email & w1 & Hget & Hrest)%bind_inr_inv.
      destruct (IH _ _ _ Hrest) as [Htokens ->].
      rewrite Htokens, fmap_app. simpl.
      rewrite (getEmail_token _ _ _ _ _ _ Hget).
      unfold getEmail in Hget.
      apply bind_inr_inv in Hget as (data & w2 & Hcall & [= _ <-]).
      unfold call in Hcall. injection Hcall as _ <-.
      by rewrite <- !app_assoc.
    + apply IH.
Qed.

End Fetched.

(** X9. [listRecentEmails] asks for the messages newer than the given
    number of hours, at most [maxEmailsPerRun] of them, and then fetches
    the listed entries that have an id, one call each, in the order of the
    listing. An email's token is the token of its position in the listing:
    an entry without an id is skipped and its number is not given to the
    next email. *)
Theorem listRecentEmails_numbering (world : Oracle) (config : Config)
    (hoursBack : nat) (w : Trace) (emails : list Email) (w' : Trace) :
  listRecentEmails world config hoursBack w = (inr emails, w') ->
  exists listing,
    respond world _ w
      (Api.messages_list ("newer_than:" +:+ pretty hoursBack +:+ "h")
         (maxEmailsPerRun (agent config)))
    = inr listing /\
    referenceId <$> emails
    = (fun p => generateReferenceId p.1) <$> fetchable 0 (default [] listing) /\
    w' = w ++
         Called (Api.messages_list ("newer_than:" +:+ pretty hoursBack +:+ "h")
                   (maxEmailsPerRun (agent config)))
         :: ((fun p => Called (Api.messages_get p.2))
               <$> fetchable 0 (default [] listing)).
Proof.
  unfold listRecentEmails.
  intros (listing & w1 & Hlist & Hfetch)%bind_inr_inv.
  unfold call in Hlist. injection Hlist as Hlist <-.
  exists listing. split; [done|].
  destruct (fetchEmails_fetchable _ _ _ _ _ _ _ Hfetch) as [Htokens ->].
  split; [done|]. by rewrite <- app_assoc.
Qed.

(** A listing of three entries, the second without an id: two emails,
    numbered 1 and 3. *)
Lemma listRecentEmails_numbering_witness :
  exists listing,
    respond (Demo.world Demo.inbox "Report" "") _ []
      (Api.messages_list ("newer_than:" +:+ pretty 24 +:+ "h") 50)
    = inr listing /\
    referenceId <$> Demo.batch
    = (fun p => generateReferenceId p.1) <$> fetchable 0 (default [] listing) /\
    [Called (Api.messages_list "newer_than:24h" 50);
     Called (Api.messages_get "a"); Called (Api.messages_get "c")]
    = [] ++
      Called (Api.messages_list ("newer_than:" +:+ pretty 24 +:+ "h") 50)
      :: ((fun p => Called (Api.messages_get p.2))
            <$> fetchable 0 (default [] listing)).
Proof.
  apply (listRecentEmails_numbering (Demo.world Demo.inbox "Report" "")
           (Demo.config false) 24 [] Demo.batch).
  vm_compute. reflexivity.
Defined.

Section Items.

Lemma find_email_only emails e :
  NoDup (referenceId <$> emails) ->
  e ∈ emails ->
  find_email emails (referenceId e) = Some e.
Proof.
  unfold find_email.
  induction emails as [|e0 emails IH]; intros Hnd He;
    [by apply elem_of_nil in He|].
  rewrite fmap_cons in Hnd. apply NoDup_cons in Hnd as [Hfresh Hnd].
  simpl. destruct (String.eqb_spec (referenceId e0) (referenceId e))
    as [Heq|Hne].
  - apply elem_of_cons in He as [->|He]; [done|]. exfalso.
    apply Hfresh. rewrite Heq.
    by apply (list_elem_of_fmap_2 referenceId).
  - apply elem_of_cons in He as [->|He]; [done|]. by apply IH.
Qed.

Lemma find_email_none emails ref :
  Forall (fun e => referenceId e <> ref) emails ->
  find_email emails ref = None.
Proof.
  unfold find_email. induction 1 as [|e emails Hne _ IH]; [done|].
  simpl. by destruct (String.eqb_spec (referenceId e) ref).
Qed.

Lemma createSummary_unmapped emails response uuid now ref :
  Forall (fun e => referenceId e <> ref) emails ->
  emailMappings (createSummary emails response uuid now) !! ref = None.
Proof.
  intros Hnone. rewrite createSummary_mappings.
  apply not_elem_of_list_to_map_1.
  rewrite fmap_reverse, elem_of_reverse, <- list_fmap_compose.
  intros (e & -> & He)%list_elem_of_fmap.
  rewrite Forall_forall in Hnone. by apply (Hnone e He).
Qed.

End Items.

(** X10. The action items of a summary are the model's, one for one and
    in its order. For a batch with distinct tokens, an item whose
    reference is the token of an email of the batch shows that email's
    sender and subject, and the summary maps the reference to that
    email's provider id: the item describes the email a command on it will
    act on. An item whose reference no email carries is kept, with an
    empty sender and subject, and its reference maps to nothing. *)
Theorem action_items_describe_mapped_email (emails : list Email)
    (response : SummaryResponse) (uuid : string) (now : Z) :
  NoDup (referenceId <$> emails) ->
  length (actionItems (createSummary emails response uuid now))
  = length (sr_actionItems response) /\
  (forall k item e,
     sr_actionItems response !! k = Some item ->
     e ∈ emails ->
     referenceId e = ra_referenceId item ->
     actionItems (createSummary emails response uuid now) !! k
     = Some (mkActionItem (ra_referenceId item) (ra_priority item)
               (ra_description item) (ra_suggestedAction item)
               (address (from e)) (subject e)) /\
     emailMappings (createSummary emails response uuid now)
       !! ra_referenceId item
     = Some (id e)) /\
  (forall k item,
     sr_actionItems response !! k = Some item ->
     Forall (fun e => referenceId e <> ra_referenceId item) emails ->
     actionItems (createSummary emails response uuid now) !! k
     = Some (mkActionItem (ra_referenceId item) (ra_priority item)
               (ra_description item) (ra_suggestedAction item) "" "") /\
     emailMappings (createSummary emails response uuid now)
       !! ra_referenceId item
     = None).
Proof.
  intros Hnd. split; [|split].
  - unfold createSummary; simpl. by rewrite length_map.
  - intros k item e Hk He Href. split.
    + unfold createSummary; simpl.
      change (@List.map ?A ?B) with (@fmap list _ A B).
      rewrite list_lookup_fmap, Hk. simpl.
      rewrite <- Href, (find_email_only _ _ Hnd He).
      by rewrite !or_else_empty.
    + rewrite <- Href.
      by apply (createSummary_mappings_distinct emails response uuid now Hnd).
  - intros k item Hk Hnone. split.
    + unfold createSummary; simpl.
      change (@List.map ?A ?B) with (@fmap list _ A B).
      rewrite list_lookup_fmap, Hk. simpl.
      by rewrite (find_email_none _ _ Hnone).
    + by apply createSummary_unmapped.
Qed.

Lemma action_items_describe_mapped_email_witness :
  length (actionItems
            (createSummary Demo.batch Demo.response "summary-2"
               1768470000000))
  = 1 /\
  actionItems
    (createSummary Demo.batch Demo.response "summary-2" 1768470000000) !! 0
  = Some (mkActionItem "EMAIL-003" high "Report" "Answer Ann"
            "ann@example.com" "Report") /\
  emailMappings
    (createSummary Demo.batch Demo.response "summary-2" 1768470000000)
    !! "EMAIL-003"
  = Some "c".
Proof.
  destruct (action_items_describe_mapped_email Demo.batch Demo.response
              "summary-2" 1768470000000)
    as (Hlen & Hknown & _).
  - vm_compute. repeat constructor; by apply (bool_decide_unpack _).
  - split; [exact Hlen|].
    apply (Hknown 0
             (mkSummaryResponseAction "EMAIL-003" high "Report" "Answer Ann")
             (parseMessage (Demo.message "c" "Report") 2));
      [reflexivity| |reflexivity].
    apply elem_of_cons. right. apply elem_of_cons. by left.
Defined.

Section Figures.

(** The least of a non-empty list of time values is one of them and is
    below all of them. *)
Lemma foldl_min_least (v : Z) (l : list Z) :
  Forall (fun x => (foldl Z.min v l <= x)%Z) (v :: l) /\
  foldl Z.min v l ∈ v :: l.
Proof.
  revert v. induction l as [|x l IH]; intros v; simpl.
  - split; [by repeat constructor|]. apply elem_of_cons. by left.
  - destruct (IH (Z.min v x)) as (Hall & Hin).
    apply Forall_cons in Hall as [Hle Hall]. split.
    + constructor; [lia|]. constructor; [lia|done].
    + apply elem_of_cons in Hin as [Heq|Hin].
      * rewrite Heq.
        destruct (Z.min_spec v x) as [[_ ->]|[_ ->]];
          [|apply elem_of_cons; right]; apply elem_of_cons; by left.
      * apply elem_of_cons. right. apply elem_of_cons. by right.
Qed.

Lemma createSummary_periodStart e emails response uuid now :
  exists start,
    periodStart (createSummary (e :: emails) response uuid now)
    = ValidDate start /\
    (forall e', e' ∈ e :: emails -> (start <= date e')%Z) /\
    (exists e', e' ∈ e :: emails /\ date e' = start).
Proof.
  unfold createSummary; simpl.
  exists (foldl Z.min (date e) (List.map date emails)).
  destruct (foldl_min_least (date e) (List.map date emails))
    as (Hall & Hin).
  change (List.map date emails) with (date <$> emails) in *.
  rewrite <- fmap_cons in Hall, Hin.
  split; [done|]. split.
  - intros e' He'. rewrite Forall_forall in Hall. apply Hall.
    by apply (list_elem_of_fmap_2 date).
  - apply list_elem_of_fmap in Hin as (e' & Heq & He'). eauto.
Qed.

End Figures.

(** X11. A summary that [summarize] returns counts the emails it was
    given, and no more unread ones than emails; its period ends when it was
    generated. Its period start is always a valid date: the date of the
    earliest email of the batch, and the time of generation for an empty
    batch (the guard for the empty batch keeps [Math.min()] of no value,
    which is no date, out of the summary). *)
Theorem summarize_figures (rt : Runtime) (world : Oracle) (config : Config)
    (emails : list Email) (w : Trace) (summary : Summary) (w' : Trace) :
  summarize rt world config emails w = (inr summary, w') ->
  totalEmails summary = length emails /\
  unreadCount summary <= totalEmails summary /\
  periodEnd summary = generatedAt summary /\
  exists start,
    periodStart summary = ValidDate start /\
    (forall e, e ∈ emails -> (start <= date e)%Z) /\
    match emails with
    | [] => start = generatedAt summary
    | _ :: _ => exists e, e ∈ emails /\ date e = start
    end.
Proof.
  unfold summarize. destruct emails as [|e0 emails]; simpl.
  - intros (now & w1 & _ & (uuid & w2 & _ & [= <- _])%bind_inr_inv)%bind_inr_inv.
    simpl. repeat split; [lia|]. exists now.
    repeat split. by intros e ?%elem_of_nil.
  - intros (response & w1 & _ & (now & w2 & _ &
              (uuid & w3 & _ & [= <- _])%bind_inr_inv)%bind_inr_inv)%bind_inr_inv.
    destruct (createSummary_periodStart e0 emails response uuid now)
      as (start & Hstart & Hleast & Hin).
    split; [done|]. split.
    { unfold createSummary; simpl.
      destruct (isUnread e0); simpl;
        pose proof (List.filter_length_le isUnread emails); lia. }
    split; [done|]. exists start. by repeat split.
Qed.

Lemma summarize_figures_witness :
  exists summary w',
    summarize Demo.rt (Demo.world Demo.inbox "Report" "") (Demo.config false)
      Demo.batch []
    = (inr summary, w') /\
    totalEmails summary = 2 /\
    unreadCount summary <= totalEmails summary /\
    periodEnd summary = generatedAt summary /\
    exists start,
      periodStart summary = ValidDate start /\
      (forall e, e ∈ Demo.batch -> (start <= date e)%Z) /\
      exists e, e ∈ Demo.batch /\ date e = start.
Proof.
  eexists _, _. split; [vm_compute; reflexivity|].
  eapply (summarize_figures Demo.rt (Demo.world Demo.inbox "Report" "")
            (Demo.config false) Demo.batch []).
  vm_compute. reflexivity.
Defined.

(** ** From a summary to the message a command acts on *)

Section Resolution.

(** The mapping a summary has after it was stored and loaded. *)
Lemma loaded_mappings (rt : Runtime) (summary : Summary)
    (threadId messageId : option string) :
  ls_emailMappings
    (loadStoredSummary (summaryToStorable rt summary threadId messageId))
  = emailMappings summary.
Proof.
  unfold loadStoredSummary, summaryToStorable.
  destruct threadId, messageId; simpl;
    by rewrite Object_fromEntries_entries, Map_new_entries.
Qed.

(** [Map.set] overwrites: the last email that carries a token decides
    what the token is mapped to. *)
Lemma createSummary_last_wins before e after response uuid now :
  Forall (fun e' => referenceId e' <> referenceId e) after ->
  emailMappings (createSummary (before ++ e :: after) response uuid now)
    !! referenceId e
  = Some (id e).
Proof.
  intros Hafter. rewrite createSummary_mappings.
  rewrite fmap_app, fmap_cons, reverse_app, reverse_cons, <- app_assoc.
  rewrite list_to_map_app. apply lookup_union_Some_raw. right. split.
  - apply not_elem_of_list_to_map_1.
    rewrite fmap_reverse, elem_of_reverse, <- list_fmap_compose.
    intros (e' & Heq & He')%list_elem_of_fmap.
    rewrite Forall_forall in Hafter. by apply (Hafter e' He').
  - simpl. apply lookup_insert_eq.
Qed.

End Resolution.

(** X12. The way of a token from the summary to the command: after the
    summary of a batch was stored and loaded again, a command that names
    the token of an email of the batch is resolved to the provider id of
    that email. When several emails carry the token, it is the last of
    them; in a batch numbered by [listRecentEmails] there is only one. A
    token that no email of the batch carries is resolved to nothing. *)
Theorem stored_token_resolves (rt : Runtime) (before : list Email)
    (e : Email) (after : list Email) (response : SummaryResponse)
    (uuid : string) (now : Z) (threadId messageId : option string)
    (cmd : Command) :
  Forall (fun e' => referenceId e' <> referenceId e) after ->
  (targetRef cmd = referenceId e ->
   targetGmailId
     (resolve
        (ls_emailMappings
           (loadStoredSummary
              (summaryToStorable rt
                 (createSummary (before ++ e :: after) response uuid now)
                 threadId messageId)))
        cmd)
   = Some (id e)) /\
  (Forall (fun e' => referenceId e' <> targetRef cmd)
     (before ++ e :: after) ->
   targetGmailId
     (resolve
        (ls_emailMappings
           (loadStoredSummary
              (summaryToStorable rt
                 (createSummary (before ++ e :: after) response uuid now)
                 threadId messageId)))
        cmd)
   = None).
Proof.
  intros Hafter. rewrite loaded_mappings. unfold resolve.
  cbn [targetGmailId]. split.
  - intros ->. by apply createSummary_last_wins.
  - apply createSummary_unmapped.
Qed.

(** Two emails fetched one by one, each with the default position 0, carry
    the same token: a command on it acts on the second. *)
Lemma stored_token_resolves_witness :
  referenceId (parseMessage (Demo.message "a" "Report") 0)
  = referenceId (parseMessage (Demo.message "b" "Report") 0) /\
  targetGmailId
    (resolve
       (ls_emailMappings
          (loadStoredSummary
             (summaryToStorable Demo.rt
                (createSummary
                   ([parseMessage (Demo.message "a" "Report") 0]
                    ++ parseMessage (Demo.message "b" "Report") 0 :: [])
                   Demo.response "summary-3" 1768470000000)
                None (Some "sent-1"))))
       (mkCommand "EMAIL-001" None Star))
  = Some "b".
Proof.
  split; [reflexivity|].
  apply (proj1
           (stored_token_resolves Demo.rt
              [parseMessage (Demo.message "a" "Report") 0]
              (parseMessage (Demo.message "b" "Report") 0) []
              Demo.response "summary-3" 1768470000000 None (Some "sent-1")
              (mkCommand "EMAIL-001" None Star) (Forall_nil_2 _))).
  reflexivity.
Defined.

Section Cost.

Variable rt : Runtime.
Variable world : Oracle.
Variable config : Config.

Lemma makes_parseJson {T : Type} which (JSON_parse : string -> option T)
    prompt options_maxTokens :
  makes which
    (if which (Called (Api.messages_create (anthropic_model config)
                         (default 4096 options_maxTokens) 3 prompt))
     then 1 else 0)
    (parseJson world config JSON_parse prompt options_maxTokens).
Proof.
  unfold parseJson.
  apply makes_bind_quiet; [apply makes_complete|].
  intros response. cbv beta zeta.
  destruct (JSON_parse (jsonStr_of response));
    [apply makes_ret|apply makes_throw].
Qed.

Lemma makes_summarize which emails :
  which (Called Api.Date_now) = false ->
  which (Called Api.uuidv4) = false ->
  makes which
    (if (length emails =? 0)%nat then 0
     else if which (Called (Api.messages_create (anthropic_model config)
                              4096 3 (buildSummaryPrompt rt emails)))
          then 1 else 0)
    (summarize rt world config emails).
Proof.
  intros Hnow Huuid.
  assert (forall (k : string -> Z -> Summary),
            makes which 0
              (bind (call world Api.Date_now)
                 (fun now => bind (call world Api.uuidv4)
                               (fun uuid => ret (k uuid now)))))
    as Hstamp.
  { intros k. apply (makes_bind _ 0 0).
    - eapply makes_weaken; [|apply (makes_call world which Api.Date_now)].
      by rewrite Hnow.
    - intros now. apply (makes_bind _ 0 0); [|intros; apply makes_ret].
      eapply makes_weaken; [|apply (makes_call world which Api.uuidv4)].
      by rewrite Huuid. }
  unfold summarize. destruct (length emails =? 0)%nat.
  - apply (Hstamp createEmptySummary).
  - apply makes_bind_quiet; [apply (makes_parseJson which)|].
    intros response. apply (Hstamp (createSummary emails response)).
Qed.

End Cost.

(** X13. Summarising a batch asks the model once at most, and not at all
    when the batch is empty; it changes nothing in the mailbox, whether it
    returns a summary or throws. *)
Theorem summarize_asks_once (rt : Runtime) (world : Oracle)
    (config : Config) (emails : list Email) (w : Trace) :
  exists t,
    snd (summarize rt world config emails w) = w ++ t /\
    model_calls t <= (if (length emails =? 0)%nat then 0 else 1) /\
    changes t = 0.
Proof.
  destruct (makes_summarize rt world config model_call emails
              eq_refl eq_refl w
              (fst (summarize rt world config emails w))
              (snd (summarize rt world config emails w)))
    as (t & Ht & Hmodel); [apply surjective_pairing|].
  destruct (makes_summarize rt world config state_changing emails
              eq_refl eq_refl w
              (fst (summarize rt world config emails w))
              (snd (summarize rt world config emails w)))
    as (t' & Ht' & Hchanges); [apply surjective_pairing|].
  rewrite Ht in Ht'. apply app_inv_head in Ht' as <-.
  exists t. split; [done|]. unfold model_calls, changes. split.
  - by destruct (length emails =? 0)%nat.
  - destruct (length emails =? 0)%nat; simpl in Hchanges; lia.
Qed.

(** ** The text [parseJson] hands to [JSON.parse] *)

Section Fences.

Lemma append_cons c s t : String c s +:+ t = String c (s +:+ t).
Proof. reflexivity. Qed.

Lemma substring_all s : String.substring 0 (String.length s) s = s.
Proof. induction s as [|c s IH]; [done|]. simpl. by rewrite IH. Qed.

Lemma drop_append a b : Js.drop (String.length a) (a +:+ b) = b.
Proof.
  unfold Js.drop. induction a as [|c a IH].
  - change ("" +:+ b) with b. simpl. rewrite Nat.sub_0_r.
    apply substring_all.
  - rewrite append_cons. simpl. exact IH.
Qed.

Lemma prefix_append a b : String.prefix a (a +:+ b) = true.
Proof.
  induction a as [|c a IH]; [by destruct b|].
  rewrite append_cons. cbn [String.prefix]. by destruct (ascii_dec c c).
Qed.

Lemma backtick_eqb c :
  negb (Ascii.eqb c "`") = true -> c <> "`"%char.
Proof. intros H ->. done. Qed.

(** A pattern without a backtick is matched before a backtick or not
    at all. *)
Lemma prefix_before_backtick p b x :
  no_backtick p = true ->
  String.prefix p (b +:+ String "`" x) = String.prefix p b.
Proof.
  revert b. induction p as [|a p IH]; intros b Hp.
  - by destruct b.
  - simpl in Hp. apply andb_prop in Hp as [Ha%backtick_eqb Hp].
    destruct b as [|d b].
    + change ("" +:+ String "`" x) with (String "`" x).
      cbn [String.prefix]. by destruct (ascii_dec a "`").
    + rewrite append_cons. cbn [String.prefix].
      destruct (ascii_dec a d); [|done]. by apply IH.
Qed.

Lemma prefix_fence_other c s :
  c <> "`"%char -> String.prefix fence (String c s) = false.
Proof.
  intros Hc. unfold fence. cbn [String.prefix].
  by destruct (ascii_dec "`" c) as [<-|].
Qed.

Lemma fenced_skip pre rest :
  no_backtick pre = true ->
  fenced (pre +:+ fence +:+ rest) = fenced (fence +:+ rest).
Proof.
  induction pre as [|c pre IH]; intros Hpre; [done|].
  simpl in Hpre. apply andb_prop in Hpre as [Hc%backtick_eqb Hpre].
  rewrite append_cons. cbn [fenced].
  rewrite (prefix_fence_other _ _ Hc). by apply IH.
Qed.

Lemma fenced_none s : no_backtick s = true -> fenced s = None.
Proof.
  induction s as [|c s IH]; intros Hs; [done|].
  simpl in Hs. apply andb_prop in Hs as [Hc%backtick_eqb Hs].
  cbn [fenced]. rewrite (prefix_fence_other _ _ Hc). by apply IH.
Qed.

Lemma fenced_at rest captured :
  fence_capture rest = Some captured ->
  fenced (fence +:+ rest) = Some captured.
Proof.
  intros Hcap.
  change (fence +:+ rest) with (String "`" ("``" +:+ rest)) at 1.
  cbn [fenced].
  change (String "`" ("``" +:+ rest)) with (fence +:+ rest).
  rewrite prefix_append.
  change 3 with (String.length fence). by rewrite drop_append, Hcap.
Qed.

Lemma trimStart_append b c x :
  Ascii.is_space c = false ->
  Js.trimStart (b +:+ String c x) = Js.trimStart b +:+ String c x.
Proof.
  intros Hc. induction b as [|a b IH].
  - change ("" +:+ String c x) with (String c x). simpl. by rewrite Hc.
  - rewrite append_cons. simpl. by destruct (Ascii.is_space a).
Qed.

Lemma trimStart_idem s : Js.trimStart (Js.trimStart s) = Js.trimStart s.
Proof.
  induction s as [|c s IH]; [done|]. simpl.
  destruct (Ascii.is_space c) eqn:Hc; [done|]. simpl. by rewrite Hc.
Qed.

Lemma no_backtick_trimStart s :
  no_backtick s = true -> no_backtick (Js.trimStart s) = true.
Proof.
  induction s as [|c s IH]; intros Hs; [done|]. simpl.
  destruct (Ascii.is_space c); [|done].
  simpl in Hs. apply andb_prop in Hs as [_ Hs]. by apply IH.
Qed.

Lemma before_first_fence b post :
  no_backtick b = true ->
  Js.before_first fence (b +:+ fence +:+ post) = Some b.
Proof.
  induction b as [|c b IH]; intros Hb.
  - change ("" +:+ fence +:+ post) with (fence +:+ post).
    change (fence +:+ post) with (String "`" ("``" +:+ post)) at 1.
    cbn [Js.before_first].
    change (String "`" ("``" +:+ post)) with (fence +:+ post).
    by rewrite prefix_append.
  - simpl in Hb. apply andb_prop in Hb as [Hc%backtick_eqb Hb].
    rewrite append_cons. cbn [Js.before_first].
    rewrite (prefix_fence_other _ _ Hc), (IH Hb). done.
Qed.

(** What is captured behind an opening fence: the text up to the
    closing fence, without the tag and the white space before it. *)
Lemma fence_capture_body tag body post :
  no_backtick body = true ->
  tag = "json" \/ tag = "" /\ String.prefix "json" body = false ->
  fence_capture (tag +:+ body +:+ fence +:+ post)
  = Some (Js.trimStart body).
Proof.
  intros Hbody Htag. unfold fence_capture.
  assert ((if String.prefix "json" (tag +:+ body +:+ fence +:+ post)
           then Js.drop 4 (tag +:+ body +:+ fence +:+ post)
           else tag +:+ body +:+ fence +:+ post)
          = body +:+ fence +:+ post) as ->.
  { destruct Htag as [->|[-> Hnot]].
    - rewrite prefix_append. change 4 with (String.length "json").
      apply drop_append.
    - change ("" +:+ body +:+ fence +:+ post)
        with (body +:+ fence +:+ post).
      change (fence +:+ post) with (String "`" ("``" +:+ post)).
      by rewrite prefix_before_backtick, Hnot. }
  change (fence +:+ post) with (String "`" ("``" +:+ post)) at 1.
  rewrite trimStart_append by done.
  change (String "`" ("``" +:+ post)) with (fence +:+ post).
  apply before_first_fence. by apply no_backtick_trimStart.
Qed.

End Fences.

(** X14. [parseJson] reads an answer of the model in either of two
    shapes. An answer without a backtick is parsed whole, trimmed. An
    answer that holds a fenced block, opened by three backticks with or
    without the tag [json] right behind them, is parsed as the text of
    the first such block, trimmed, whatever stands before and after the
    block (here: a before-text and a block text without backticks, and a
    block that is not blank). *)
Theorem jsonStr_of_fenced (plain pre tag body post : string) :
  no_backtick plain = true ->
  no_backtick pre = true ->
  no_backtick body = true ->
  tag = "json" \/ tag = "" /\ String.prefix "json" body = false ->
  Js.trim body <> "" ->
  jsonStr_of plain = Js.trim plain /\
  jsonStr_of (pre +:+ fence +:+ tag +:+ body +:+ fence +:+ post)
  = Js.trim body.
Proof.
  intros Hplain Hpre Hbody Htag Hblank. unfold jsonStr_of. split.
  - rewrite (fenced_none _ Hplain). simpl.
    by destruct (String.eqb_spec (Js.trim plain) "").
  - rewrite (fenced_skip _ _ Hpre).
    rewrite (fenced_at _ _ (fence_capture_body _ _ _ Hbody Htag)). simpl.
    assert (Js.trim (Js.trimStart body) = Js.trim body) as ->
      by (unfold Js.trim; by rewrite trimStart_idem).
    by destruct (String.eqb_spec (Js.trim body) "").
Qed.

Lemma jsonStr_of_fenced_witness :
  jsonStr_of "  {}
" = "{}" /\
  jsonStr_of ("Here are the commands: " +:+ fence +:+ "json" +:+ "
{ }
" +:+ fence +:+ " Anything else?")
  = "{ }".
Proof.
  apply (jsonStr_of_fenced "  {}
" "Here are the commands: " "json" "
{ }
" " Anything else?");
    [reflexivity|reflexivity|reflexivity|by left|discriminate].
Defined.

(** ** The parts of a message *)

Section Parts.

(** Induction over a tree of parts. *)
Lemma MessagePart_induction (P : MessagePart -> Prop) :
  (forall mimeType filename body,
     P (mkMessagePart mimeType filename body None)) ->
  (forall mimeType filename body parts,
     Forall P parts -> P (mkMessagePart mimeType filename body (Some parts))) ->
  forall part, P part.
Proof.
  intros Hleaf Hnode. fix IH 1.
  intros [mimeType filename body [parts|]]; [|apply Hleaf].
  apply Hnode. induction parts as [|p parts IHparts]; constructor.
  - apply IH.
  - exact IHparts.
Qed.

Lemma for_of_cons {A S : Type} (step : A -> S -> S) x l acc :
  for_of step (x :: l) acc = for_of step l (step x acc).
Proof. reflexivity. Qed.

Lemma last_app_cases {A : Type} (l1 l2 : list A) :
  last (l1 ++ l2) = match last l2 with
                    | Some x => Some x
                    | None => last l1
                    end.
Proof.
  induction l2 as [|x l2 IH] using rev_ind.
  - by rewrite app_nil_r.
  - by rewrite app_assoc, !last_snoc.
Qed.

(** A part pushes its own attachment and then those of the parts
    below it. *)
Lemma attachments_extractFromPart part :
  forall attachments,
    ExtractAttachments.extractFromPart part attachments
    = attachments ++ omap attachment_of (part :: subparts part).
Proof.
  induction part as [mimeType filename body|mimeType filename body parts IH]
    using MessagePart_induction; intros attachments.
  - simpl. unfold attachment_of. simpl.
    destruct (Js.truthy filename && Js.truthy (body ≫= attachmentId));
      [done|by rewrite app_nil_r].
  - cbn [ExtractAttachments.extractFromPart subparts omap list_omap].
    unfold attachment_of at 1. cbn [part_filename part_body part_mimeType].
    set (own := if Js.truthy filename && Js.truthy (body ≫= attachmentId)
                then _ else _).
    assert (forall acc,
              for_of ExtractAttachments.extractFromPart parts acc
              = acc ++ omap attachment_of
                         (List.flat_map (fun p => p :: subparts p) parts))
      as Hloop.
    { induction IH as [|p parts Hp _ IHparts]; intros acc.
      - by rewrite app_nil_r.
      - rewrite for_of_cons, Hp, IHparts.
        cbn [List.flat_map]. rewrite omap_app. by rewrite app_assoc. }
    rewrite Hloop. subst own.
    destruct (Js.truthy filename && Js.truthy (body ≫= attachmentId));
      [by rewrite <- app_assoc|done].
Qed.

Lemma attachments_loop parts :
  forall attachments,
    for_of ExtractAttachments.extractFromPart parts attachments
    = attachments ++ omap attachment_of
                       (List.flat_map (fun p => p :: subparts p) parts).
Proof.
  induction parts as [|p parts IH]; intros attachments.
  - by rewrite app_nil_r.
  - rewrite for_of_cons, attachments_extractFromPart, IH.
    cbn [List.flat_map]. rewrite omap_app. by rewrite app_assoc.
Qed.

End Parts.

(** X15. The attachments of a message are those of the parts below its
    payload, at any depth, in document order: one for every part that has
    a file name and an attachment id, with [application/octet-stream] for
    a missing type and 0 for a missing size. The payload itself is never
    one: a message that consists of a single part has no attachment,
    whatever that part is. *)
Theorem extractAttachments_preorder (payload : option MessagePart) :
  ExtractAttachments.extractAttachments payload
  = omap attachment_of (default [] (subparts <$> payload)) /\
  (forall part,
     payload = Some part -> part_parts part = None ->
     ExtractAttachments.extractAttachments payload = []).
Proof.
  split.
  - destruct payload as [[mimeType filename body [parts|]]|]; [|done..].
    unfold ExtractAttachments.extractAttachments. simpl.
    by rewrite attachments_loop.
  - intros part -> Hparts. unfold ExtractAttachments.extractAttachments.
    simpl. by rewrite Hparts.
Qed.

Section Bodies.

Variable decode : string -> string.

Lemma assigned_app st plains1 htmls1 plains2 htmls2 :
  assigned (assigned st plains1 htmls1) plains2 htmls2
  = assigned st (plains1 ++ plains2) (htmls1 ++ htmls2).
Proof.
  unfold assigned. simpl. rewrite !last_app_cases.
  by destruct (last plains2), (last htmls2).
Qed.

Lemma body_extractFromPart part :
  forall st,
    ExtractBody.extractFromPart decode part st
    = assigned st
        (omap (text_of decode "text/plain") (part :: subparts part))
        (omap (text_of decode "text/html") (part :: subparts part)).
Proof.
  induction part as [mimeType filename body|mimeType filename body parts IH]
    using MessagePart_induction; intros [plain0 html0].
  - unfold assigned, text_of. simpl.
    destruct (bool_decide (mimeType = Some "text/plain")) eqn:Hplain.
    + apply bool_decide_eq_true in Hplain as ->. simpl.
      by destruct (Js.truthy (body ≫= data)).
    + simpl.
      by destruct (bool_decide (mimeType = Some "text/html")
                   && Js.truthy (body ≫= data)).
  - cbn [ExtractBody.extractFromPart subparts].
    assert (forall st,
              for_of (ExtractBody.extractFromPart decode) parts st
              = assigned st
                  (omap (text_of decode "text/plain")
                     (List.flat_map (fun p => p :: subparts p) parts))
                  (omap (text_of decode "text/html")
                     (List.flat_map (fun p => p :: subparts p) parts)))
      as ->.
    { induction IH as [|p parts Hp _ IHparts]; intros [plain1 html1].
      - done.
      - rewrite for_of_cons, Hp, IHparts, assigned_app.
        cbn [List.flat_map]. by rewrite !omap_app. }
    change (mkMessagePart mimeType filename body (Some parts)
            :: List.flat_map (fun p => p :: subparts p) parts)
      with ([mkMessagePart mimeType filename body (Some parts)]
            ++ List.flat_map (fun p => p :: subparts p) parts).
    rewrite !omap_app, <- assigned_app.
    f_equal. unfold assigned, text_of. simpl.
    destruct (bool_decide (mimeType = Some "text/plain")) eqn:Hplain.
    + apply bool_decide_eq_true in Hplain as ->. simpl.
      by destruct (Js.truthy (body ≫= data)).
    + simpl.
      by destruct (bool_decide (mimeType = Some "text/html")
                   && Js.truthy (body ≫= data)).
Qed.

Lemma body_loop parts :
  forall st,
    for_of (ExtractBody.extractFromPart decode) parts st
    = assigned st
        (omap (text_of decode "text/plain")
           (List.flat_map (fun p => p :: subparts p) parts))
        (omap (text_of decode "text/html")
           (List.flat_map (fun p => p :: subparts p) parts)).
Proof.
  induction parts as [|p parts IH]; intros [plain0 html0]; [done|].
  rewrite for_of_cons, body_extractFromPart, IH, assigned_app.
  cbn [List.flat_map]. by rewrite !omap_app.
Qed.

End Bodies.

(** X16. The body of a message is assembled from its payload and the
    parts below it, in document order, a later text replacing an earlier
    one: [plain] is the last text among the payload's own data (unless
    the payload is [text/html]) and the data of the [text/plain] parts,
    and the empty string when there is none; [html] is the last text
    among the payload's own data (when the payload is [text/html]) and
    the data of the [text/html] parts, and absent when there is none.
    Without a payload the body is empty. *)
Theorem extractBody_last_wins (decode : string -> string)
    (payload : MessagePart) :
  plain (ExtractBody.extractBody decode (Some payload))
  = default ""
      (last (option_list (payload_text decode false payload)
             ++ omap (text_of decode "text/plain") (subparts payload))) /\
  html (ExtractBody.extractBody decode (Some payload))
  = last (option_list (payload_text decode true payload)
          ++ omap (text_of decode "text/html") (subparts payload)) /\
  ExtractBody.extractBody decode None = {| plain := ""; html := None |}.
Proof.
  split; [|split; [|done]];
    destruct payload as [mimeType filename body parts];
    unfold ExtractBody.extractBody, payload_text;
    cbn [part_body part_mimeType part_parts subparts plain html];
    (destruct parts as [parts|];
       [rewrite body_loop|
        change (omap _ []) with (@nil string); rewrite app_nil_r]);
    unfold assigned; cbn [fst snd]; rewrite ?last_app_cases;
    destruct (Js.truthy (body ≫= data)); cbn [andb fst snd];
    destruct (bool_decide (mimeType = Some "text/html"));
    cbn [Bool.eqb option_list last fst snd default from_option];
    try done;
    by destruct (last _).
Qed.

(** ** Parsing addresses *)

Section Matching.

Lemma append_nil_r s : s +:+ "" = s.
Proof. induction s as [|c s IH]; [done|]. by rewrite append_cons, IH. Qed.

Lemma append_assoc a b c : (a +:+ b) +:+ c = a +:+ (b +:+ c).
Proof.
  induction a as [|x a IH]; [done|]. by rewrite !append_cons, IH.
Qed.

Lemma all_chars_app class a b :
  all_chars class (a +:+ b) = all_chars class a && all_chars class b.
Proof.
  induction a as [|c a IH]; [done|].
  rewrite append_cons. simpl. by rewrite IH, andb_assoc.
Qed.

Lemma all_chars_suffix class s x y :
  all_chars class s = true -> s = x +:+ y -> all_chars class y = true.
Proof.
  intros Hs ->. rewrite all_chars_app in Hs.
  by apply andb_prop in Hs as [_ ?].
Qed.

Lemma all_chars_weaken (class1 class2 : ascii -> bool) s :
  (forall c, class1 c = true -> class2 c = true) ->
  all_chars class1 s = true -> all_chars class2 s = true.
Proof.
  intros Himp. induction s as [|c s IH]; [done|]. simpl.
  intros [Hc Hs]%andb_prop. by rewrite (Himp c Hc), IH.
Qed.

Context {T : Type}.

(** A run of the class is consumed when what follows it matches. *)
Lemma star_skip class (k : string -> string -> option T) pre post r :
  all_chars class pre = true ->
  forall consumed,
    Regex.star class k (consumed +:+ pre) post = Some r ->
    Regex.star class k consumed (pre +:+ post) = Some r.
Proof.
  induction pre as [|c pre IH]; intros Hpre consumed Hrun.
  - by rewrite append_nil_r in Hrun.
  - simpl in Hpre. apply andb_prop in Hpre as [Hc Hpre].
    rewrite append_cons. cbn [Regex.star]. rewrite Hc.
    rewrite (IH Hpre (consumed +:+ String c "")); [done|].
    by rewrite append_assoc.
Qed.

(** No way of cutting the input lets the continuation match. *)
Lemma star_fails class (k : string -> string -> option T) s :
  forall consumed,
    (forall x y, s = x +:+ y -> k (consumed +:+ x) y = None) ->
    Regex.star class k consumed s = None.
Proof.
  induction s as [|c s IH]; intros consumed Hk.
  - cbn [Regex.star]. rewrite <- (append_nil_r consumed). by apply Hk.
  - assert (k consumed (String c s) = None) as Hhere.
    { rewrite <- (append_nil_r consumed). by apply Hk. }
    cbn [Regex.star]. destruct (class c); [|done].
    rewrite IH; [done|]. intros x y ->.
    rewrite append_assoc. by apply Hk.
Qed.

End Matching.

Section Shapes.

Lemma address_match_unfold raw :
  address_match raw
  = match
      Regex.opt (ascii_of_nat 34)
        (Regex.star not_quote after_name "") raw
    with
    | Some m => Some m
    | None => pair None <$> address_tail raw
    end.
Proof. reflexivity. Qed.

Lemma after_name_solid captured rest :
  all_chars solid_char rest = true -> after_name captured rest = None.
Proof.
  destruct rest as [|c rest]; [done|]. simpl.
  intros [[Hspace Hquote]%andb_prop _]%andb_prop.
  unfold after_name, Regex.opt. unfold not_quote in Hquote.
  apply negb_true_iff in Hquote, Hspace. by rewrite Hquote, Hspace.
Qed.

(** A text of solid characters gives the optional group nothing to
    match. *)
Lemma group_fails_solid raw :
  all_chars solid_char raw = true ->
  Regex.opt (ascii_of_nat 34) (Regex.star not_quote after_name "") raw
  = None.
Proof.
  intros Hraw.
  assert (Regex.star not_quote after_name "" raw = None) as Hstar.
  { apply star_fails. intros x y Hxy. apply after_name_solid.
    by eapply all_chars_suffix. }
  destruct raw as [|c raw]; [done|].
  simpl in Hraw. apply andb_prop in Hraw as [[_ Hquote]%andb_prop _].
  unfold not_quote in Hquote. apply negb_true_iff in Hquote.
  unfold Regex.opt. by rewrite Hquote.
Qed.

Lemma address_char_not_gt c :
  address_char c = true -> negb (Ascii.eqb c ">") = true.
Proof.
  unfold address_char. by intros [[_ ?]%andb_prop _]%andb_prop.
Qed.

Lemma address_char_solid c :
  address_char c = true -> solid_char c = true.
Proof.
  unfold address_char, solid_char, not_quote.
  intros [[[-> _]%andb_prop _]%andb_prop ->]%andb_prop. done.
Qed.

Lemma plain_address_inv addr :
  plain_address addr = true ->
  addr <> "" /\ all_chars address_char addr = true.
Proof.
  unfold plain_address. intros [Hne Hall]%andb_prop. split; [|done].
  intros ->. done.
Qed.

Lemma tail_run addr rest :
  plain_address addr = true ->
  (rest = "" \/ rest = ">") ->
  Regex.star (fun c => negb (Ascii.eqb c ">"))
    (fun captured rest =>
       if String.eqb captured "" then None
       else
         Regex.opt ">"
           (fun rest => if String.eqb rest "" then Some captured else None)
           rest)
    "" (addr +:+ rest)
  = Some addr.
Proof.
  intros [Hne Hall]%plain_address_inv Hrest.
  apply star_skip.
  - eapply all_chars_weaken; [|exact Hall]. apply address_char_not_gt.
  - change ("" +:+ addr) with addr.
    destruct (String.eqb_spec addr "") as [|_]; [done|].
    destruct Hrest as [->| ->]; cbn [Regex.star]; simpl;
      by destruct (String.eqb_spec addr "").
Qed.

Lemma address_tail_bare addr :
  plain_address addr = true -> address_tail addr = Some addr.
Proof.
  intros Haddr. pose proof (tail_run addr "" Haddr (or_introl eq_refl))
    as Hrun.
  rewrite append_nil_r in Hrun.
  apply plain_address_inv in Haddr as [Hne Hall].
  destruct addr as [|c addr]; [done|].
  simpl in Hall. apply andb_prop in Hall as [Hc _].
  unfold address_char in Hc.
  apply andb_prop in Hc as [[[_ Hlt]%andb_prop _]%andb_prop _].
  apply negb_true_iff in Hlt.
  unfold address_tail, Regex.opt. by rewrite Hlt.
Qed.

Lemma address_tail_angle addr :
  plain_address addr = true ->
  address_tail ("<" +:+ addr +:+ ">") = Some addr.
Proof.
  intros Haddr. unfold address_tail.
  change ("<" +:+ addr +:+ ">") with (String "<" (addr +:+ ">")).
  unfold Regex.opt at 1. simpl (Ascii.eqb _ _).
  by rewrite (tail_run addr ">" Haddr (or_intror eq_refl)).
Qed.

Lemma solid_angle addr :
  plain_address addr = true ->
  all_chars solid_char ("<" +:+ addr +:+ ">") = true.
Proof.
  intros [_ Hall]%plain_address_inv.
  change ("<" +:+ addr +:+ ">") with (String "<" (addr +:+ ">")).
  simpl. rewrite all_chars_app. simpl. rewrite andb_true_r.
  eapply all_chars_weaken; [|exact Hall]. apply address_char_solid.
Qed.

(** The four forms of a mailbox in a header, and what the pattern
    captures in each. *)
Lemma address_match_shapes name addr :
  all_chars not_quote name = true ->
  plain_address addr = true ->
  address_match addr = Some (None, addr) /\
  address_match ("<" +:+ addr +:+ ">") = Some (None, addr) /\
  address_match (name +:+ " <" +:+ addr +:+ ">")
  = Some (Some name, addr) /\
  address_match (Js.dq +:+ name +:+ Js.dq +:+ " <" +:+ addr +:+ ">")
  = Some (Some name, addr).
Proof.
  intros Hname Haddr.
  assert (after_name name (" <" +:+ addr +:+ ">") = Some (Some name, addr))
    as Hsep.
  { change (pair (Some name) <$> address_tail ("<" +:+ addr +:+ ">")
            = Some (Some name, addr)).
    by rewrite (address_tail_angle _ Haddr). }
  split; [|split; [|split]].
  - rewrite address_match_unfold, group_fails_solid.
    + by rewrite (address_tail_bare _ Haddr).
    + apply plain_address_inv in Haddr as [_ Hall].
      eapply all_chars_weaken; [|exact Hall]. apply address_char_solid.
  - rewrite address_match_unfold, group_fails_solid.
    + by rewrite (address_tail_angle _ Haddr).
    + by apply solid_angle.
  - rewrite address_match_unfold.
    assert (Regex.star not_quote after_name ""
              (name +:+ " <" +:+ addr +:+ ">")
            = Some (Some name, addr)) as Hstar.
    { apply star_skip; [done|]. change ("" +:+ name) with name.
      change (" <" +:+ addr +:+ ">")
        with (String " " ("<" +:+ addr +:+ ">")).
      cbn [Regex.star]. simpl (not_quote " ").
      rewrite star_fails.
      - exact Hsep.
      - intros x y Hxy. apply after_name_solid.
        eapply all_chars_suffix; [by apply solid_angle|exact Hxy]. }
    destruct name as [|c name].
    + change ("" +:+ " <" +:+ addr +:+ ">")
        with (String " " ("<" +:+ addr +:+ ">")) in *.
      unfold Regex.opt at 1. simpl (Ascii.eqb _ _). by rewrite Hstar.
    + rewrite append_cons in *. unfold Regex.opt at 1.
      simpl in Hname. apply andb_prop in Hname as [Hc _].
      unfold not_quote in Hc. apply negb_true_iff in Hc. rewrite Hc.
      by rewrite Hstar.
  - rewrite address_match_unfold.
    change (Js.dq +:+ name +:+ Js.dq +:+ " <" +:+ addr +:+ ">")
      with (String (ascii_of_nat 34)
              (name +:+ Js.dq +:+ " <" +:+ addr +:+ ">")).
    unfold Regex.opt at 1. simpl (Ascii.eqb _ _).
    rewrite (star_skip _ _ name _ (Some name, addr)); [done|done|].
    change ("" +:+ name) with name.
    change (Js.dq +:+ " <" +:+ addr +:+ ">")
      with (String (ascii_of_nat 34) (" <" +:+ addr +:+ ">")).
    cbn [Regex.star].
    change (not_quote (ascii_of_nat 34)) with false. cbv iota.
    unfold after_name, Regex.opt.
    change (Ascii.eqb (ascii_of_nat 34) (ascii_of_nat 34)) with true.
    change (" <" +:+ addr +:+ ">")
      with (String " " ("<" +:+ addr +:+ ">")).
    cbv iota beta. change (Ascii.is_space " ") with true. cbv iota.
    by rewrite (address_tail_angle _ Haddr).
Qed.

Lemma rev_app_rev_app s1 :
  forall s2 s3,
    String.rev_app (String.rev_app s1 s2) s3
    = String.rev_app s2 (s1 +:+ s3).
Proof.
  induction s1 as [|a s1 IH]; intros s2 s3; [done|].
  simpl. by rewrite IH.
Qed.

Lemma rev_involutive s : String.rev (String.rev s) = s.
Proof.
  unfold String.rev. rewrite rev_app_rev_app. simpl. apply append_nil_r.
Qed.

Lemma all_chars_rev_app class s1 :
  forall s2,
    all_chars class (String.rev_app s1 s2)
    = all_chars class s1 && all_chars class s2.
Proof.
  induction s1 as [|a s1 IH]; intros s2; [done|].
  simpl. rewrite IH. simpl. by rewrite andb_assoc, (andb_comm _ (class a)).
Qed.

Lemma trimStart_solid s :
  all_chars (fun c => negb (Ascii.is_space c)) s = true ->
  Js.trimStart s = s.
Proof.
  destruct s as [|c s]; [done|]. simpl.
  intros [Hc%negb_true_iff _]%andb_prop. by rewrite Hc.
Qed.

Lemma trim_solid s :
  all_chars (fun c => negb (Ascii.is_space c)) s = true -> Js.trim s = s.
Proof.
  intros Hs. unfold Js.trim, Js.trimEnd.
  rewrite (trimStart_solid s Hs), trimStart_solid.
  - apply rev_involutive.
  - unfold String.rev. by rewrite all_chars_rev_app, Hs.
Qed.

Lemma trim_plain_address addr :
  plain_address addr = true -> Js.trim addr = addr.
Proof.
  intros [_ Hall]%plain_address_inv. apply trim_solid.
  eapply all_chars_weaken; [|exact Hall].
  unfold address_char. by intros c [[[-> _]%andb_prop _]%andb_prop _]%andb_prop.
Qed.

Lemma parsed_address addr raw :
  plain_address addr = true ->
  Js.or_else (Some (Js.trim addr)) raw = addr.
Proof.
  intros Haddr. rewrite (trim_plain_address _ Haddr). simpl.
  apply plain_address_inv in Haddr as [Hne _].
  by destruct (String.eqb_spec addr "").
Qed.

End Shapes.

(** X17. The forms a mailbox takes in a [From], [To] or [Cc] header are
    parsed as intended: a bare address, an address in angle brackets, a
    display name followed by the address in angle brackets, and the same
    with the display name in double quotes. The name comes back trimmed
    and without its quotes, the address without its brackets (here: an
    address without white space, brackets and quotes, and a name without
    quotes). *)
Theorem parseEmailAddress_header_forms (display addr : string) :
  all_chars not_quote display = true ->
  plain_address addr = true ->
  parseEmailAddress addr = {| name := ""; address := addr |} /\
  parseEmailAddress ("<" +:+ addr +:+ ">")
  = {| name := ""; address := addr |} /\
  parseEmailAddress (display +:+ " <" +:+ addr +:+ ">")
  = {| name := Js.trim display; address := addr |} /\
  parseEmailAddress (Js.dq +:+ display +:+ Js.dq +:+ " <" +:+ addr +:+ ">")
  = {| name := Js.trim display; address := addr |}.
Proof.
  intros Hname Haddr.
  destruct (address_match_shapes display addr Hname Haddr)
    as (Hbare & Hangle & Hnamed & Hquoted).
  unfold parseEmailAddress.
  rewrite Hbare, Hangle, Hnamed, Hquoted. simpl fmap.
  rewrite !(parsed_address _ _ Haddr), !or_else_empty. done.
Qed.

Lemma parseEmailAddress_header_forms_witness :
  parseEmailAddress "ann@example.com"
  = {| name := ""; address := "ann@example.com" |} /\
  parseEmailAddress ("<" +:+ "ann@example.com" +:+ ">")
  = {| name := ""; address := "ann@example.com" |} /\
  parseEmailAddress ("Ann Lee " +:+ " <" +:+ "ann@example.com" +:+ ">")
  = {| name := "Ann Lee"; address := "ann@example.com" |} /\
  parseEmailAddress
    (Js.dq +:+ "Ann Lee " +:+ Js.dq +:+ " <" +:+ "ann@example.com" +:+ ">")
  = {| name := "Ann Lee"; address := "ann@example.com" |}.
Proof.
  apply (parseEmailAddress_header_forms "Ann Lee " "ann@example.com");
    reflexivity.
Defined.

(** X18. Formatting an address and parsing the text gives the address
    back, for a display name that is trimmed and holds no double quote and
    an address without white space, brackets and quotes. *)
Theorem format_parse_round_trip (addr : EmailAddress) :
  all_chars not_quote (name addr) = true ->
  Js.trim (name addr) = name addr ->
  plain_address (address addr) = true ->
  parseEmailAddress (formatEmailAddress addr) = addr.
Proof.
  destruct addr as [display mailbox]. simpl. intros Hname Htrim Haddr.
  destruct (address_match_shapes display mailbox Hname Haddr)
    as (Hbare & _ & Hnamed & _).
  unfold formatEmailAddress, parseEmailAddress. cbn [name address].
  destruct (String.eqb_spec display "") as [->|Hne]; cbn [negb].
  - rewrite Hbare. simpl fmap.
    by rewrite (parsed_address _ _ Haddr), or_else_empty.
  - rewrite Hnamed. simpl fmap.
    by rewrite (parsed_address _ _ Haddr), or_else_empty, Htrim.
Qed.

Lemma format_parse_round_trip_witness :
  formatEmailAddress (mkEmailAddress "Ann Lee" "ann@example.com")
  = "Ann Lee <ann@example.com>" /\
  parseEmailAddress
    (formatEmailAddress (mkEmailAddress "Ann Lee" "ann@example.com"))
  = mkEmailAddress "Ann Lee" "ann@example.com".
Proof.
  split; [reflexivity|].
  apply (format_parse_round_trip (mkEmailAddress "Ann Lee" "ann@example.com"));
    reflexivity.
Defined.

Section Lists.

(** Parsing loses no input: the address is empty for the empty text
    only. *)
Lemma parseEmailAddress_empty raw :
  address (parseEmailAddress raw) = "" <-> raw = "".
Proof.
  split; [|intros ->; reflexivity].
  unfold parseEmailAddress.
  destruct (address_match raw) as [[group1 group2]|]; [|done]. simpl.
  by destruct (String.eqb_spec (Js.trim group2) "").
Qed.

Lemma filter_parsed pieces :
  List.filter (fun addr => negb (String.eqb (address addr) ""))
    (List.map parseEmailAddress pieces)
  = List.map parseEmailAddress
      (List.filter (fun piece => negb (String.eqb piece "")) pieces).
Proof.
  induction pieces as [|piece pieces IH]; [done|].
  cbn [List.map List.filter].
  destruct (String.eqb_spec piece "") as [->|Hne]; cbn [negb].
  - exact IH.
  - destruct (String.eqb_spec (address (parseEmailAddress piece)) "")
      as [Hempty|_];
      [exfalso; apply Hne; by apply parseEmailAddress_empty|].
    cbn [negb List.map]. by rewrite IH.
Qed.

End Lists.

(** X19. The recipients read from a [To] or [Cc] header are the parsed
    pieces between its commas, in order, a blank piece giving no
    recipient and every other piece exactly one: nothing but blank pieces
    is dropped. An empty header gives no recipient. *)
Theorem parseMessage_recipients (raw : string) :
  parseMessage_to raw
  = parseEmailAddress
      <$> List.filter (fun piece => negb (String.eqb piece ""))
            (Js.trim <$> String_split "," raw) /\
  parseMessage_cc raw = parseMessage_to raw /\
  parseMessage_to "" = [].
Proof.
  split; [|split; [|done]].
  - unfold parseMessage_to.
    rewrite <- filter_parsed. f_equal.
    change (@List.map ?A ?B) with (@fmap list _ A B).
    by rewrite <- list_fmap_compose.
  - unfold parseMessage_cc. by destruct (String.eqb_spec raw "") as [->|].
Qed.

(** Three pieces, the second of them blank. *)
Example parseMessage_recipients_example :
  parseMessage_to "ann@example.com, , Bob Ray <bob@example.com>"
  = [mkEmailAddress "" "ann@example.com";
     mkEmailAddress "Bob Ray" "bob@example.com"].
Proof. reflexivity. Qed.

(** ** Computations over the two journals *)

Section HostComputations.

Context {A B : Type}.

Lemma hbind_returns (m : H A) (k : A -> H B) j a j1 :
  m j = (inr a, j1) -> hbind m k j = k a j1.
Proof. unfold hbind. by intros ->. Qed.

Lemma hbind_throws (m : H A) (k : A -> H B) j e j1 :
  m j = (inl e, j1) -> hbind m k j = (inl e, j1).
Proof. unfold hbind. by intros ->. Qed.

Lemma hbind_inr_inv (m : H A) (k : A -> H B) j b j2 :
  hbind m k j = (inr b, j2) ->
  exists a j1, m j = (inr a, j1) /\ k a j1 = (inr b, j2).
Proof.
  unfold hbind. destruct (m j) as [[e|a] j1]; [done|]. eauto.
Qed.

Lemma mail_inv (m : M A) j r j1 :
  mail m j = (r, j1) -> m j.1 = (r, j1.1) /\ j1.2 = j.2.
Proof.
  unfold mail. destruct (m j.1) as [r0 w1]. by intros [= <- <-].
Qed.

Lemma host_call_inv (host : Host.Oracle) (c : Host.Call A) j r j1 :
  host_call host c j = (r, j1) ->
  Host.respond host A j.1 j.2 c = r /\
  j1 = (j.1, j.2 ++ [Host.Did c]).
Proof. unfold host_call. by intros [= <- <-]. Qed.

End HostComputations.

(** The rules of [keeps]. *)
Section Keeps.

Variable which : Event -> bool.
Variable allowed : Host.Event -> bool.

Context {A B : Type}.



Lemma keeps_bind (m : H A) (k : A -> H B) :
  keeps which allowed m -> (forall a, keeps which allowed (k a)) ->
  keeps which allowed (hbind m k).
Proof.
  intros Hm Hk j r j' Hrun. unfold hbind in Hrun.
  destruct (m j) as [[e|a] j1] eqn:Em.
  - injection Hrun as <- <-. apply (Hm _ _ _ Em).
  - destruct (Hm _ _ _ Em) as (t1 & u1 & -> & Ht1 & Hu1).
    destruct (Hk a _ _ _ Hrun) as (t2 & u2 & -> & Ht2 & Hu2).
    exists (t1 ++ t2), (u1 ++ u2). simpl.
    rewrite !app_assoc, count_calls_app, forallb_app, Ht1, Ht2, Hu1, Hu2.
    done.
Qed.


Lemma keeps_mail (m : M A) :
  makes which 0 m -> keeps which allowed (mail m).
Proof.
  intros Hm [w d] r j' [Hrun Hd]%mail_inv.
  destruct (Hm _ _ _ Hrun) as (t & Ht & Hcount).
  exists t, []. simpl in *. rewrite app_nil_r.
  split; [|split; [lia|done]].
  destruct j' as [w' d']. simpl in *. by subst.
Qed.

Lemma keeps_host_call (host : Host.Oracle) (c : Host.Call A) :
  allowed (Host.Did c) = true ->
  keeps which allowed (host_call host c).
Proof.
  intros Hc [w d] r j' [_ ->]%host_call_inv.
  exists [], [Host.Did c]. simpl. rewrite app_nil_r, Hc. done.
Qed.

End Keeps.

Section Listing.

Variable world : Oracle.
Variable config : Config.



End Listing.

(** ** Generating, sending and storing the summary *)

Section Generate.

Variable rt : Runtime.
Variable hrt : HostRuntime.
Variable world : Oracle.
Variable host : Host.Oracle.
Variable config : Config.

Lemma makes_quiet_call {A : Type} which (c : Api.Call A) :
  which (Called c) = false -> makes which 0 (call world c).
Proof.
  intros Hc. eapply makes_weaken; [|apply (makes_call world which c)].
  by rewrite Hc.
Qed.


Lemma makes_formatSummaryEmailPlain which summary :
  which (Called Api.Date_now) = false ->
  makes which 0 (formatSummaryEmailPlain rt world summary).
Proof.
  intros Hnow. unfold formatSummaryEmailPlain.
  apply (makes_bind _ 0 0); [by apply makes_quiet_call|].
  intros. apply makes_ret.
Qed.




End Generate.



Section Stored.

Variable rt : Runtime.
Variable hrt : HostRuntime.
Variable world : Oracle.
Variable host : Host.Oracle.
Variable config : Config.

Lemma rev_app_append a b :
  forall c, String.rev_app (a +:+ b) c = String.rev_app b (String.rev_app a c).
Proof.
  induction a as [|x a IH]; intros c; [done|].
  rewrite append_cons. simpl. apply IH.
Qed.

Lemma rev_app_spec a :
  forall c, String.rev_app a c = String.rev a +:+ c.
Proof.
  unfold String.rev. induction a as [|x a IH]; intros c; [done|].
  simpl. rewrite (IH (String x c)), (IH (String x "")).
  by rewrite append_assoc.
Qed.

Lemma endsWith_append s suffix : Js.endsWith suffix (s +:+ suffix) = true.
Proof.
  unfold Js.endsWith. unfold String.rev at 2.
  rewrite rev_app_append, (rev_app_spec suffix). apply prefix_append.
Qed.

(** What a returned [storeSummary] has done. *)
Lemma storeSummary_inv summary messageId j u j' :
  storeSummary rt hrt world host config summary messageId j = (inr u, j') ->
  exists date,
    j'.1 = j.1 ++ [Called Api.Date_now] /\
    j'.2 = j.2 ++
           [Host.Did (Host.fs_mkdir (paths_summaryStorage config));
            Host.Did
              (Host.fs_writeFile
                 (path_join rt (paths_summaryStorage config)
                    (formatDateShort hrt date +:+ ".json"))
                 (JSON_stringify_StoredSummary hrt
                    (summaryToStorable rt summary None (Some messageId))))].
Proof.
  unfold storeSummary.
  intros (u1 & j1 & [_ ->]%host_call_inv & Hrest)%hbind_inr_inv.
  apply hbind_inr_inv in Hrest as (filename & j2 & [Hname Hd]%mail_inv & Hrest).
  unfold getSummaryFileName in Hname.
  apply bind_inr_inv in Hname as (date & w1 & Hnow & [= <- Hw]).
  unfold call in Hnow. injection Hnow as _ <-.
  apply host_call_inv in Hrest as [_ ->].
  exists date. simpl in *. rewrite <- Hw, Hd. split; [done|].
  by rewrite <- app_assoc.
Qed.

(** The steps of a run outside dry-run that got as far as a batch of
    emails. *)
Lemma generate_inv j result j' :
  dryRun (agent config) = false ->
  generateAndSendSummary rt hrt world host config j = (inr result, j') ->
  (result = None /\
   listRecentEmails world config (emailLookbackHours (agent config)) j.1
   = (inr [], j'.1) /\
   j'.2 = j.2) \/
  (exists summary messageId w0 now htmlBody plainBody date,
     result = Some (summary, messageId) /\
     j'.1 = w0 ++
            [Called (Api.sendEmail (user_email config)
                       ("Daily Email Summary - " +:+ formatDate rt now)
                       htmlBody (Some plainBody));
             Called Api.Date_now] /\
     respond world _ w0
       (Api.sendEmail (user_email config)
          ("Daily Email Summary - " +:+ formatDate rt now)
          htmlBody (Some plainBody))
     = inr messageId /\
     j'.2 = j.2 ++
            [Host.Did (Host.fs_mkdir (paths_summaryStorage config));
             Host.Did
               (Host.fs_writeFile
                  (path_join rt (paths_summaryStorage config)
                     (formatDateShort hrt date +:+ ".json"))
                  (JSON_stringify_StoredSummary hrt
                     (summaryToStorable rt summary None
                        (Some messageId))))]).
Proof.
  intros Hdry. unfold generateAndSendSummary. rewrite Hdry.
  intros (emails & j1 & [Hlist Hd1]%mail_inv & Hrest)%hbind_inr_inv.
  destruct emails as [|e0 emails]; simpl in Hrest.
  { injection Hrest as <- <-. left. by rewrite Hd1. }
  right.
  apply hbind_inr_inv in Hrest as (summary & j2 & [_ Hd2]%mail_inv & Hrest).
  apply hbind_inr_inv in Hrest as (now & j3 & [_ Hd3]%mail_inv & Hrest).
  apply hbind_inr_inv in Hrest as (htmlBody & j4 & [_ Hd4]%mail_inv & Hrest).
  apply hbind_inr_inv in Hrest as (plainBody & j5 & [_ Hd5]%mail_inv & Hrest).
  apply hbind_inr_inv in Hrest
    as (messageId & j6 & [Hsend Hd6]%mail_inv & Hrest).
  apply hbind_inr_inv in Hrest as (u & j7 & Hstore & [= <- <-]).
  apply storeSummary_inv in Hstore as (date & Hw7 & Hd7).
  unfold call in Hsend. injection Hsend as Hsend Hw6.
  exists summary, messageId, j5.1, now, htmlBody, plainBody, date.
  split; [done|]. split; [by rewrite Hw7, <- Hw6, <- app_assoc|].
  split; [done|]. by rewrite Hd7, Hd6, Hd5, Hd4, Hd3, Hd2, Hd1.
Qed.

End Stored.

(** X21. Outside dry-run, a generation that returns a summary has sent
    it and stored it, in this order: the summary email went to the user's
    own address under the subject [Daily Email Summary - <date>], with an
    HTML and a plain body; then the summary directory was made and one
    file written, named by the day with the extension [.json] (a name that
    [loadLatestSummary] takes into account), holding the stored form of
    the summary returned, with the id of the message sent and no thread
    id. A generation that returns [null] has found no email and has sent
    and written nothing. *)
Theorem generateAndSendSummary_sends_then_stores (rt : Runtime)
    (hrt : HostRuntime) (world : Oracle) (host : Host.Oracle)
    (config : Config) (j : Journal)
    (result : option (Summary * string)) (j' : Journal) :
  dryRun (agent config) = false ->
  generateAndSendSummary rt hrt world host config j = (inr result, j') ->
  match result with
  | None =>
      listRecentEmails world config (emailLookbackHours (agent config)) j.1
      = (inr [], j'.1) /\
      j'.2 = j.2
  | Some (summary, messageId) =>
      exists w0 now htmlBody plainBody date,
        j'.1 = w0 ++
               [Called (Api.sendEmail (user_email config)
                          ("Daily Email Summary - " +:+ formatDate rt now)
                          htmlBody (Some plainBody));
                Called Api.Date_now] /\
        respond world _ w0
          (Api.sendEmail (user_email config)
             ("Daily Email Summary - " +:+ formatDate rt now)
             htmlBody (Some plainBody))
        = inr messageId /\
        j'.2 = j.2 ++
               [Host.Did (Host.fs_mkdir (paths_summaryStorage config));
                Host.Did
                  (Host.fs_writeFile
                     (path_join rt (paths_summaryStorage config)
                        (formatDateShort hrt date +:+ ".json"))
                     (JSON_stringify_StoredSummary hrt
                        (summaryToStorable rt summary None
                           (Some messageId))))] /\
        Js.endsWith ".json" (formatDateShort hrt date +:+ ".json") = true /\
        ss_messageId (summaryToStorable rt summary None (Some messageId))
        = Some messageId /\
        ss_threadId (summaryToStorable rt summary None (Some messageId))
        = None
  end.
Proof.
  intros Hdry Hrun.
  destruct (generate_inv rt hrt world host config j result j' Hdry Hrun)
    as [(-> & Hlist & Hd)|
        (summary & messageId & w0 & now & htmlBody & plainBody & date &
         -> & Hw & Hsend & Hd)].
  - by split.
  - exists w0, now, htmlBody, plainBody, date.
    split; [done|]. split; [done|]. split; [done|].
    split; [apply endsWith_append|]. by split.
Qed.

Lemma generateAndSendSummary_sends_then_stores_witness :
  exists summary,
    fst HostDemo.generated = inr (Some (summary, "sent-2")) /\
    exists w0 now htmlBody plainBody date,
      (snd HostDemo.generated).1
      = w0 ++
        [Called (Api.sendEmail "me@example.com"
                   ("Daily Email Summary - " +:+ formatDate Demo.rt now)
                   htmlBody (Some plainBody));
         Called Api.Date_now] /\
      respond (Demo.world Demo.inbox "Report" "") _ w0
        (Api.sendEmail "me@example.com"
           ("Daily Email Summary - " +:+ formatDate Demo.rt now)
           htmlBody (Some plainBody))
      = inr "sent-2" /\
      (snd HostDemo.generated).2
      = [] ++
        [Host.Did (Host.fs_mkdir "/data/summaries");
         Host.Did
           (Host.fs_writeFile
              (path_join Demo.rt "/data/summaries"
                 (formatDateShort (HostDemo.hrt None) date +:+ ".json"))
              (JSON_stringify_StoredSummary (HostDemo.hrt None)
                 (summaryToStorable Demo.rt summary None (Some "sent-2"))))] /\
      Js.endsWith ".json"
        (formatDateShort (HostDemo.hrt None) date +:+ ".json") = true /\
      ss_messageId (summaryToStorable Demo.rt summary None (Some "sent-2"))
      = Some "sent-2" /\
      ss_threadId (summaryToStorable Demo.rt summary None (Some "sent-2"))
      = None.
Proof.
  eexists. split; [vm_compute; reflexivity|].
  eapply (generateAndSendSummary_sends_then_stores Demo.rt
            (HostDemo.hrt None) (Demo.world Demo.inbox "Report" "")
            HostDemo.host (Demo.config false) ([], [])
            (Some (_, "sent-2")) (snd HostDemo.generated) eq_refl).
  vm_compute. reflexivity.
Defined.

Section Unsent.

Variable rt : Runtime.
Variable hrt : HostRuntime.
Variable world : Oracle.
Variable host : Host.Oracle.
Variable config : Config.

(** A sequence either stops where its first part throws, or goes on
    with what the first part returned. *)
Lemma hbind_inv {A B : Type} (m : H A) (k : A -> H B) j r j' :
  hbind m k j = (r, j') ->
  (exists e, m j = (inl e, j') /\ r = inl e) \/
  (exists a j1, m j = (inr a, j1) /\ k a j1 = (r, j')).
Proof.
  unfold hbind. destruct (m j) as [[e|a] j1].
  - intros [= <- <-]. left. eauto.
  - intros Hrun. right. eauto.
Qed.

Lemma mail_host_journal {A : Type} (m : M A) j r j' :
  mail m j = (r, j') -> j'.2 = j.2.
Proof. by intros [_ ?]%mail_inv. Qed.

Lemma storeSummary_appends summary messageId j r j' :
  storeSummary rt hrt world host config summary messageId j = (r, j') ->
  exists t u, j' = (j.1 ++ t, j.2 ++ u).
Proof.
  intros Hrun.
  assert (keeps state_changing (fun _ => true)
            (storeSummary rt hrt world host config summary messageId))
    as Hkeeps.
  { unfold storeSummary.
    apply keeps_bind; [by apply keeps_host_call|]. intros _.
    apply keeps_bind; [|intros; by apply keeps_host_call].
    apply keeps_mail. unfold getSummaryFileName.
    apply (makes_bind _ 0 0); [by apply makes_quiet_call|].
    intros. apply makes_ret. }
  destruct (Hkeeps _ _ _ Hrun) as (t & u & -> & _). eauto.
Qed.

End Unsent.

(** X22. Outside dry-run, nothing is written before the summary email
    has gone out: whether the generation returns or throws, either no call
    of the host was made at all, or the summary email was sent to the
    user's address and the provider returned its id. A failure of the
    listing, of the model or of the sending leaves no summary file
    behind. *)
Theorem nothing_stored_unless_sent (rt : Runtime) (hrt : HostRuntime)
    (world : Oracle) (host : Host.Oracle) (config : Config) (j : Journal)
    (r : Thrown + option (Summary * string)) (j' : Journal) :
  dryRun (agent config) = false ->
  generateAndSendSummary rt hrt world host config j = (r, j') ->
  j'.2 = j.2 \/
  exists w0 subject htmlBody plainBody messageId rest u,
    j'.1 = w0 ++
           Called (Api.sendEmail (user_email config) subject htmlBody
                     (Some plainBody)) :: rest /\
    respond world _ w0
      (Api.sendEmail (user_email config) subject htmlBody (Some plainBody))
    = inr messageId /\
    j'.2 = j.2 ++ u.
Proof.
  intros Hdry. unfold generateAndSendSummary. rewrite Hdry.
  intros [(e & Hd%mail_host_journal & _)|
          (emails & j1 & Hd1%mail_host_journal & Hrest)]%hbind_inv;
    [by left|].
  destruct (length emails =? 0)%nat; [injection Hrest as _ <-; by left|].
  apply hbind_inv in Hrest
    as [(e & Hd%mail_host_journal & _)|
        (summary & j2 & Hd2%mail_host_journal & Hrest)];
    [left; congruence|].
  apply hbind_inv in Hrest
    as [(e & Hd%mail_host_journal & _)|
        (now & j3 & Hd3%mail_host_journal & Hrest)];
    [left; congruence|].
  apply hbind_inv in Hrest
    as [(e & Hd%mail_host_journal & _)|
        (htmlBody & j4 & Hd4%mail_host_journal & Hrest)];
    [left; congruence|].
  apply hbind_inv in Hrest
    as [(e & Hd%mail_host_journal & _)|
        (plainBody & j5 & Hd5%mail_host_journal & Hrest)];
    [left; congruence|].
  apply hbind_inv in Hrest
    as [(e & Hd%mail_host_journal & _)|
        (messageId & j6 & [Hsend Hd6]%mail_inv & Hrest)];
    [left; congruence|].
  right. unfold call in Hsend. injection Hsend as Hsend Hw6.
  assert (exists rest u, j' = (j6.1 ++ rest, j6.2 ++ u))
    as (rest & u & ->).
  { apply hbind_inv in Hrest
      as [(e & Hstore & _)|(u0 & j7 & Hstore & [= _ <-])];
      by apply storeSummary_appends in Hstore. }
  exists j5.1, ("Daily Email Summary - " +:+ formatDate rt now), htmlBody,
    plainBody, messageId, rest, u.
  simpl. split; [by rewrite <- Hw6, <- app_assoc|]. split; [done|].
  congruence.
Qed.

(** The summary cannot be sent: the generation throws, and no call of the
    host was made. *)
Lemma nothing_stored_unless_sent_witness :
  fst (generateAndSendSummary Demo.rt (HostDemo.hrt None)
         (HostDemo.unsendable Demo.inbox "Report") HostDemo.host
         (Demo.config false) ([], []))
  = inl (JsError "Daily sending limit exceeded") /\
  ((snd (generateAndSendSummary Demo.rt (HostDemo.hrt None)
           (HostDemo.unsendable Demo.inbox "Report") HostDemo.host
           (Demo.config false) ([], []))).2 = [] \/
   exists w0 subject htmlBody plainBody messageId rest u,
     (snd (generateAndSendSummary Demo.rt (HostDemo.hrt None)
             (HostDemo.unsendable Demo.inbox "Report") HostDemo.host
             (Demo.config false) ([], []))).1
     = w0 ++
       Called (Api.sendEmail "me@example.com" subject htmlBody
                 (Some plainBody)) :: rest /\
     respond (HostDemo.unsendable Demo.inbox "Report") _ w0
       (Api.sendEmail "me@example.com" subject htmlBody (Some plainBody))
     = inr messageId /\
     (snd (generateAndSendSummary Demo.rt (HostDemo.hrt None)
             (HostDemo.unsendable Demo.inbox "Report") HostDemo.host
             (Demo.config false) ([], []))).2
     = [] ++ u).
Proof.
  split; [vm_compute; reflexivity|].
  apply (nothing_stored_unless_sent Demo.rt (HostDemo.hrt None)
           (HostDemo.unsendable Demo.inbox "Report") HostDemo.host
           (Demo.config false) ([], [])
           (fst (generateAndSendSummary Demo.rt (HostDemo.hrt None)
                   (HostDemo.unsendable Demo.inbox "Report") HostDemo.host
                   (Demo.config false) ([], []))));
    [reflexivity|apply surjective_pairing].
Defined.

(** ** Authentication and the whole run *)

Section Auth.

Variable hrt : HostRuntime.
Variable world : Oracle.
Variable host : Host.Oracle.
Variable tokenPath : string.






(** [loadTokens] never throws. *)
Lemma loadTokens_returns j :
  exists tokens j',
    loadTokens hrt world tokenPath j = (inr tokens, j').
Proof.
  unfold loadTokens, htry_catch, hbind.
  destruct (mail _ j) as [[e|content] j1]; [by eexists _, _|].
  destruct (JSON_parse_tokens hrt content); by eexists _, _.
Qed.

End Auth.

Section Main.

Variable rt : Runtime.
Variable hrt : HostRuntime.
Variable world : Oracle.
Variable host : Host.Oracle.
Variable config : Config.
Variable tokenPath : string.



End Main.

Section Tokens.

Variable hrt : HostRuntime.
Variable world : Oracle.
Variable host : Host.Oracle.
Variable tokenPath : string.

Lemma loadTokens_inv (j : Journal) r j1 :
  loadTokens hrt world tokenPath j = (r, j1) ->
  j1 = (j.1 ++ [Called (Api.fs_readFile tokenPath)], j.2) /\
  ((exists content tokens,
      respond world _ j.1 (Api.fs_readFile tokenPath) = inr content /\
      JSON_parse_tokens hrt content = Some tokens /\
      r = inr (Some tokens)) \/
   (match respond world _ j.1 (Api.fs_readFile tokenPath) with
    | inl _ => True
    | inr content => JSON_parse_tokens hrt content = None
    end /\
    r = inr None)).
Proof.
  unfold loadTokens, htry_catch, hbind, mail, call. cbv beta.
  destruct (respond world _ j.1 _) as [e|content].
  - intros [= <- <-]. split; [done|]. by right.
  - destruct (JSON_parse_tokens hrt content) as [tokens|] eqn:Hparse.
    + intros [= <- <-]. split; [done|]. left. by exists content, tokens.
    + intros [= <- <-]. split; [done|]. by right.
Qed.

Lemma saveTokens_inv tokens (j : Journal) j' :
  saveTokens hrt host tokenPath tokens j = (inr tt, j') ->
  j' = (j.1,
        j.2 ++ [Host.Did (Host.fs_mkdir (path_dirname hrt tokenPath));
                Host.Did
                  (Host.fs_writeFile tokenPath
                     (JSON_stringify_StoredTokens hrt
                        (stored_form tokens)))]).
Proof.
  unfold saveTokens.
  intros (? & j1 & [_ ->]%host_call_inv & [_ ->]%host_call_inv)%hbind_inr_inv.
  simpl. by rewrite <- app_assoc.
Qed.

Lemma saveTokens_writes tokens (j : Journal) :
  exists u,
    (snd (saveTokens hrt host tokenPath tokens j)).2 = j.2 ++ u /\
    forall path data,
      (path, data) ∈ omap written u ->
      path = tokenPath /\
      data = JSON_stringify_StoredTokens hrt (stored_form tokens).
Proof.
  unfold saveTokens, hbind, host_call. cbv beta.
  destruct (Host.respond host _ _ _ (Host.fs_mkdir _)) as [e|[]];
    cbn [fst snd].
  - exists [Host.Did (Host.fs_mkdir (path_dirname hrt tokenPath))].
    split; [done|]. by intros ? ? ?%elem_of_nil.
  - exists [Host.Did (Host.fs_mkdir (path_dirname hrt tokenPath));
            Host.Did
              (Host.fs_writeFile tokenPath
                 (JSON_stringify_StoredTokens hrt (stored_form tokens)))].
    rewrite <- app_assoc. split; [done|].
    by intros ? ? [= -> ->]%list_elem_of_singleton.
Qed.

Lemma refreshAccessToken_inv (j : Journal) j' :
  refreshAccessToken hrt host tokenPath j = (inr tt, j') ->
  exists credentials,
    j' = (j.1,
          j.2 ++ [Host.Did Host.oauth_refreshAccessToken;
                  Host.Did (Host.setCredentials credentials);
                  Host.Did (Host.fs_mkdir (path_dirname hrt tokenPath));
                  Host.Did
                    (Host.fs_writeFile tokenPath
                       (JSON_stringify_StoredTokens hrt
                          (stored_form credentials)))]).
Proof.
  unfold refreshAccessToken.
  intros (credentials & j1 & [_ ->]%host_call_inv & Hrest)%hbind_inr_inv.
  apply hbind_inr_inv in Hrest as (? & j2 & [_ ->]%host_call_inv & Hsave).
  apply saveTokens_inv in Hsave as ->. exists credentials.
  simpl. by rewrite <- !app_assoc.
Qed.

Lemma refresh_due_spec tokens now :
  negb (or_zero (expiry_date tokens) =? 0)%Z
  && (or_zero (expiry_date tokens) - now <? 5 * 60 * 1000)%Z = true
  <-> refresh_due tokens now.
Proof.
  unfold refresh_due, or_zero. split.
  - intros [Hne Hlt]%andb_prop.
    destruct (expiry_date tokens) as [expiry|]; [|done].
    exists expiry. simpl in *. split; [done|].
    apply negb_true_iff, Z.eqb_neq in Hne. apply Z.ltb_lt in Hlt.
    split; [done|lia].
  - intros (expiry & -> & Hne & Hlt). simpl.
    apply andb_true_intro. split.
    + by apply negb_true_iff, Z.eqb_neq.
    + apply Z.ltb_lt. lia.
Qed.

(** Tokens with an expiry of 0 on file: no refresh. *)
Lemma initialize_no_refresh (j : Journal) content tokens :
  respond world _ j.1 (Api.fs_readFile tokenPath) = inr content ->
  JSON_parse_tokens hrt content = Some tokens ->
  or_zero (expiry_date tokens) = 0%Z ->
  exists u,
    (snd (initialize hrt world host tokenPath j)).2 = j.2 ++ u /\
    forallb (fun e => negb (is_refresh e)) u = true.
Proof.
  intros Hfile Hparse Hzero.
  assert (loadTokens hrt world tokenPath j
          = (inr (Some tokens),
             (j.1 ++ [Called (Api.fs_readFile tokenPath)], j.2)))
    as Hload.
  { unfold loadTokens, htry_catch, hbind, mail, call. cbv beta.
    by rewrite Hfile, Hparse. }
  unfold initialize. rewrite (hbind_returns _ _ _ _ _ Hload).
  rewrite Hzero. unfold hbind, host_call, mail, call. cbv beta. simpl.
  exists [Host.Did (Host.setCredentials tokens)].
  destruct (Host.respond host _ _ _ _) as [e|[]]. 1: by simpl.
  by destruct (respond world Z _ _) as [e|now]; simpl.
Qed.

End Tokens.






(** X26. What [initialize] has done when it returns. With [false], it
    has read the token file, which was unreadable or unparsable, and
    nothing else. With [true], it has handed the tokens on file to the
    OAuth client and read the clock; and exactly when the expiry time of
    the tokens is known, is not 0 and lies less than five minutes after
    the clock (or in the past), it has fetched new credentials, handed
    them to the client and written them to the token file, a missing
    field replaced by its default. *)
Theorem initialize_refreshes_when_due (hrt : HostRuntime) (world : Oracle)
    (host : Host.Oracle) (tokenPath : string) (j : Journal) (b : bool)
    (j' : Journal) :
  initialize hrt world host tokenPath j = (inr b, j') ->
  if b then
    exists content tokens now,
      respond world _ j.1 (Api.fs_readFile tokenPath) = inr content /\
      JSON_parse_tokens hrt content = Some tokens /\
      respond world _ (j.1 ++ [Called (Api.fs_readFile tokenPath)])
        Api.Date_now
      = inr now /\
      j'.1 = j.1 ++ [Called (Api.fs_readFile tokenPath);
                     Called Api.Date_now] /\
      (refresh_due tokens now /\
       (exists credentials,
          j'.2 = j.2 ++
                 [Host.Did (Host.setCredentials tokens);
                  Host.Did Host.oauth_refreshAccessToken;
                  Host.Did (Host.setCredentials credentials);
                  Host.Did (Host.fs_mkdir (path_dirname hrt tokenPath));
                  Host.Did
                    (Host.fs_writeFile tokenPath
                       (JSON_stringify_StoredTokens hrt
                          (stored_form credentials)))])
       \/
       ~ refresh_due tokens now /\
       j'.2 = j.2 ++ [Host.Did (Host.setCredentials tokens)])
  else
    j' = (j.1 ++ [Called (Api.fs_readFile tokenPath)], j.2) /\
    match respond world _ j.1 (Api.fs_readFile tokenPath) with
    | inl _ => True
    | inr content => JSON_parse_tokens hrt content = None
    end.
Proof.
  unfold initialize.
  intros (loaded & j1 & Hload & Hrest)%hbind_inr_inv.
  apply loadTokens_inv in Hload
    as [-> [(content & tokens & Hfile & Hparse & [= ->])
           |[Hfile [= ->]]]].
  - apply hbind_inr_inv in Hrest
      as (? & j2 & [_ ->]%host_call_inv & Hrest).
    apply hbind_inr_inv in Hrest
      as (now & j3 & [Hnow Hj3]%mail_inv & Hrest).
    apply hbind_inr_inv in Hrest as ([] & j4 & Hcond & [= <- <-]).
    unfold call in Hnow. simpl in Hnow, Hj3.
    injection Hnow as Hnow Hw3.
    exists content, tokens, now.
    split; [done|]. split; [done|]. split; [done|].
    destruct (negb _ && _) eqn:Hdue.
    + apply refresh_due_spec in Hdue.
      apply refreshAccessToken_inv in Hcond as [credentials ->].
      simpl. rewrite <- Hw3, Hj3, <- !app_assoc. split; [done|].
      left. split; [done|]. by exists credentials.
    + injection Hcond as <-. rewrite <- Hw3, Hj3, <- app_assoc.
      split; [done|]. right. split; [|done].
      intros Hdue'%refresh_due_spec. by rewrite Hdue in Hdue'.
  - by injection Hrest as <- <-.
Qed.

(** Tokens that expire one minute after the clock are refreshed. *)
Lemma initialize_refreshes_when_due_witness :
  exists j',
    initialize (HostDemo.hrt (Some 1768470060000%Z))
      (HostDemo.world [] "Report") HostDemo.host HostDemo.tokenPath ([], [])
    = (inr true, j') /\
    refresh_due (HostDemo.tokens (Some 1768470060000%Z)) 1768470000000 /\
    exists content tokens now,
      respond (HostDemo.world [] "Report") _ []
        (Api.fs_readFile HostDemo.tokenPath)
      = inr content /\
      JSON_parse_tokens (HostDemo.hrt (Some 1768470060000%Z)) content
      = Some tokens /\
      respond (HostDemo.world [] "Report") _
        ([] ++ [Called (Api.fs_readFile HostDemo.tokenPath)]) Api.Date_now
      = inr now /\
      j'.1 = [] ++ [Called (Api.fs_readFile HostDemo.tokenPath);
                    Called Api.Date_now] /\
      (refresh_due tokens now /\
       (exists credentials,
          j'.2 = [] ++
                 [Host.Did (Host.setCredentials tokens);
                  Host.Did Host.oauth_refreshAccessToken;
                  Host.Did (Host.setCredentials credentials);
                  Host.Did
                    (Host.fs_mkdir
                       (path_dirname (HostDemo.hrt (Some 1768470060000%Z))
                          HostDemo.tokenPath));
                  Host.Did
                    (Host.fs_writeFile HostDemo.tokenPath
                       (JSON_stringify_StoredTokens
                          (HostDemo.hrt (Some 1768470060000%Z))
                          (stored_form credentials)))])
       \/
       ~ refresh_due tokens now /\
       j'.2 = [] ++ [Host.Did (Host.setCredentials tokens)]).
Proof.
  eexists. split; [vm_compute; reflexivity|].
  split; [eexists; split; [reflexivity|]; split; [done|reflexivity]|].
  apply (initialize_refreshes_when_due (HostDemo.hrt (Some 1768470060000%Z))
           (HostDemo.world [] "Report") HostDemo.host HostDemo.tokenPath
           ([], []) true).
  vm_compute. reflexivity.
Defined.

(** X27. Credentials without an expiry time are written to the token file
    with the expiry 0, and tokens read back with the expiry 0 are never
    refreshed at start-up: what [saveTokens] writes, if anything, is the
    stored form of the credentials, at the token path; and when the token
    file holds that text and parsing it gives its fields back,
    [initialize] does not call the token endpoint. *)
Theorem tokens_without_expiry_never_refreshed (hrt : HostRuntime)
    (world : Oracle) (host : Host.Oracle) (tokenPath : string)
    (saved : Credentials) (j0 j : Journal) :
  or_zero (expiry_date saved) = 0%Z ->
  JSON_parse_tokens hrt (JSON_stringify_StoredTokens hrt (stored_form saved))
  = Some (read_back (stored_form saved)) ->
  (exists u0,
     (snd (saveTokens hrt host tokenPath saved j0)).2 = j0.2 ++ u0 /\
     forall path data,
       (path, data) ∈ omap written u0 ->
       path = tokenPath /\
       data = JSON_stringify_StoredTokens hrt (stored_form saved)) /\
  (respond world _ j.1 (Api.fs_readFile tokenPath)
   = inr (JSON_stringify_StoredTokens hrt (stored_form saved)) ->
   exists u,
     (snd (initialize hrt world host tokenPath j)).2 = j.2 ++ u /\
     forallb (fun e => negb (is_refresh e)) u = true).
Proof.
  intros Hzero Hparse. split.
  - apply saveTokens_writes.
  - intros Hfile.
    apply (initialize_no_refresh hrt world host tokenPath j _ _ Hfile Hparse).
    exact Hzero.
Qed.

(** Credentials without an expiry time, saved and read back. *)
Lemma tokens_without_expiry_never_refreshed_witness :
  exists u,
    (snd (initialize (SavedDemo.hrt (HostDemo.tokens None))
            (SavedDemo.world (HostDemo.tokens None)) HostDemo.host
            HostDemo.tokenPath ([], []))).2
    = [] ++ u /\
    forallb (fun e => negb (is_refresh e)) u = true.
Proof.
  refine (proj2
            (tokens_without_expiry_never_refreshed
               (SavedDemo.hrt (HostDemo.tokens None))
               (SavedDemo.world (HostDemo.tokens None)) HostDemo.host
               HostDemo.tokenPath (HostDemo.tokens None) ([], []) ([], [])
               _ _) _);
    vm_compute; reflexivity.
Defined.

(** X28. [addLabel] finds the label or creates it, and labels the one
    message. After listing the labels it creates at most one, named as
    asked, and only when no listed label has that name, letter case
    apart; it modifies at most one message, the one given, adding one
    label id that is not empty and removing none; and when a listed
    label has the name, the id added is that of the first such label. *)
Theorem addLabel_finds_or_creates (hrt : HostRuntime) (host : Host.Oracle)
    (messageId labelName : string) (j : Journal) :
  exists u,
    snd (addLabel hrt host messageId labelName j)
    = (j.1, j.2 ++ Host.Did Host.labels_list :: u) /\
    (omap created u = [] \/
     omap created u = [labelName] /\
     exists labels,
       Host.respond host _ j.1 j.2 Host.labels_list = inr labels /\
       Forall (fun l => label_matches hrt labelName l = false)
         (default [] labels)) /\
    (omap modified u = [] \/
     exists labelId,
       labelId <> "" /\
       omap modified u = [(messageId, [labelId], [])] /\
       forall labels l,
         Host.respond host _ j.1 j.2 Host.labels_list = inr labels ->
         List.find (label_matches hrt labelName) (default [] labels)
         = Some l ->
         label_id l = Some labelId).
Proof.
  assert (forall (l : LabelData) (j1 : Journal),
            exists u1,
              (if Js.truthy (label_id l)
               then host_call host
                      (Host.messages_modify messageId
                         [default "" (label_id l)] [])
               else hret tt) j1
              = (if Js.truthy (label_id l)
                 then Host.respond host _ j1.1 j1.2
                        (Host.messages_modify messageId
                           [default "" (label_id l)] [])
                 else inr tt,
                 (j1.1, j1.2 ++ u1)) /\
              omap created u1 = [] /\
              (omap modified u1 = [] \/
               exists labelId,
                 labelId <> "" /\
                 omap modified u1 = [(messageId, [labelId], [])] /\
                 label_id l = Some labelId))
    as Hmodify.
  { intros l j1. destruct (label_id l) as [[|c labelId]|] eqn:Hid; simpl.
    - exists []. rewrite app_nil_r. by destruct j1; auto.
    - exists [Host.Did (Host.messages_modify messageId
                          [String c labelId] [])].
      split; [done|]. split; [done|]. right.
      by exists (String c labelId).
    - exists []. rewrite app_nil_r. by destruct j1; auto. }
  unfold addLabel, hbind.
  destruct (host_call host Host.labels_list j) as [r j1] eqn:Hlist.
  apply host_call_inv in Hlist as [Hlist ->].
  destruct r as [e|labels].
  { exists []. simpl. auto. }
  change (fun l : LabelData => match label_name l with
                               | Some name =>
                                   String.eqb (toLowerCase hrt name)
                                     (toLowerCase hrt labelName)
                               | None => false
                               end)
    with (label_matches hrt labelName).
  destruct (List.find (label_matches hrt labelName) (default [] labels))
    as [l|] eqn:Hfind.
  - unfold hret at 1.
    destruct (Hmodify l (j.1, j.2 ++ [Host.Did Host.labels_list]))
      as (u1 & -> & Hcreated & Hmodified).
    exists u1. simpl. rewrite <- app_assoc. split; [done|].
    split; [by left|].
    destruct Hmodified as [?|(labelId & ? & ? & Hid)]; [by left|].
    right. exists labelId. split; [done|]. split; [done|].
    intros labels' l'. rewrite Hlist. intros [= <-].
    rewrite Hfind. by intros [= <-].
  - destruct (host_call host (Host.labels_create labelName) _)
      as [r j2] eqn:Hcreate.
    apply host_call_inv in Hcreate as [Hcreate ->]. cbn [fst snd] in *.
    assert (Forall (fun l => label_matches hrt labelName l = false)
              (default [] labels)) as Hnone.
    { apply Forall_forall. intros l Hl%list_elem_of_In.
      by apply (List.find_none _ _ Hfind). }
    destruct r as [e|l].
    { exists [Host.Did (Host.labels_create labelName)]. simpl.
      rewrite <- app_assoc. split; [done|].
      split; [right; split; [done|]; by exists labels|]. by left. }
    destruct (Hmodify l
                (j.1, (j.2 ++ [Host.Did Host.labels_list])
                      ++ [Host.Did (Host.labels_create labelName)]))
      as (u1 & -> & Hcreated & Hmodified).
    exists (Host.Did (Host.labels_create labelName) :: u1). cbn [snd].
    rewrite <- !app_assoc. split; [done|].
    assert (omap created (Host.Did (Host.labels_create labelName) :: u1)
            = [labelName]) as ->.
    { change (labelName :: omap created u1 = [labelName]).
      by rewrite Hcreated. }
    change (omap modified (Host.Did (Host.labels_create labelName) :: u1))
      with (omap modified u1).
    split; [right; split; [done|]; by exists labels|].
    destruct Hmodified as [?|(labelId & ? & ? & Hid)]; [by left|].
    right. exists labelId. split; [done|]. split; [done|].
    intros labels' l'. rewrite Hlist. intros [= <-].
    by rewrite Hfind.
Qed.

Example generateReferenceId_0 : generateReferenceId 0 = "EMAIL-001".
Proof. reflexivity. Qed.

Example generateReferenceId_41 : generateReferenceId 41 = "EMAIL-042".
Proof. reflexivity. Qed.

Example generateReferenceId_998 : generateReferenceId 998 = "EMAIL-999".
Proof. reflexivity. Qed.

Example generateReferenceId_999 : generateReferenceId 999 = "EMAIL-1000".
Proof. reflexivity. Qed.
